(** * weekly_summary.py: tables, ticket counts, pull-request lists, report

    A shallow embedding of [scripts/weekly_summary.py] (Python 2, Twisted).
    Python dictionaries are finite maps, exceptions are an error monad, and
    the Twisted callback chains are run on the outcomes of the requests. *)

From Stdlib Require Import ZArith Ascii String DecimalString.
From stdpp Require Import base option list sorting gmap strings.


(** ** Exceptions *)

Inductive exc : Set :=
  | KeyError | IndexError | AttributeError | TypeError | ValueError
  | UnicodeEncodeError   (* a subclass of [ValueError] *)
  | StopIteration.

Inductive res (A : Type) : Type :=
  | Ok (a : A)
  | Raise (e : exc).
Arguments Ok {A} a.
Arguments Raise {A} e.

Global Instance exc_eq_dec : EqDecision exc.
Proof. solve_decision. Defined.

Global Instance res_eq_dec `{EqDecision A} : EqDecision (res A).
Proof. solve_decision. Defined.

Definition bind {A B} (m : res A) (k : A → res B) : res B :=
  match m with
  | Ok a => k a
  | Raise e => Raise e
  end.

Notation "x <- m ;; k" := (bind m (fun x => k))
  (at level 100, m at next level, right associativity).

(** ** Python values that reach the tables *)

Inductive pyval : Set :=
  | PNone
  | PInt (z : Z)
  | PStr (s : string).

Global Instance pyval_eq_dec : EqDecision pyval.
Proof. solve_decision. Defined.

Definition pyval_enc (v : pyval) : unit + (Z + string) :=
  match v with
  | PNone => inl tt
  | PInt z => inr (inl z)
  | PStr s => inr (inr s)
  end.

Definition pyval_dec (x : unit + (Z + string)) : pyval :=
  match x with
  | inl _ => PNone
  | inr (inl z) => PInt z
  | inr (inr s) => PStr s
  end.

Global Instance pyval_countable : Countable pyval.
Proof. apply (inj_countable' pyval_enc pyval_dec). by intros []. Defined.

(** [str(v)] *)
Definition str (v : pyval) : string :=
  match v with
  | PNone => "None"
  | PInt z => NilZero.string_of_int (Z.to_int z)
  | PStr s => s
  end.

(** [str(v)] as the table renderer calls it, on cells of any type. On the
    values above ([None], numbers, byte strings) it always returns; on a
    unicode string it can raise. *)
Class Printable (V : Type) := str_of : V → res string.

Global Instance pyval_printable : Printable pyval := λ v, Ok (str v).

(** [len(s)] of a byte string *)
Definition len (s : string) : nat := String.length s.

(** [' ' * n] *)
Definition spaces (n : nat) : string := string_of_list_ascii (replicate n " "%char).

(** [s.ljust(width)] and [s.rjust(width)] with the default fill character *)
Definition ljust (s : string) (width : nat) : string := s +:+ spaces (width - len s).
Definition rjust (s : string) (width : nat) : string := spaces (width - len s) +:+ s.

(** [sep.join(l)] *)
Fixpoint join (sep : string) (l : list string) : string :=
  match l with
  | [] => ""
  | [x] => x
  | x :: xs => x +:+ sep +:+ join sep xs
  end.

Definition newline : ascii := ascii_of_nat 10.
Definition nl : string := String newline "".

(** [s.split('\n')]: one piece more than there are separators *)
Fixpoint split (sep : ascii) (s : string) : list string :=
  match s with
  | "" => [""]
  | String c s' =>
      if decide (c = sep) then "" :: split sep s'
      else match split sep s' with
           | x :: xs => String c x :: xs
           | [] => [String c ""]
           end
  end.

(** Truth value of a string: only the empty string is false. *)
Definition truthy (s : string) : bool :=
  match s with
  | "" => false
  | _ => true
  end.

(** [str.upper] and [str.lower] on one byte, and [s.capitalize()] *)
Definition upper_char (c : ascii) : ascii :=
  let n := nat_of_ascii c in
  if (97 <=? n)%nat && (n <=? 122)%nat then ascii_of_nat (n - 32) else c.

Definition lower_char (c : ascii) : ascii :=
  let n := nat_of_ascii c in
  if (65 <=? n)%nat && (n <=? 90)%nat then ascii_of_nat (n + 32) else c.

Fixpoint lower (s : string) : string :=
  match s with
  | "" => ""
  | String c s' => String (lower_char c) (lower s')
  end.

Definition capitalize (s : string) : string :=
  match s with
  | "" => ""
  | String c s' => String (upper_char c) (lower s')
  end.

(** ** Dictionaries and lists *)

(** [d[k]] *)
Definition getitem `{Countable K} {V} (d : gmap K V) (k : K) : res V :=
  match d !! k with
  | Some v => Ok v
  | None => Raise KeyError
  end.

(** [l[i]] for [0 <= i] *)
Definition list_getitem {A} (l : list A) (i : nat) : res A :=
  match l !! i with
  | Some x => Ok x
  | None => Raise IndexError
  end.

(** [l[i] = x] for [0 <= i] *)
Definition list_setitem {A} (l : list A) (i : nat) (x : A) : res (list A) :=
  if decide (i < length l) then Ok (<[i:=x]> l) else Raise IndexError.

(** The position that the index [-1] denotes. *)
Definition index_neg1 {A} (l : list A) : res nat :=
  match length l with
  | O => Raise IndexError
  | S n => Ok n
  end.

(** [d.keys()]; the order is unspecified and every use sorts the result. *)
Definition keys `{Countable K} {V} (d : gmap K V) : list K := (map_to_list d).*1.

(** Python 2 [cmp] on the values above: [None] is smallest, numbers come
    before strings, strings compare byte-wise. *)
Definition cmp (a b : pyval) : comparison :=
  match a, b with
  | PNone, PNone => Eq
  | PNone, _ => Lt
  | _, PNone => Gt
  | PInt x, PInt y => (x ?= y)%Z
  | PInt _, PStr _ => Lt
  | PStr _, PInt _ => Gt
  | PStr x, PStr y => String.compare x y
  end.

(** [sorted(l, cmp)]: a stable sort under a comparison function. *)
Fixpoint insert_by {A} (c : A → A → comparison) (x : A) (l : list A) : list A :=
  match l with
  | [] => [x]
  | y :: ys =>
      match c x y with
      | Gt => y :: insert_by c x ys
      | _ => x :: l
      end
  end.

Definition sorted {A} (c : A → A → comparison) (l : list A) : list A :=
  foldr (insert_by c) [] l.

(** ** The table renderer: [tablify_dict] *)

(** A table maps row keys to rows, and a row maps column keys to values.
    The row keys of the program are strings and numbers; the cells are of
    any type that [str] applies to. *)
Abbreviation record := (gmap string pyval).
Abbreviation table := (gmap pyval (gmap string pyval)).

(** [format_cell(c, size, header)]; [None] asks for the cell to be left out. *)
Definition formatter : Type := pyval → nat → string → res (option string).

(** [c.ljust(size)] and [c.rjust(size)] exist on strings only. *)
Definition ljust_method (c : pyval) (size : nat) : res string :=
  match c with
  | PStr s => Ok (ljust s size)
  | _ => Raise AttributeError
  end.

Definition rjust_method (c : pyval) (size : nat) : res string :=
  match c with
  | PStr s => Ok (rjust s size)
  | _ => Raise AttributeError
  end.

(** [lambda c, size, header: c.rjust(size) if header else c.ljust(size)] *)
Definition default_format_cell : formatter := λ c size header,
  if truthy header
  then (s <- rjust_method c size;; Ok (Some s))
  else (s <- ljust_method c size;; Ok (Some s)).

(** [filter(skip_nones, row)] *)
Definition skip_nones (cells : list (option string)) : list string :=
  omap id cells.

(** Lines 57-61: the widths, one per column and a last one for the row keys. *)
Fixpoint measure_cols `{Printable V} (d : gmap pyval (gmap string V)) (r : pyval)
    (cols : list string) (i : nat) (col_widths : list nat) : res (list nat) :=
  match cols with
  | [] => Ok col_widths
  | c :: cs =>
      w <- list_getitem col_widths i;;
      row <- getitem d r;;
      v <- getitem row c;;
      text <- str_of v;;
      col_widths' <- list_setitem col_widths i (max w (len text));;
      measure_cols d r cs (S i) col_widths'
  end.

Fixpoint measure_rows `{Printable V} (d : gmap pyval (gmap string V)) (rows : list pyval)
    (cols : list string) (col_widths : list nat) : res (list nat) :=
  match rows with
  | [] => Ok col_widths
  | r :: rs =>
      j <- index_neg1 col_widths;;
      w <- list_getitem col_widths j;;
      col_widths1 <- list_setitem col_widths j (max w (len (str r)));;
      col_widths2 <- measure_cols d r cols 0 col_widths1;;
      measure_rows d rs cols col_widths2
  end.

Definition measure `{Printable V} (d : gmap pyval (gmap string V)) (rows : list pyval)
    (cols : list string) : res (list nat) :=
  measure_rows d rows cols ((len <$> cols) ++ [0])%list.

(** [[format_cell(c, col_widths[i], c) for i, c in enumerate(cols)]] *)
Fixpoint header_cells (format_cell : formatter) (cols : list string) (i : nat)
    (col_widths : list nat) : res (list (option string)) :=
  match cols with
  | [] => Ok []
  | c :: cs =>
      w <- list_getitem col_widths i;;
      cell <- format_cell (PStr c) w c;;
      rest <- header_cells format_cell cs (S i) col_widths;;
      Ok (cell :: rest)
  end.

(** Lines 73-75: the data cells of row [r]. *)
Fixpoint row_cells `{Printable V} (format_cell : formatter)
    (d : gmap pyval (gmap string V)) (r : pyval)
    (cols : list string) (i : nat) (col_widths : list nat) : res (list (option string)) :=
  match cols with
  | [] => Ok []
  | c :: cs =>
      row <- getitem d r;;
      value <- getitem row c;;
      text <- str_of value;;
      w <- list_getitem col_widths i;;
      cell <- format_cell (PStr text) w c;;
      rest <- row_cells format_cell d r cs (S i) col_widths;;
      Ok (cell :: rest)
  end.

Definition header_line (format_cell : formatter) (cols : list string)
    (col_widths : list nat) (padding : string) : res string :=
  j <- index_neg1 col_widths;;
  w <- list_getitem col_widths j;;
  corner <- format_cell (PStr "") w "";;
  cells <- header_cells format_cell cols 0 col_widths;;
  Ok (join padding (skip_nones (corner :: cells))).

Definition row_line `{Printable V} (format_cell : formatter)
    (d : gmap pyval (gmap string V)) (cols : list string)
    (col_widths : list nat) (padding : string) (r : pyval) : res string :=
  j <- index_neg1 col_widths;;
  w <- list_getitem col_widths j;;
  key <- format_cell r w "";;
  cells <- row_cells format_cell d r cols 0 col_widths;;
  Ok (join padding (skip_nones (key :: cells))).

Fixpoint row_lines `{Printable V} (format_cell : formatter)
    (d : gmap pyval (gmap string V)) (cols : list string)
    (col_widths : list nat) (padding : string) (rows : list pyval) : res (list string) :=
  match rows with
  | [] => Ok []
  | r :: rs =>
      tr <- row_line format_cell d cols col_widths padding r;;
      rest <- row_lines format_cell d cols col_widths padding rs;;
      Ok (tr :: rest)
  end.

Definition rows_of {V} (d : gmap pyval (gmap string V)) (row_order : option (list pyval))
    : list pyval :=
  match row_order with
  | None => sorted cmp (keys d)
  | Some rows => rows
  end.

Definition cols_of {V} (d : gmap pyval (gmap string V)) (rows : list pyval)
    (col_order : option (list string)) : res (list string) :=
  match col_order with
  | None =>
      r0 <- list_getitem rows 0;;
      row <- getitem d r0;;
      Ok (sorted String.compare (keys row))
  | Some cols => Ok cols
  end.

Definition format_cell_of (field_formatter : option formatter) : formatter :=
  match field_formatter with
  | None => default_format_cell
  | Some f => f
  end.

(** The list [table] of line 77, before it is joined. *)
Definition table_lines `{Printable V} (d : gmap pyval (gmap string V)) (show_header : bool)
    (field_formatter : option formatter)
    (row_order : option (list pyval)) (col_order : option (list string))
    (col_padding : Z) : res (list string) :=
  let format_cell := format_cell_of field_formatter in
  let rows := rows_of d row_order in
  cols <- cols_of d rows col_order;;
  col_widths <- measure d rows cols;;
  let padding := spaces (Z.to_nat col_padding) in
  head <- (if show_header
           then (th <- header_line format_cell cols col_widths padding;; Ok [th])
           else Ok []);;
  body <- row_lines format_cell d cols col_widths padding rows;;
  Ok (head ++ body)%list.

(** [tablify_dict(d, show_header, field_formatter, row_order, col_order,
    col_padding)]; the defaults of the source are [true], [None], [None],
    [None] and [1]. *)
Definition tablify_dict `{Printable V} (d : gmap pyval (gmap string V)) (show_header : bool)
    (field_formatter : option formatter)
    (row_order : option (list pyval)) (col_order : option (list string))
    (col_padding : Z) : res string :=
  lines <- table_lines d show_header field_formatter row_order col_order col_padding;;
  Ok (join nl lines).

(** ** The tracker summary: [get_trac_tickets] *)

Definition TRAC_BUILDBOT_URL : string := "http://trac.buildbot.net".

(** [TRAC_BUILDBOT_TICKET_URL % {'ticket': ticket}] *)
Definition TRAC_BUILDBOT_TICKET_URL (ticket : string) : string :=
  TRAC_BUILDBOT_URL +:+ "/ticket/" +:+ ticket.

(** [c * n] for a one-character string *)
Definition repeat_char (c : ascii) (n : nat) : string :=
  string_of_list_ascii (replicate n c).

(** One element of the comprehension of lines 88-90. *)
Definition ticket_of_row (t : list string) : res record :=
  id <- list_getitem t 0;;
  summary <- list_getitem t 1;;
  type <- list_getitem t 2;;
  Ok ({[ "id" := PStr id; "summary" := PStr summary; "type" := PStr type;
         "url" := PStr (TRAC_BUILDBOT_TICKET_URL id) ]} : record).

Fixpoint tickets_of_rows (tickets : list (list string)) : res (list record) :=
  match tickets with
  | [] => Ok []
  | t :: ts =>
      x <- ticket_of_row t;;
      xs <- tickets_of_rows ts;;
      Ok (x :: xs)
  end.

(** [format_trac_tickets(what, body)]. The argument [body] stands for the
    rows that [csv.reader(body.splitlines(), delimiter='\t')] yields; the
    first one is the header that [next(tickets)] skips. *)
Definition format_trac_tickets (what : string) (body : list (list string))
    : res (string * list record) :=
  match body with
  | [] => Raise StopIteration
  | _ :: tickets =>
      summary <- tickets_of_rows tickets;;
      Ok (what, summary)
  end.

(** Failures that travel along a Deferred. *)
Inductive failure : Set :=
  | RequestFailed (reason : string)
  | Raised (e : exc)
  | FirstError.

(** One entry [(success, value)] of the list a [DeferredList] fires with. *)
Inductive dl_entry (A : Type) : Type :=
  | Succeeded (value : A)
  | Failed (f : failure).
Arguments Succeeded {A} value.
Arguments Failed {A} f.

Definition each_type : record := {[ "Opened" := PInt 0; "Closed" := PInt 0 ]}.

(** The initial [ticket_summary] of lines 96-99. *)
Definition ticket_summary0 : table :=
  {[ PStr "Enhancements" := each_type; PStr "Defects" := each_type;
     PStr "Tasks" := each_type; PStr "Regressions" := each_type;
     PStr "Undecideds" := each_type; PStr "Other" := each_type;
     PStr "Total" := each_type ]}.

(** [ticket_summary[category][what] += 1] *)
Definition increment (ticket_summary : table) (category what : string) : res table :=
  row <- getitem ticket_summary (PStr category);;
  n <- getitem row what;;
  match n with
  | PInt z => Ok (<[PStr category := <[what := PInt (z + 1)]> row]> ticket_summary)
  | _ => Raise TypeError
  end.

(** [d[len(d)] = x] *)
Definition append_item {V} (d : gmap pyval V) (x : V) : gmap pyval V :=
  <[PInt (Z.of_nat (size d)) := x]> d.

(** The three dictionaries that the loop of lines 102-116 updates. *)
Record tally : Type := Tally {
  ticket_summary : table;
  opened : table;
  closed : table
}.

Definition tally0 : tally := Tally ticket_summary0 ∅ ∅.

(** Lines 107-116: one ticket of a fetch labelled [what]. *)
Definition count_ticket (what : string) (st : tally) (t : record) : res tally :=
  type <- getitem t "type";;
  match type with
  | PStr ty =>
      let Type_ := capitalize ty +:+ "s" in
      summary1 <- (if decide (is_Some (ticket_summary st !! PStr Type_))
                   then increment (ticket_summary st) Type_ what
                   else increment (ticket_summary st) "Other" what);;
      summary2 <- increment summary1 "Total" what;;
      if decide (what = "Opened")
      then Ok (Tally summary2 (append_item (opened st) t) (closed st))
      else if decide (what = "Closed")
      then Ok (Tally summary2 (opened st) (append_item (closed st) t))
      else Ok (Tally summary2 (opened st) (closed st))
  | _ => Raise AttributeError
  end.

Fixpoint count_tickets (what : string) (st : tally) (tickets : list record) : res tally :=
  match tickets with
  | [] => Ok st
  | t :: ts =>
      st' <- count_ticket what st t;;
      count_tickets what st' ts
  end.

(** Lines 102-116: the loop over the fetch results; failed ones are skipped. *)
Fixpoint count_results (st : tally) (results : list (dl_entry (string * list record)))
    : res tally :=
  match results with
  | [] => Ok st
  | Failed _ :: rest => count_results st rest
  | Succeeded (what, tickets) :: rest =>
      st' <- count_tickets what st tickets;;
      count_results st' rest
  end.

(** [lambda c, size, header: c.ljust(size) if header else None] *)
Definition bug_list_formatter : formatter := λ c size header,
  if truthy header
  then (s <- ljust_method c size;; Ok (Some s))
  else Ok None.

(** [summarize_trac_tickets(results)] *)
Definition summarize_trac_tickets (results : list (dl_entry (string * list record)))
    : res (string * string) :=
  let col_padding := 2%Z in
  st <- count_results tally0 results;;
  let row_order := PStr <$> ["Enhancements"; "Defects"; "Regressions"; "Tasks";
                             "Undecideds"; "Other"; "Total"] in
  let col_order := ["Opened"; "Closed"] in
  ticket_table <- tablify_dict (ticket_summary st) true None (Some row_order)
                    (Some col_order) col_padding;;
  let ticket_overview :=
    join nl ["Ticket Summary"; repeat_char "-" 14; ticket_table] in
  let col_order := ["id"; "type"; "summary"; "url"] in
  opened_table <- tablify_dict (opened st) false (Some bug_list_formatter) None
                    (Some col_order) col_padding;;
  let opened_overview :=
    join nl ["New/Reopened Tickets"; repeat_char "-" 20; opened_table] in
  closed_table <- tablify_dict (closed st) false (Some bug_list_formatter) None
                    (Some col_order) col_padding;;
  let closed_overview :=
    join nl ["Closed Tickets"; repeat_char "-" 14; closed_table] in
  let trac_summary := [ticket_overview; opened_overview; closed_overview] in
  Ok ("trac", join (nl +:+ nl) trac_summary).

(** ** Deferreds

    A Deferred is represented by the result it ends with. The response of
    [agent.request] followed by [readBody] is one such result. *)
Inductive outcome (A : Type) : Type :=
  | Success (value : A)
  | Failure (f : failure).
Arguments Success {A} value.
Arguments Failure {A} f.

(** [d.addCallback(f)]: [f] runs on a success only, and an exception raised
    by [f] becomes the failure of the chain. *)
Definition addCallback {A B} (d : outcome A) (f : A → res B) : outcome B :=
  match d with
  | Success v =>
      match f v with
      | Ok b => Success b
      | Raise e => Failure (Raised e)
      end
  | Failure f => Failure f
  end.

Definition entry_of {A} (d : outcome A) : dl_entry A :=
  match d with
  | Success v => Succeeded v
  | Failure f => Failed f
  end.

Definition failed {A} (d : outcome A) : bool :=
  match d with
  | Success _ => false
  | Failure _ => true
  end.

(** [defer.DeferredList(ds, fireOnOneErrback=..., consumeErrors=True)]: with
    [fireOnOneErrback] the list fails as soon as one member fails, with a
    [FirstError]; without it the list always fires with one entry per member. *)
Definition DeferredList {A} (ds : list (outcome A)) (fireOnOneErrback : bool)
    : outcome (list (dl_entry A)) :=
  if fireOnOneErrback && existsb failed ds
  then Failure FirstError
  else Success (entry_of <$> ds).

(** [get_trac_tickets(start_day, end_day)], given how the two requests
    (new or reopened, then closed) end. The dates only go into the URLs. *)
Definition get_trac_tickets (new_response closed_response : outcome (list (list string)))
    : outcome (string * string) :=
  let d1 := addCallback new_response (format_trac_tickets "Opened") in
  let d2 := addCallback closed_response (format_trac_tickets "Closed") in
  let fetches := [d1; d2] in
  let dl := DeferredList fetches true in
  addCallback dl summarize_trac_tickets.

(** ** Dates and [datetime.strptime]

    The standard library's parser, for the one format the program uses,
    ['%Y-%m-%dT%H:%M:%SZ']. The format is compiled to the regular expression
    [(\d\d\d\d)-(1[0-2]|0[1-9]|[1-9])-(3[0-1]|[1-2]\d|0[1-9]|[1-9]| [1-9])T
     (2[0-3]|[0-1]\d|\d):([0-5]\d|\d):(6[0-1]|[0-5]\d|\d)Z], matched without
    regard to case against the whole string; the fields then go through the
    range checks of the [datetime] constructor. *)

Record date : Set := Date { year : Z; month : Z; day : Z }.

Record datetime : Set := Datetime {
  dt_date : date;   (* [.date()] *)
  hour : Z;
  minute : Z;
  second : Z
}.

(** [a < b] on dates *)
Definition date_ltb (a b : date) : bool :=
  (year a <? year b)%Z
  || ((year a =? year b)%Z
      && ((month a <? month b)%Z
          || ((month a =? month b)%Z && (day a <? day b)%Z))).

Definition is_leap (y : Z) : bool :=
  ((y mod 4 =? 0) && (negb (y mod 100 =? 0) || (y mod 400 =? 0)))%Z.

Definition days_in_month (y m : Z) : Z :=
  if (m =? 2)%Z then (if is_leap y then 29 else 28)%Z
  else if ((m =? 4) || (m =? 6) || (m =? 9) || (m =? 11))%Z then 30%Z
  else 31%Z.

Definition is_digit (c : ascii) : bool :=
  let n := nat_of_ascii c in (48 <=? n)%nat && (n <=? 57)%nat.

Definition digit (c : ascii) : Z := Z.of_nat (nat_of_ascii c) - 48.

Definition in_range (lo hi : ascii) (c : ascii) : bool :=
  (nat_of_ascii lo <=? nat_of_ascii c)%nat && (nat_of_ascii c <=? nat_of_ascii hi)%nat.

(** The characters before the first one that [stop] accepts, and what
    follows that character. *)
Fixpoint until (stop : ascii → bool) (s : string) : option (list ascii * string) :=
  match s with
  | "" => None
  | String c s' =>
      if stop c then Some ([], s')
      else match until stop s' with
           | Some (f, rest) => Some (c :: f, rest)
           | None => None
           end
  end.

Definition is_char (c : ascii) : ascii → bool := λ x, bool_decide (x = c).
Definition is_letter (lo up : ascii) : ascii → bool :=
  λ x, bool_decide (x = lo) || bool_decide (x = up).

Definition field_Y (f : list ascii) : option Z :=
  match f with
  | [a; b; c; d] =>
      if is_digit a && is_digit b && is_digit c && is_digit d
      then Some (digit a * 1000 + digit b * 100 + digit c * 10 + digit d)%Z
      else None
  | _ => None
  end.

Definition two (a b : ascii) : Z := (digit a * 10 + digit b)%Z.

Definition field_m (f : list ascii) : option Z :=
  match f with
  | [a; b] =>
      if (is_char "1" a && in_range "0" "2" b) || (is_char "0" a && in_range "1" "9" b)
      then Some (two a b) else None
  | [a] => if in_range "1" "9" a then Some (digit a) else None
  | _ => None
  end.

Definition field_d (f : list ascii) : option Z :=
  match f with
  | [a; b] =>
      if (is_char "3" a && in_range "0" "1" b) || (in_range "1" "2" a && is_digit b)
         || (is_char "0" a && in_range "1" "9" b)
      then Some (two a b)
      else if is_char " " a && in_range "1" "9" b then Some (digit b)
      else None
  | [a] => if in_range "1" "9" a then Some (digit a) else None
  | _ => None
  end.

Definition field_H (f : list ascii) : option Z :=
  match f with
  | [a; b] =>
      if (is_char "2" a && in_range "0" "3" b) || (in_range "0" "1" a && is_digit b)
      then Some (two a b) else None
  | [a] => if is_digit a then Some (digit a) else None
  | _ => None
  end.

Definition field_M (f : list ascii) : option Z :=
  match f with
  | [a; b] => if in_range "0" "5" a && is_digit b then Some (two a b) else None
  | [a] => if is_digit a then Some (digit a) else None
  | _ => None
  end.

Definition field_S (f : list ascii) : option Z :=
  match f with
  | [a; b] =>
      if (is_char "6" a && in_range "0" "1" b) || (in_range "0" "5" a && is_digit b)
      then Some (two a b) else None
  | [a] => if is_digit a then Some (digit a) else None
  | _ => None
  end.

(** The match of the regular expression: six fields, if any. *)
Definition match_gh_time (s : string) : option (Z * Z * Z * Z * Z * Z) :=
  '(fY, s1) ← until (is_char "-") s;
  '(fm, s2) ← until (is_char "-") s1;
  '(fd, s3) ← until (is_letter "t" "T") s2;
  '(fH, s4) ← until (is_char ":") s3;
  '(fM, s5) ← until (is_char ":") s4;
  '(fS, s6) ← until (is_letter "z" "Z") s5;
  Y ← field_Y fY; m ← field_m fm; d ← field_d fd;
  H ← field_H fH; M ← field_M fM; Sec ← field_S fS;
  if decide (s6 = "") then Some (Y, m, d, H, M, Sec) else None.

(** [datetime.strptime(s, '%Y-%m-%dT%H:%M:%SZ')] *)
Definition strptime (s : string) : res datetime :=
  match match_gh_time s with
  | Some (Y, m, d, H, M, Sec) =>
      if ((1 <=? Y) && (d <=? days_in_month Y m) && (Sec <=? 59))%Z
      then Ok (Datetime (Date Y m d) H M Sec)
      else Raise ValueError
  | None => Raise ValueError
  end.

(** ** JSON values

    [json.loads] gives unicode strings, for the values and for the keys of
    the objects. The program reads the objects with byte-string literals
    ([pr['state']]), which find the unicode key of the same characters, so
    the keys are kept as strings. The values here are the nulls, the
    integers and the strings, which is what the fields that the program
    reads hold. *)

(** A unicode string: its code points. *)
Definition ustring : Set := list N.

(** The unicode string with the characters of an ASCII byte string: the
    literal [u'...'], and what a comparison decodes a byte string to. *)
Definition unicode (s : string) : ustring := N_of_ascii <$> list_ascii_of_string s.

(** [u.encode('ascii')], the implicit conversion of unicode to [str] *)
Definition encode (u : ustring) : res string :=
  if forallb (λ n, n <? 128)%N u
  then Ok (string_of_list_ascii (ascii_of_N <$> u))
  else Raise UnicodeEncodeError.

Inductive jval : Set :=
  | JNull
  | JInt (z : Z)
  | JStr (u : ustring).

Global Instance jval_eq_dec : EqDecision jval.
Proof. solve_decision. Defined.

(** [str(v)]: a unicode string is encoded, which fails outside ASCII. *)
Global Instance jval_printable : Printable jval := λ v,
  match v with
  | JNull => Ok "None"
  | JInt z => Ok (NilZero.string_of_int (Z.to_int z))
  | JStr u => encode u
  end.

Abbreviation json_record := (gmap string jval).
Abbreviation json_table := (gmap pyval (gmap string jval)).

(** The conversion of the first argument of [datetime.strptime] to a C
    string: a unicode string is encoded with the default codec, a string
    with a null byte is refused, and so is what is not a string. *)
Definition c_string (v : jval) : res string :=
  match v with
  | JStr u =>
      text <- encode u;;
      if bool_decide (zero ∈ list_ascii_of_string text) then Raise TypeError else Ok text
  | _ => Raise TypeError
  end.

(** [datetime.strptime(v, gh_time_format)] *)
Definition datetime_strptime (v : jval) : res datetime :=
  text <- c_string v;;
  strptime text.

(** ** The pull-request summary: [get_github_prs] *)

(** Lines 195-201 for one entry [(_, state, when, pr_dict)] of [categories];
    [pr['state'] == state] compares a JSON value with a byte-string literal. *)
Definition classify (start_day end_day : date) (state when : string) (pr : json_record)
    (pr_dict : json_table) : res json_table :=
  st <- getitem pr "state";;
  if decide (st = JStr (unicode state)) then
    w <- getitem pr when;;
    match w with
    | JNull => Ok pr_dict
    | _ =>
        happened <- datetime_strptime w;;
        if date_ltb (dt_date happened) start_day || date_ltb end_day (dt_date happened)
        then Ok pr_dict
        else Ok (append_item pr_dict pr)
    end
  else Ok pr_dict.

(** Lines 187-201: the loop over the response; the inner loop runs over the
    two entries of [categories], whose dictionaries are the components of
    the pair. *)
Fixpoint classify_all (start_day end_day : date) (body : list json_record)
    (prs : json_table * json_table) : res (json_table * json_table) :=
  match body with
  | [] => Ok prs
  | pr :: rest =>
      opened_prs <- classify start_day end_day "open" "created_at" pr prs.1;;
      closed_prs <- classify start_day end_day "closed" "closed_at" pr prs.2;;
      classify_all start_day end_day rest (opened_prs, closed_prs)
  end.

(** [lambda a, b: cmp(b, a)] *)
Definition descending (a b : pyval) : comparison := cmp b a.

(** The table call of lines 209-212. *)
Definition pr_table (pr_dict : json_table) : res string :=
  tablify_dict pr_dict false (Some bug_list_formatter)
    (Some (sorted descending (keys pr_dict)))
    (Some ["number"; "title"; "html_url"]) 2.

(** Lines 206-213 for one entry [(what, _, _, pr_dict)] of [categories]. *)
Definition overview (what : string) (pr_dict : json_table) : res string :=
  let title := what +:+ " Pull Requests" in
  let title_h2 := repeat_char "-" (len title) in
  table <- pr_table pr_dict;;
  Ok (join nl [title; title_h2; table]).

(** [summarize_github_prs(what, body_json)]; [body] is what
    [json.loads(body_json)] returns, a list of objects. *)
Definition summarize_github_prs (start_day end_day : date) (what : string)
    (body : list json_record) : res (string * string) :=
  prs <- classify_all start_day end_day body (∅, ∅);;
  o1 <- overview "Opened" prs.1;;
  o2 <- overview "Completed" prs.2;;
  let overviews := [o1; o2] in
  Ok ("github", join (nl +:+ nl) overviews).

(** [get_github_prs(start_day, end_day)], given how the request ends. *)
Definition get_github_prs (start_day end_day : date)
    (response : outcome (list json_record)) : outcome (string * string) :=
  addCallback response (summarize_github_prs start_day end_day "Github").

(** ** The report: [summary] and [main] *)

(** [message % message_parts]: both keys are looked up. *)
Definition message (message_parts : gmap string string) : res string :=
  trac <- getitem message_parts "trac";;
  github <- getitem message_parts "github";;
  Ok ("Trac Tickets" +:+ nl +:+ "============" +:+ nl +:+ trac +:+ nl
      +:+ nl +:+ nl
      +:+ "GitHub Pull Requests" +:+ nl +:+ "====================" +:+ nl +:+ github).

(** Lines 235-240: the parts of the pipelines that succeeded. *)
Fixpoint collect_parts (results : list (dl_entry (string * string)))
    (message_parts : gmap string string) : gmap string string :=
  match results with
  | [] => message_parts
  | Failed _ :: rest => collect_parts rest message_parts
  | Succeeded (part, msg) :: rest => collect_parts rest (<[part := msg]> message_parts)
  end.

(** What the process has done so far. *)
Record world : Type := World {
  stdout : list string;       (* what [print] wrote *)
  errlog : list failure;      (* what [log.err] wrote *)
  reactor_stopped : bool      (* [reactor.stop()] was called *)
}.

Definition world0 : world := World [] [] false.

(** Callbacks with effects pass the world along. *)
Definition io (A : Type) : Type := world → res A * world.

Definition print (text : string) : io unit := λ w,
  (Ok tt, World (stdout w ++ [text]) (errlog w) (reactor_stopped w)).

Definition log_err (f : failure) : io unit := λ w,
  (Ok tt, World (stdout w) (errlog w ++ [f]) (reactor_stopped w)).

Definition reactor_stop : io unit := λ w,
  (Ok tt, World (stdout w) (errlog w) true).

(** [summary(results)] *)
Definition summary (results : list (dl_entry (string * string))) : io unit := λ w,
  match message (collect_parts results ∅) with
  | Ok text => print text w
  | Raise e => (Raise e, w)
  end.

Definition outcome_of {A} (r : res A) : outcome A :=
  match r with
  | Ok a => Success a
  | Raise e => Failure (Raised e)
  end.

(** [addCallback] and [addErrback] for callbacks with effects. *)
Definition addCallback_io {A B} (d : outcome A * world) (f : A → io B)
    : outcome B * world :=
  match d.1 with
  | Success v => let '(r, w) := f v d.2 in (outcome_of r, w)
  | Failure x => (Failure x, d.2)
  end.

Definition addErrback_io {A} (d : outcome A * world) (f : failure → io A)
    : outcome A * world :=
  match d.1 with
  | Success v => (Success v, d.2)
  | Failure x => let '(r, w) := f x d.2 in (outcome_of r, w)
  end.

(** [main()], given how the two pipelines end; the result is the world
    when [reactor.run()] returns. The window comes from the clock and only
    reaches the pipelines. *)
Definition main (trac github : outcome (string * string)) : world :=
  let dl := (DeferredList [trac; github] true, world0) in
  let dl := addCallback_io dl summary in
  let dl := addErrback_io dl log_err in
  let dl := addCallback_io dl (λ _, reactor_stop) in
  dl.2.

(** The whole program, from the three responses. *)
Definition run (start_day end_day : date)
    (new_response closed_response : outcome (list (list string)))
    (github_response : outcome (list json_record)) : world :=
  main (get_trac_tickets new_response closed_response)
       (get_github_prs start_day end_day github_response).

(** ** Notions used to state the properties *)

(** What the default formatter makes of [text] in the column labelled [c]. *)
Definition default_cell (c text : string) (w : nat) : option string :=
  Some (if truthy c then rjust text w else ljust text w).

(** The text of the cell at row [r] and column [c] (empty when absent). *)
Definition cell_text (d : table) (r : pyval) (c : string) : string :=
  match d !! r with
  | Some row => match row !! c with Some v => str v | None => "" end
  | None => ""
  end.

(** The widest text of a column, its label included, and of the row keys. *)
Definition width_of (d : table) (rows : list pyval) (c : string) : nat :=
  foldl (λ w r, max w (len (cell_text d r c))) (len c) rows.

Definition key_width (rows : list pyval) : nat :=
  foldl (λ w r, max w (len (str r))) 0 rows.

(** The table as the specification words it: a blank corner as wide as the
    row keys, labels and data flushed right, row keys flushed left. *)
Definition aligned_header (d : table) (rows : list pyval) (cols : list string)
    (padding : string) : string :=
  join padding (spaces (key_width rows) :: ((λ c, rjust c (width_of d rows c)) <$> cols)).

Definition aligned_row (d : table) (rows : list pyval) (cols : list string)
    (padding : string) (r : pyval) : string :=
  join padding (ljust (str r) (key_width rows)
                :: ((λ c, rjust (cell_text d r c) (width_of d rows c)) <$> cols)).

Definition aligned_table (d : table) (rows : list pyval) (cols : list string)
    (padding : string) : string :=
  join nl (aligned_header d rows cols padding :: (aligned_row d rows cols padding <$> rows)).

(** A string without a line break. *)
Definition nl_free (s : string) : Prop := newline ∉ list_ascii_of_string s.

Definition nl_free_val (v : pyval) : Prop :=
  match v with
  | PStr s => nl_free s
  | _ => True
  end.

(** A formatter that puts no line break into a cell that had none. *)
Definition keeps_lines (f : formatter) : Prop :=
  ∀ c size header s, nl_free_val c → f c size header = Ok (Some s) → nl_free s.

(** No label, row key or cell text of the table has a line break. *)
Definition cells_nl_free (d : table) (rows : list pyval) (cols : list string) : Prop :=
  Forall nl_free cols ∧ Forall nl_free_val rows ∧
  Forall (λ r, Forall (λ c, nl_free (cell_text d r c)) cols) rows.

Global Instance nl_free_dec (s : string) : Decision (nl_free s).
Proof. unfold nl_free. apply _. Defined.

Global Instance nl_free_val_dec (v : pyval) : Decision (nl_free_val v).
Proof. destruct v; simpl; apply _. Defined.

Global Instance cells_nl_free_dec d rows cols : Decision (cells_nl_free d rows cols).
Proof. unfold cells_nl_free. apply _. Defined.

(** The count of a category in a ticket summary. *)
Definition count (ticket_summary : table) (category what : string) : option Z :=
  row ← ticket_summary !! PStr category;
  v ← row !! what;
  match v with
  | PInt z => Some z
  | _ => None
  end.

Definition six_categories : list string :=
  ["Enhancements"; "Defects"; "Tasks"; "Regressions"; "Undecideds"; "Other"].

(** The sum of the counts of the six categories. *)
Definition sum_over (f : string → option Z) (l : list string) : option Z :=
  foldr (λ category acc, n ← f category; s ← acc; Some (n + s)%Z) (Some 0%Z) l.

Definition categories_sum (ticket_summary : table) (what : string) : option Z :=
  sum_over (λ category, count ticket_summary category what) six_categories.

Definition seven_rows : list string := six_categories ++ ["Total"].

(** The counts of a ticket summary, row by row: [Opened], then [Closed]. *)
Definition counts_of (ticket_summary : table) : list (string * option Z * option Z) :=
  (λ category, (category, count ticket_summary category "Opened",
                          count ticket_summary category "Closed")) <$> seven_rows.

(** The result of a computation, seen through [f]. *)
Definition on_result {A B} (f : A → B) (r : res A) : res B :=
  match r with
  | Ok a => Ok (f a)
  | Raise e => Raise e
  end.

(** What the counting loop keeps true of the ticket summary: its keys are
    the seven rows, each holds the two counts, and the row [Total] holds
    the sum of the other six. *)
Definition summary_inv (ticket_summary : table) : Prop :=
  (∀ k, is_Some (ticket_summary !! k) ↔ k ∈ PStr <$> seven_rows) ∧
  (∀ category what, category ∈ seven_rows → what ∈ ["Opened"; "Closed"] →
                    is_Some (count ticket_summary category what)) ∧
  (∀ what, categories_sum ticket_summary what = count ticket_summary "Total" what).

(** The fetch results that [get_trac_tickets] produces: labelled [Opened] or
    [Closed], every ticket with a string under [type]. *)
Definition labelled (e : dl_entry (string * list record)) : Prop :=
  match e with
  | Failed _ => True
  | Succeeded (what, tickets) =>
      (what = "Opened" ∨ what = "Closed") ∧
      Forall (λ t : record, ∃ ty, t !! "type" = Some (PStr ty)) tickets
  end.

(** The bucket of a ticket type, as the specification words it. *)
Definition bucket (ty : string) : string :=
  let name := capitalize ty +:+ "s" in
  if decide (name ∈ six_categories) then name else "Other".

(** The dictionary that [d[len(d)] = x] builds from the items of a list. *)
Definition dict_of_list {V} (l : list V) : gmap pyval V := foldl append_item ∅ l.

(** The two predicates of the pull-request classification. *)
Definition in_window (start_day end_day : date) (field : option jval) : bool :=
  match field with
  | Some (JStr u) =>
      match datetime_strptime (JStr u) with
      | Ok happened =>
          negb (date_ltb (dt_date happened) start_day)
          && negb (date_ltb end_day (dt_date happened))
      | Raise _ => false
      end
  | _ => false
  end.

Definition is_opened (start_day end_day : date) (pr : json_record) : bool :=
  bool_decide (pr !! "state" = Some (JStr (unicode "open")))
  && in_window start_day end_day (pr !! "created_at").

Definition is_completed (start_day end_day : date) (pr : json_record) : bool :=
  bool_decide (pr !! "state" = Some (JStr (unicode "closed")))
  && in_window start_day end_day (pr !! "closed_at").

(** A record on which the classification does not raise. *)
Definition field_ok (field : option jval) : Prop :=
  field = Some JNull
  ∨ ∃ u happened, field = Some (JStr u) ∧ datetime_strptime (JStr u) = Ok happened.

Definition pr_ok (pr : json_record) : Prop :=
  ∃ st, pr !! "state" = Some st ∧
        (st = JStr (unicode "open") → field_ok (pr !! "created_at")) ∧
        (st = JStr (unicode "closed") → field_ok (pr !! "closed_at")).

(** The key that [d[len(d)] = x] uses for the item at position [i]. *)
Definition int_key (i : nat) : pyval := PInt (Z.of_nat i).

(** Sorting numbers from the largest down. *)
Definition downwards (a b : nat) : comparison := Nat.compare b a.

(** What [str] gives for a field of a record, when the field is there and
    [str] accepts it. *)
Definition printed (pr : json_record) (c : string) : option string :=
  v ← pr !! c;
  match str_of v with
  | Ok text => Some text
  | Raise _ => None
  end.

(** A record whose three columns can be shown: each is there, and is a
    null, a number or a string of ASCII characters. *)
Definition has_columns (pr : json_record) : Prop :=
  is_Some (printed pr "number") ∧ is_Some (printed pr "title")
  ∧ is_Some (printed pr "html_url").

(** The line of one pull request, given the widths of the three columns. *)
Definition pr_line (w : nat * nat * nat) (pr : json_record) : option string :=
  number ← printed pr "number";
  title ← printed pr "title";
  url ← printed pr "html_url";
  Some (join (spaces 2) [ljust number w.1.1; ljust title w.1.2; ljust url w.2]).

(** The table of [pr_dict] has one line per record of [records], in that
    order, and it is produced exactly when the three columns of the
    records can be shown. *)
Definition rendered_in_order (pr_dict : json_table) (records : list json_record) : Prop :=
  (∀ out, pr_table pr_dict = Ok out →
          ∃ w lines, out = join nl lines ∧
                     Forall2 (λ pr line, pr_line w pr = Some line) records lines) ∧
  ((∃ out, pr_table pr_dict = Ok out) ↔ Forall has_columns records).

(** ** Sample data *)

(** Three pull requests: opened in the window, closed in the window, and
    opened before it. *)
Definition pr_recent : json_record :=
  {[ "state" := JStr (unicode "open");
     "created_at" := JStr (unicode "2024-01-10T00:00:00Z");
     "closed_at" := JNull; "number" := JInt 7;
     "title" := JStr (unicode "Fix the build");
     "html_url" := JStr (unicode "https://github.com/buildbot/buildbot/pull/7") ]}.

Definition pr_merged : json_record :=
  {[ "state" := JStr (unicode "closed");
     "created_at" := JStr (unicode "2023-12-30T08:15:00Z");
     "closed_at" := JStr (unicode "2024-01-09T10:30:00Z"); "number" := JInt 5;
     "title" := JStr (unicode "Old work");
     "html_url" := JStr (unicode "https://github.com/buildbot/buildbot/pull/5") ]}.

Definition pr_stale : json_record :=
  {[ "state" := JStr (unicode "open");
     "created_at" := JStr (unicode "2024-01-01T00:00:00Z");
     "closed_at" := JNull; "number" := JInt 3;
     "title" := JStr (unicode "Stale");
     "html_url" := JStr (unicode "https://github.com/buildbot/buildbot/pull/3") ]}.

Definition pr_newer : json_record :=
  {[ "state" := JStr (unicode "open");
     "created_at" := JStr (unicode "2024-01-12T23:59:59Z");
     "closed_at" := JNull; "number" := JInt 11;
     "title" := JStr (unicode "Newer");
     "html_url" := JStr (unicode "https://github.com/buildbot/buildbot/pull/11") ]}.

Definition sample_prs : list json_record := [pr_recent; pr_merged; pr_stale; pr_newer].

(** A pull request in the window whose title is [Café]: the last letter
    has code point 233. *)
Definition pr_cafe : json_record :=
  {[ "state" := JStr (unicode "open");
     "created_at" := JStr (unicode "2024-01-10T00:00:00Z");
     "closed_at" := JNull; "number" := JInt 8;
     "title" := JStr [67; 97; 102; 233]%N;
     "html_url" := JStr (unicode "https://github.com/buildbot/buildbot/pull/8") ]}.


Definition sample_table : table :=
  {[ PStr "1000" := {[ "Opened" := PInt 12; "Closed" := PInt 3 ]};
     PStr "7" := {[ "Opened" := PInt 5; "Closed" := PInt 100 ]} ]}.

(** Three opened tickets: two defects and a task. *)
Definition ticket (id summary type : string) : record :=
  {[ "id" := PStr id; "summary" := PStr summary; "type" := PStr type;
     "url" := PStr (TRAC_BUILDBOT_TICKET_URL id) ]}.

Definition three_tickets : list (dl_entry (string * list record)) :=
  [Succeeded ("Opened", [ ticket "3301" "Crash on reconfig" "defect";
                          ticket "3305" "Wrong exit code" "defect";
                          ticket "3310" "Update the docs" "task" ])].

(** A tracker response: the header and one ticket. *)
Definition tracker_response : list (list string) :=
  [["id"; "summary"; "type"; "status"];
   ["3301"; "Crash on reconfig"; "defect"; "new"]].

(** A table with a column whose label is the empty string. *)
Definition blank_label_table : table :=
  {[ PStr "a" := {[ "" := PStr "x" ]}; PStr "b" := {[ "" := PStr "xyz" ]} ]}.

(** Row keys up to four characters and a column [Opened] with values up to
    two characters. *)
Definition scenario_table : table :=
  {[ PStr "1000" := {[ "Opened" := PInt 12 ]}; PStr "7" := {[ "Opened" := PInt 5 ]} ]}.

(** ** Notions for the further properties *)

(** A tracker response that [format_trac_tickets] accepts: a header, then
    rows of at least three fields. *)
Definition well_formed_body (body : list (list string)) : Prop :=
  ∃ header rows, body = header :: rows ∧ Forall (λ t : list string, 3 ≤ length t) rows.

(** The cell at row [r] and column [c], if both exist. *)
Definition cell {V} (d : gmap pyval (gmap string V)) (r : pyval) (c : string) : option V :=
  row ← d !! r; row !! c.

(** Every cell that the table of [rows] and [cols] shows is there. *)
Definition cells_exist {V} (d : gmap pyval (gmap string V)) (rows : list pyval)
    (cols : list string) : Prop :=
  ∀ r c, r ∈ rows → c ∈ cols → is_Some (cell d r c).

(** The length of a line of the table under the default formatter. *)
Definition line_width (d : table) (rows : list pyval) (cols : list string)
    (padding : nat) : nat :=
  key_width rows + sum_list ((λ c, padding + width_of d rows c) <$> cols).

(** The text of a field of a record (empty when absent). *)
Definition field_text (t : record) (c : string) : string :=
  match t !! c with
  | Some v => str v
  | None => ""
  end.

(** The tickets of the fetches labelled [what], in the order of the results. *)
Fixpoint tickets_labelled (what : string) (results : list (dl_entry (string * list record)))
    : list record :=
  match results with
  | [] => []
  | Failed _ :: rest => tickets_labelled what rest
  | Succeeded (label, tickets) :: rest =>
      (if decide (label = what) then tickets else []) ++ tickets_labelled what rest
  end.

(** The widest text of a field among the records of a list, the label of
    the column included. *)
Definition field_width (l : list record) (c : string) : nat :=
  foldl (λ w t, max w (len (field_text t c))) (len c) l.

(** The itemized list of the records of [l]: one line per record, the
    fields of [cols] flushed left in columns. *)
Definition itemized (l : list record) (cols : list string) (padding : string) : string :=
  join nl ((λ t, join padding ((λ c, ljust (field_text t c) (field_width l c)) <$> cols))
           <$> l).

(** The bucket of a ticket type, read off its lower-case form. *)
Definition bucket_of_lower (ty : string) : string :=
  if decide (ty = "enhancement") then "Enhancements"
  else if decide (ty = "defect") then "Defects"
  else if decide (ty = "task") then "Tasks"
  else if decide (ty = "regression") then "Regressions"
  else if decide (ty = "undecided") then "Undecideds"
  else "Other".

(** The dictionaries and the totals agree with the tickets seen so far. *)
Definition tally_agrees (st : tally) (lo lc : list record) : Prop :=
  summary_inv (ticket_summary st) ∧
  opened st = dict_of_list lo ∧
  closed st = dict_of_list lc ∧
  count (ticket_summary st) "Total" "Opened" = Some (Z.of_nat (length lo)) ∧
  count (ticket_summary st) "Total" "Closed" = Some (Z.of_nat (length lc)).

(** A ticket as [format_trac_tickets] builds it. *)
Definition ticket_like (t : record) : Prop :=
  ∃ id summary type, t = ticket id summary type.

(** Fetch results as the two callbacks of [get_trac_tickets] deliver them. *)
Definition fetched (e : dl_entry (string * list record)) : Prop :=
  match e with
  | Failed _ => True
  | Succeeded (what, tickets) =>
      (what = "Opened" ∨ what = "Closed") ∧ Forall ticket_like tickets
  end.

(** The message of the last successful result labelled [part], if any. *)
Fixpoint part_of (part : string) (results : list (dl_entry (string * string)))
    : option string :=
  match results with
  | [] => None
  | e :: rest =>
      match part_of part rest with
      | Some msg => Some msg
      | None =>
          match e with
          | Succeeded (p, msg) => if decide (p = part) then Some msg else None
          | Failed _ => None
          end
      end
  end.

(** The columns of the pull-request tables. *)
Definition pr_columns : list string := ["number"; "title"; "html_url"].

(** The text of a field of a pull request in the tables. *)
Definition pr_text (pr : json_record) (c : string) : string :=
  default "" (printed pr c).

(** The widest text of a field among the records of a list, the label of
    the column included. *)
Definition pr_width (l : list json_record) (c : string) : nat :=
  foldl (λ w pr, max w (len (pr_text pr c))) (len c) l.

(** The lines of a pull-request table for the records of [l], in that
    order: the three fields, each flushed left to the width of its column,
    two spaces apart. *)
Definition pr_listing (l : list json_record) : string :=
  join nl ((λ pr, join (spaces 2)
                    ((λ c, ljust (pr_text pr c) (pr_width l c)) <$> pr_columns))
           <$> l).

(** The fields of a record that can be shown, as the byte strings that
    [str] gives. *)
Definition texts (pr : json_record) : record :=
  omap (λ v, match str_of v with
             | Ok text => Some (PStr text)
             | Raise _ => None
             end) pr.

(** Sorting numbers from the smallest up. *)
Definition upwards (a b : nat) : comparison := Nat.compare a b.

(** * Properties *)

(** ** Strings *)

Lemma app_cons (c : ascii) (s t : string) : String c s +:+ t = String c (s +:+ t).
Proof. reflexivity. Qed.

Lemma app_empty_l (t : string) : "" +:+ t = t.
Proof. reflexivity. Qed.

Lemma list_ascii_app (a b : string) :
  list_ascii_of_string (a +:+ b) = (list_ascii_of_string a ++ list_ascii_of_string b)%list.
Proof. induction a as [|c a IH]; [done |]. rewrite app_cons. simpl. by f_equal. Qed.

Lemma len_list_ascii (s : string) : len s = length (list_ascii_of_string s).
Proof. unfold len. induction s as [|c s IH]; [done |]. cbn. by f_equal. Qed.

Lemma len_app (a b : string) : len (a +:+ b) = len a + len b.
Proof. by rewrite !len_list_ascii, list_ascii_app, length_app. Qed.

Lemma len_spaces (n : nat) : len (spaces n) = n.
Proof.
  unfold spaces. rewrite len_list_ascii, list_ascii_of_string_of_list_ascii.
  apply length_replicate.
Qed.

Lemma app_empty_r (s : string) : s +:+ "" = s.
Proof. induction s as [|c s IH]; [done |]. rewrite app_cons. by f_equal. Qed.

Lemma len_ljust (s : string) (w : nat) : len (ljust s w) = max (len s) w.
Proof. unfold ljust. rewrite len_app, len_spaces. lia. Qed.

Lemma len_rjust (s : string) (w : nat) : len (rjust s w) = max (len s) w.
Proof. unfold rjust. rewrite len_app, len_spaces. lia. Qed.

Lemma rjust_own_width (s : string) : rjust s (len s) = s.
Proof. unfold rjust. by rewrite Nat.sub_diag. Qed.

Lemma ljust_own_width (s : string) : ljust s (len s) = s.
Proof. unfold ljust. rewrite Nat.sub_diag. apply app_empty_r. Qed.

(** ** The report: fail-fast behaviour *)

Lemma DeferredList_one_failed {A} (ds : list (outcome A)) :
  existsb failed ds = true → DeferredList ds true = Failure FirstError.
Proof. intros H. unfold DeferredList. by rewrite H. Qed.

(** C3, as stated, fails: when the pull-request pipeline fails and the
    tracker pipeline succeeds, or the other way round, nothing is printed
    at all. *)
Lemma partial_report_refuted :
  stdout (run (Date 2024 1 8) (Date 2024 1 14)
            (Success tracker_response) (Success tracker_response)
            (Failure (RequestFailed "timeout"))) = [] ∧
  stdout (run (Date 2024 1 8) (Date 2024 1 14)
            (Failure (RequestFailed "timeout")) (Success tracker_response)
            (Success sample_prs)) = [].
Proof. split; by vm_compute. Qed.

(** C3 (amended): when a top-level pipeline fails, the [DeferredList] of
    [main] fails at once: [summary] does not run, nothing is printed, the
    failure is logged and the reactor is stopped. A report is printed when
    both pipelines succeed, and it holds both sections. *)
Theorem main_fails_fast (trac github : outcome (string * string)) :
  (failed trac || failed github = true →
     main trac github = World [] [FirstError] true) ∧
  (∀ t g, trac = Success ("trac", t) → github = Success ("github", g) →
     ∃ report, message {[ "trac" := t; "github" := g ]} = Ok report ∧
               main trac github = World [report] [] true).
Proof.
  split.
  - intros H. unfold main.
    rewrite DeferredList_one_failed; [done |].
    simpl. by rewrite orb_false_r.
  - intros t g -> ->. eexists. split; [reflexivity |]. reflexivity.
Qed.

Lemma main_fails_fast_witness :
  main (Failure (RequestFailed "timeout")) (Success ("github", "Opened Pull Requests"))
  = World [] [FirstError] true.
Proof.
  apply (proj1 (main_fails_fast (Failure (RequestFailed "timeout"))
                                (Success ("github", "Opened Pull Requests")))).
  reflexivity.
Defined.

Lemma count_results_skips_failed st pre f post :
  count_results st (pre ++ Failed f :: post) = count_results st (pre ++ post).
Proof.
  revert st. induction pre as [|[[what tickets]|g] pre IH]; intros st; simpl; [done | | done].
  destruct (count_tickets what st tickets); simpl; [apply IH | done].
Qed.

(** C4, as stated, fails: with the first request failed and the second one
    succeeded, the tracker pipeline fails and gives no summary. *)
Lemma surviving_branch_refuted :
  get_trac_tickets (Failure (RequestFailed "timeout")) (Success tracker_response)
  = Failure FirstError.
Proof. reflexivity. Qed.

(** C4 (amended): if either request of the tracker pipeline fails, its
    [DeferredList] fails at once, [summarize_trac_tickets] does not run and
    the pipeline fails; when both requests succeed and parse, the summary
    is computed from both. [summarize_trac_tickets] itself skips a failed
    entry of the list it is given. *)
Theorem tracker_fails_fast (new_response closed_response : outcome (list (list string))) :
  (failed new_response || failed closed_response = true →
     get_trac_tickets new_response closed_response = Failure FirstError) ∧
  (∀ a b x y, new_response = Success a → closed_response = Success b →
     format_trac_tickets "Opened" a = Ok x → format_trac_tickets "Closed" b = Ok y →
     get_trac_tickets new_response closed_response
     = outcome_of (summarize_trac_tickets [Succeeded x; Succeeded y])) ∧
  (∀ pre f post,
     summarize_trac_tickets (pre ++ Failed f :: post) = summarize_trac_tickets (pre ++ post)).
Proof.
  split; [| split].
  - intros H. unfold get_trac_tickets.
    rewrite DeferredList_one_failed; [done |].
    destruct new_response, closed_response; simpl in *; try done;
      rewrite ?orb_true_r; done.
  - intros a b x y -> -> Hx Hy. unfold get_trac_tickets. simpl.
    rewrite Hx, Hy. simpl. by destruct (summarize_trac_tickets _).
  - intros pre f post. unfold summarize_trac_tickets.
    by rewrite count_results_skips_failed.
Qed.

Lemma tracker_fails_fast_witness :
  get_trac_tickets (Failure (RequestFailed "timeout"))
    (Success [["id"; "summary"; "type"; "status"]])
  = Failure FirstError.
Proof.
  apply (proj1 (tracker_fails_fast (Failure (RequestFailed "timeout"))
                  (Success [["id"; "summary"; "type"; "status"]]))).
  reflexivity.
Defined.

(** ** The table renderer: the widths *)

Lemma bind_Ok {A B} (m : res A) (k : A → res B) (b : B) :
  bind m k = Ok b → ∃ a, m = Ok a ∧ k a = Ok b.
Proof. destruct m as [a|e]; simpl; [eauto | done]. Qed.

(** A closed, decidable statement, settled by evaluating its decision. *)
Ltac by_evaluation := apply (bool_decide_unpack _); vm_compute; exact I.

(** [unbind H as x Hx] splits a successful sequence [H] into its first step,
    with result [x], and the rest. *)
Tactic Notation "unbind" hyp(H) "as" ident(x) ident(Hx) :=
  apply bind_Ok in H as (x & Hx & H).

Lemma getitem_Ok `{Countable K} {V} (d : gmap K V) (k : K) (v : V) :
  getitem d k = Ok v ↔ d !! k = Some v.
Proof. unfold getitem. destruct (d !! k); naive_solver. Qed.

Lemma list_getitem_Ok {A} (l : list A) (i : nat) (x : A) :
  list_getitem l i = Ok x ↔ l !! i = Some x.
Proof. unfold list_getitem. destruct (l !! i); naive_solver. Qed.

Lemma list_getitem_middle {A} (l1 l2 : list A) (x : A) :
  list_getitem (l1 ++ x :: l2) (length l1) = Ok x.
Proof. apply list_getitem_Ok. by apply list_lookup_middle. Qed.

Lemma list_setitem_middle {A} (l1 l2 : list A) (x y : A) :
  list_setitem (l1 ++ x :: l2) (length l1) y = Ok (l1 ++ y :: l2).
Proof.
  unfold list_setitem. rewrite decide_True.
  - f_equal. rewrite insert_app_r_alt by lia. by rewrite Nat.sub_diag.
  - rewrite length_app. simpl. lia.
Qed.

Lemma index_neg1_snoc {A} (l : list A) (x : A) :
  index_neg1 (l ++ [x]) = Ok (length l).
Proof. unfold index_neg1. rewrite length_app. simpl. by rewrite Nat.add_1_r. Qed.

Lemma cell_text_lookup (d : table) (r : pyval) (c : string) (row : record) (v : pyval) :
  d !! r = Some row → row !! c = Some v → cell_text d r c = str v.
Proof. intros Hr Hc. unfold cell_text. by rewrite Hr, Hc. Qed.

Lemma measure_cols_spec (d : table) (r : pyval) (cols : list string) :
  ∀ (pre ws : list nat) (k : nat) (ws' : list nat),
    length ws = length cols →
    measure_cols d r cols (length pre) (pre ++ ws ++ [k]) = Ok ws' →
    ws' = (pre ++ zip_with (λ c w, max w (len (cell_text d r c))) cols ws ++ [k])%list ∧
    ∀ c, c ∈ cols → ∃ row v, d !! r = Some row ∧ row !! c = Some v.
Proof.
  induction cols as [|c cs IH]; intros pre ws k ws' Hlen Hm.
  - destruct ws; [| done]. simpl in Hm. injection Hm as <-.
    split; [done |]. intros c Hc. by apply elem_of_nil in Hc.
  - destruct ws as [|w ws]; [done |]. simpl in Hlen. injection Hlen as Hlen.
    simpl in Hm. rewrite list_getitem_middle in Hm. simpl in Hm.
    apply bind_Ok in Hm as (row & Hrow & Hm). apply getitem_Ok in Hrow.
    apply bind_Ok in Hm as (v & Hv & Hm). apply getitem_Ok in Hv.
    rewrite list_setitem_middle in Hm. simpl in Hm.
    specialize (IH (pre ++ [max w (len (str v))]) ws k ws' Hlen).
    rewrite length_app in IH. simpl in IH. rewrite Nat.add_1_r in IH.
    rewrite <- app_assoc in IH. simpl in IH.
    destruct (IH Hm) as [-> Hall]. split.
    + rewrite <- app_assoc. simpl. by rewrite (cell_text_lookup d r c row v).
    + intros c' [-> | Hc']%elem_of_cons; eauto.
Qed.

Lemma measure_rows_spec (d : table) (cols : list string) (rows : list pyval) :
  ∀ (ws : list nat) (k : nat) (ws' : list nat),
    length ws = length cols →
    measure_rows d rows cols (ws ++ [k]) = Ok ws' →
    ws' = (zip_with (λ c w, foldl (λ w r, max w (len (cell_text d r c))) w rows) cols ws
           ++ [foldl (λ w r, max w (len (str r))) k rows])%list ∧
    ∀ r c, r ∈ rows → c ∈ cols → ∃ row v, d !! r = Some row ∧ row !! c = Some v.
Proof.
  induction rows as [|r rs IH]; intros ws k ws' Hlen Hm.
  - simpl in Hm. injection Hm as <-. split.
    + f_equal. clear k. revert ws Hlen.
      induction cols as [|c cs IHc]; intros [|w ws] Hlen; try done.
      simpl. f_equal. apply IHc. by injection Hlen.
    + intros r c Hr. by apply elem_of_nil in Hr.
  - simpl in Hm. rewrite index_neg1_snoc in Hm. simpl in Hm.
    rewrite list_getitem_middle in Hm. simpl in Hm.
    rewrite list_setitem_middle in Hm. simpl in Hm.
    apply bind_Ok in Hm as (ws2 & Hcols & Hm).
    apply (measure_cols_spec d r cols [] ws) in Hcols as [-> Hrow]; [| done].
    simpl in Hm. apply IH in Hm as [-> Hall].
    2:{ rewrite length_zip_with. lia. }
    split.
    + f_equal. clear. revert ws.
      induction cols as [|c cs IHc]; intros [|w ws]; try done.
      simpl. f_equal. apply IHc.
    + intros r' c [-> | Hr']%elem_of_cons Hc; eauto.
Qed.

Lemma measure_spec (d : table) (rows : list pyval) (cols : list string) (ws : list nat) :
  measure d rows cols = Ok ws →
  ws = ((width_of d rows <$> cols) ++ [key_width rows])%list ∧
  ∀ r c, r ∈ rows → c ∈ cols → ∃ row v, d !! r = Some row ∧ row !! c = Some v.
Proof.
  intros Hm. unfold measure in Hm.
  apply measure_rows_spec in Hm as [-> Hall]; [| by rewrite length_fmap].
  split; [| done]. f_equal. unfold width_of. clear.
  induction cols as [|c cs IH]; [done |]. rewrite !fmap_cons. simpl. by rewrite IH.
Qed.

Lemma measure_cols_total (d : table) (r : pyval) (row : record) (cols : list string) :
  d !! r = Some row → (∀ c, c ∈ cols → is_Some (row !! c)) →
  ∀ (pre ws : list nat) (k : nat),
    length ws = length cols →
    ∃ ws', measure_cols d r cols (length pre) (pre ++ ws ++ [k]) = Ok ws'.
Proof.
  intros Hrow. induction cols as [|c cs IH]; intros Hcols pre ws k Hlen; simpl; [eauto |].
  destruct ws as [|w ws]; [done |]. simpl in Hlen. injection Hlen as Hlen.
  destruct (Hcols c) as [v Hv]; [by left |].
  simpl. rewrite list_getitem_middle. cbn [bind].
  unfold getitem at 1. rewrite Hrow. cbn [bind].
  unfold getitem at 1. rewrite Hv. cbn [bind].
  rewrite list_setitem_middle. cbn [bind].
  destruct (IH (λ c' Hc', Hcols c' (list_elem_of_further _ _ _ Hc'))
               (pre ++ [max w (len (str v))]) ws k Hlen) as [ws' Hws'].
  rewrite length_app in Hws'. simpl in Hws'. rewrite Nat.add_1_r in Hws'.
  rewrite <- app_assoc in Hws'. simpl in Hws'. eauto.
Qed.

Lemma measure_rows_total (d : table) (cols : list string) (rows : list pyval) :
  (∀ r, r ∈ rows → ∃ row, d !! r = Some row ∧ ∀ c, c ∈ cols → is_Some (row !! c)) →
  ∀ (ws : list nat) (k : nat),
    length ws = length cols →
    ∃ ws', measure_rows d rows cols (ws ++ [k]) = Ok ws'.
Proof.
  induction rows as [|r rs IH]; intros Hrows ws k Hlen; simpl; [eauto |].
  rewrite index_neg1_snoc. cbn [bind].
  rewrite list_getitem_middle. cbn [bind].
  rewrite list_setitem_middle. cbn [bind].
  destruct (Hrows r) as (row & Hrow & Hcols); [by left |].
  destruct (measure_cols_total d r row cols Hrow Hcols [] ws
              (max k (len (str r))) Hlen) as [ws1 H1].
  simpl in H1. rewrite H1. cbn [bind].
  apply (measure_cols_spec d r cols [] ws) in H1 as [-> _]; [| done].
  simpl. apply IH.
  - intros r' Hr'. apply Hrows. by right.
  - rewrite length_zip_with. lia.
Qed.

Lemma measure_total (d : table) (rows : list pyval) (cols : list string) :
  (∀ r, r ∈ rows → ∃ row, d !! r = Some row ∧ ∀ c, c ∈ cols → is_Some (row !! c)) →
  ∃ ws, measure d rows cols = Ok ws.
Proof.
  intros Hrows. unfold measure.
  apply measure_rows_total; [done | by rewrite length_fmap].
Qed.

Lemma foldl_max_ge_init {A} (f : A → nat) (l : list A) (w : nat) :
  w ≤ foldl (λ w x, max w (f x)) w l.
Proof.
  revert w. induction l as [|x l IH]; intros w; simpl; [done |].
  etrans; [| apply IH]. lia.
Qed.

Lemma foldl_max_ge_elem {A} (f : A → nat) (l : list A) (w : nat) (x : A) :
  x ∈ l → f x ≤ foldl (λ w x, max w (f x)) w l.
Proof.
  revert w. induction l as [|y l IH]; intros w Hx; [by apply elem_of_nil in Hx |].
  apply elem_of_cons in Hx as [-> | Hx]; simpl.
  - etrans; [| apply foldl_max_ge_init]. lia.
  - by apply IH.
Qed.

Lemma insert_by_Permutation {A} (c : A → A → comparison) (x : A) (l : list A) :
  insert_by c x l ≡ₚ x :: l.
Proof.
  induction l as [|y l IH]; simpl; [done |].
  destruct (c x y); try done.
  rewrite IH. apply Permutation_swap.
Qed.

Lemma sorted_Permutation {A} (c : A → A → comparison) (l : list A) :
  sorted c l ≡ₚ l.
Proof.
  induction l as [|x l IH]; simpl; [done |].
  rewrite insert_by_Permutation. by constructor.
Qed.

Lemma elem_of_keys `{Countable K} {V} (d : gmap K V) (k : K) :
  k ∈ keys d ↔ is_Some (d !! k).
Proof.
  unfold keys. rewrite list_elem_of_fmap. split.
  - intros ([k' v] & -> & Hkv). apply elem_of_map_to_list in Hkv. eauto.
  - intros [v Hv]. exists (k, v). split; [done |]. by apply elem_of_map_to_list.
Qed.

Lemma default_format_cell_str (text : string) (w : nat) (header : string) :
  default_format_cell (PStr text) w header
  = Ok (Some (if truthy header then rjust text w else ljust text w)).
Proof. unfold default_format_cell. by destruct (truthy header). Qed.

(** C1: whenever [tablify_dict] returns, the width computed for each column
    is at least the length of its label and of the text of every cell of
    the column, and the width of the row-key column is at least the length
    of every row key; the default formatter then pads each text to exactly
    the width, cutting nothing. Without [row_order] the rows are all the
    keys of the mapping. *)
Theorem widths_cover_cells (d : table) (show_header : bool)
    (field_formatter : option formatter) (row_order : option (list pyval))
    (col_order : option (list string)) (col_padding : Z) (out : string) :
  tablify_dict d show_header field_formatter row_order col_order col_padding = Ok out →
  ∃ cols col_widths,
    cols_of d (rows_of d row_order) col_order = Ok cols ∧
    measure d (rows_of d row_order) cols = Ok col_widths ∧
    length col_widths = S (length cols) ∧
    (∀ i c, cols !! i = Some c →
       ∃ w, col_widths !! i = Some w ∧ len c ≤ w ∧
            ∀ r, r ∈ rows_of d row_order →
                 ∃ row v, d !! r = Some row ∧ row !! c = Some v ∧ len (str v) ≤ w) ∧
    (∃ w, col_widths !! length cols = Some w ∧
          ∀ r, r ∈ rows_of d row_order → len (str r) ≤ w) ∧
    (∀ text w header cell,
       len text ≤ w →
       default_format_cell (PStr text) w header = Ok (Some cell) →
       len cell = w ∧ ∃ pad, cell = pad +:+ text ∨ cell = text +:+ pad) ∧
    (row_order = None → ∀ r, r ∈ rows_of d row_order ↔ is_Some (d !! r)).
Proof.
  intros Hout. unfold tablify_dict, table_lines in Hout.
  apply bind_Ok in Hout as (lines & Hlines & _).
  apply bind_Ok in Hlines as (cols & Hcols & Hlines).
  apply bind_Ok in Hlines as (ws & Hws & _).
  exists cols, ws. destruct (measure_spec _ _ _ _ Hws) as [-> Hall].
  split; [done |]. split; [done |]. split; [| split; [| split; [| split]]].
  - rewrite length_app, length_fmap. simpl. lia.
  - intros i c Hi. exists (width_of d (rows_of d row_order) c). split; [| split].
    + rewrite lookup_app_l by (rewrite length_fmap; by eapply lookup_lt_Some).
      by rewrite list_lookup_fmap, Hi.
    + apply foldl_max_ge_init.
    + intros r Hr.
      destruct (Hall r c Hr) as (row & v & Hrow & Hv);
        [by eapply list_elem_of_lookup_2 |].
      exists row, v. split; [done |]. split; [done |].
      rewrite <- (cell_text_lookup d r c row v) by done.
      by apply (foldl_max_ge_elem (λ r, len (cell_text d r c))).
  - exists (key_width (rows_of d row_order)). split.
    + rewrite lookup_app_r by (by rewrite length_fmap).
      by rewrite length_fmap, Nat.sub_diag.
    + intros r Hr. by apply (foldl_max_ge_elem (λ r, len (str r))).
  - intros text w header cell Hle Hcell.
    rewrite default_format_cell_str in Hcell. injection Hcell as <-.
    destruct (truthy header).
    + rewrite len_rjust. split; [lia |]. exists (spaces (w - len text)). by left.
    + rewrite len_ljust. split; [lia |]. exists (spaces (w - len text)). by right.
  - intros -> r. simpl. rewrite <- elem_of_keys.
    by rewrite (sorted_Permutation cmp (keys d)).
Qed.

Lemma widths_cover_cells_witness :
  ∃ cols col_widths,
    cols_of sample_table (rows_of sample_table None) None = Ok cols ∧
    measure sample_table (rows_of sample_table None) cols = Ok col_widths ∧
    col_widths = [6; 6; 4].
Proof.
  destruct (tablify_dict sample_table true None None None 1) as [out|e] eqn:Hout;
    [| vm_compute in Hout; discriminate].
  destruct (widths_cover_cells sample_table true None None None 1 out Hout)
    as (cols & ws & H1 & H2 & _).
  exists cols, ws. split; [done |]. split; [done |].
  vm_compute in H1. injection H1 as <-. vm_compute in H2. by injection H2 as <-.
Defined.

(** ** The table renderer: the cells *)

Lemma header_cells_default (cols : list string) :
  ∀ (pre ws rest : list nat),
    length ws = length cols →
    header_cells default_format_cell cols (length pre) (pre ++ ws ++ rest)
    = Ok (zip_with (λ c w, default_cell c c w) cols ws).
Proof.
  induction cols as [|c cs IH]; intros pre ws rest Hlen.
  - by destruct ws.
  - destruct ws as [|w ws]; [done |]. simpl in Hlen. injection Hlen as Hlen.
    simpl. rewrite list_getitem_middle. simpl.
    rewrite default_format_cell_str. simpl.
    specialize (IH (pre ++ [w]) ws rest Hlen).
    rewrite length_app in IH. simpl in IH. rewrite Nat.add_1_r in IH.
    rewrite <- app_assoc in IH. simpl in IH. by rewrite IH.
Qed.

Lemma row_cells_default (d : table) (r : pyval) (cols : list string) :
  ∀ (pre ws rest : list nat) (cells : list (option string)),
    length ws = length cols →
    row_cells default_format_cell d r cols (length pre) (pre ++ ws ++ rest) = Ok cells →
    cells = zip_with (λ c w, default_cell c (cell_text d r c) w) cols ws.
Proof.
  induction cols as [|c cs IH]; intros pre ws rest cells Hlen Hc.
  - destruct ws; [| done]. simpl in Hc. by injection Hc as <-.
  - destruct ws as [|w ws]; [done |]. simpl in Hlen. injection Hlen as Hlen.
    simpl in Hc.
    apply bind_Ok in Hc as (row & Hrow & Hc). apply getitem_Ok in Hrow.
    apply bind_Ok in Hc as (v & Hv & Hc). apply getitem_Ok in Hv.
    rewrite list_getitem_middle in Hc. simpl in Hc.
    rewrite default_format_cell_str in Hc. simpl in Hc.
    apply bind_Ok in Hc as (cells' & Hcells & Hc). injection Hc as <-.
    specialize (IH (pre ++ [w]) ws rest cells' Hlen).
    rewrite length_app in IH. simpl in IH. rewrite Nat.add_1_r in IH.
    rewrite <- app_assoc in IH. simpl in IH.
    rewrite (IH Hcells). simpl.
    by rewrite (cell_text_lookup d r c row v).
Qed.

Lemma skip_nones_Some (l : list string) : skip_nones (Some <$> l) = l.
Proof.
  unfold skip_nones. induction l as [|x l IH]; [done |].
  rewrite fmap_cons. cbn. by f_equal.
Qed.

Lemma own_width_cells (cols : list string) :
  zip_with (λ c w, default_cell c c w) cols (len <$> cols) = Some <$> cols.
Proof.
  induction cols as [|c cs IH]; [done |].
  rewrite !fmap_cons. simpl. rewrite IH. f_equal.
  unfold default_cell. by rewrite rjust_own_width, ljust_own_width, Tauto.if_same.
Qed.

Lemma measure_no_rows (d : table) (cols : list string) :
  measure d [] cols = Ok ((len <$> cols) ++ [0]).
Proof. reflexivity. Qed.

(** C8, as stated, fails: without [col_order] the columns are taken from
    [rows[0]], and with no rows that raises. *)
Lemma empty_table_refuted :
  tablify_dict (∅ : table) true None (Some []) None 1 = Raise IndexError.
Proof. reflexivity. Qed.

(** C8 (amended): with [row_order=[]] and an explicit [col_order],
    [tablify_dict] returns the empty string when no header is asked for and
    the header line alone otherwise: with the default formatter the labels
    joined by the padding after a blank corner, with a custom formatter
    whatever that makes of the header cells. With [col_order=None] the call
    raises [IndexError]. *)
Theorem tablify_dict_no_rows (d : table) (field_formatter : option formatter)
    (cols : list string) (col_padding : Z) :
  tablify_dict d false field_formatter (Some []) (Some cols) col_padding = Ok "" ∧
  tablify_dict d true None (Some []) (Some cols) col_padding
  = Ok (join (spaces (Z.to_nat col_padding)) ("" :: cols)) ∧
  tablify_dict d true field_formatter (Some []) (Some cols) col_padding
  = header_line (format_cell_of field_formatter) cols ((len <$> cols) ++ [0])
      (spaces (Z.to_nat col_padding)) ∧
  (∀ show_header,
     tablify_dict d show_header field_formatter (Some []) None col_padding
     = Raise IndexError).
Proof.
  assert (Hhead : ∀ f, tablify_dict d true f (Some []) (Some cols) col_padding
    = header_line (format_cell_of f) cols ((len <$> cols) ++ [0])
        (spaces (Z.to_nat col_padding))).
  { intros f. unfold tablify_dict, table_lines, rows_of, cols_of.
    cbn [bind]. rewrite measure_no_rows. cbn [bind row_lines].
    destruct (header_line _ _ _ _); [| done]. cbn [bind]. by rewrite app_nil_r. }
  split; [| split; [| split]].
  - unfold tablify_dict, table_lines, rows_of, cols_of.
    cbn [bind]. by rewrite measure_no_rows.
  - rewrite Hhead. unfold header_line, format_cell_of.
    rewrite index_neg1_snoc. cbn [bind].
    rewrite (list_getitem_middle (len <$> cols) [] 0). cbn [bind].
    rewrite default_format_cell_str. cbn [bind truthy].
    pose proof (header_cells_default cols [] (len <$> cols) [0]) as Hc.
    simpl in Hc. rewrite Hc by (by rewrite length_fmap).
    cbn [bind]. rewrite own_width_cells.
    change (skip_nones (Some (ljust "" 0) :: (Some <$> cols)))
      with ("" :: skip_nones (Some <$> cols)).
    by rewrite skip_nones_Some.
  - apply Hhead.
  - reflexivity.
Qed.

(** ** The table renderer: the default alignment *)

Lemma truthy_nonempty (s : string) : s ≠ "" → truthy s = true.
Proof. by destruct s. Qed.

Lemma ljust_empty (w : nat) : ljust "" w = spaces w.
Proof. unfold ljust. simpl. by rewrite Nat.sub_0_r. Qed.

Lemma flush_right_cells (cols : list string) (text : string → string) (width : string → nat) :
  Forall (λ c, c ≠ "") cols →
  skip_nones (zip_with (λ c w, default_cell c (text c) w) cols (width <$> cols))
  = (λ c, rjust (text c) (width c)) <$> cols.
Proof.
  induction 1 as [|c cs Hc _ IH]; [done |].
  rewrite !fmap_cons. cbn [zip_with]. unfold default_cell at 1.
  rewrite (truthy_nonempty c Hc).
  change (skip_nones (Some ?x :: ?l)) with (x :: skip_nones l). by rewrite IH.
Qed.

Lemma header_line_default (d : table) (rows : list pyval) (cols : list string)
    (padding : string) :
  Forall (λ c, c ≠ "") cols →
  header_line default_format_cell cols ((width_of d rows <$> cols) ++ [key_width rows]) padding
  = Ok (aligned_header d rows cols padding).
Proof.
  intros Hcols. unfold header_line.
  rewrite index_neg1_snoc. cbn [bind].
  rewrite list_getitem_middle. cbn [bind].
  rewrite default_format_cell_str. cbn [bind truthy].
  pose proof (header_cells_default cols [] (width_of d rows <$> cols) [key_width rows]) as Hc.
  simpl in Hc. rewrite Hc by (by rewrite length_fmap). cbn [bind].
  change (skip_nones (Some ?x :: ?l)) with (x :: skip_nones l).
  rewrite (flush_right_cells cols (λ c, c) (width_of d rows) Hcols).
  by rewrite ljust_empty.
Qed.

Lemma row_line_default (d : table) (rows : list pyval) (cols : list string)
    (padding : string) (r : pyval) (line : string) :
  Forall (λ c, c ≠ "") cols →
  row_line default_format_cell d cols ((width_of d rows <$> cols) ++ [key_width rows]) padding r
  = Ok line →
  line = aligned_row d rows cols padding r.
Proof.
  intros Hcols Hline. unfold row_line in Hline.
  rewrite index_neg1_snoc in Hline. cbn [bind] in Hline.
  rewrite list_getitem_middle in Hline. cbn [bind] in Hline.
  destruct r as [|z|s]; try done.
  rewrite default_format_cell_str in Hline. cbn [bind truthy] in Hline.
  apply bind_Ok in Hline as (cells & Hcells & Hline). injection Hline as <-.
  apply (row_cells_default d (PStr s) cols [] (width_of d rows <$> cols) [key_width rows])
    in Hcells as ->; [| by rewrite length_fmap].
  change (skip_nones (Some ?x :: ?l)) with (x :: skip_nones l).
  by rewrite (flush_right_cells cols (cell_text d (PStr s)) (width_of d rows) Hcols).
Qed.

Lemma row_lines_default (d : table) (rows : list pyval) (cols : list string)
    (padding : string) (rs : list pyval) (body : list string) :
  Forall (λ c, c ≠ "") cols →
  row_lines default_format_cell d cols ((width_of d rows <$> cols) ++ [key_width rows]) padding rs
  = Ok body →
  body = aligned_row d rows cols padding <$> rs.
Proof.
  intros Hcols. revert body. induction rs as [|r rs IH]; intros body Hbody.
  - simpl in Hbody. by injection Hbody as <-.
  - simpl in Hbody.
    apply bind_Ok in Hbody as (tr & Htr & Hbody).
    apply bind_Ok in Hbody as (rest & Hrest & Hbody). injection Hbody as <-.
    apply row_line_default in Htr as ->; [| done].
    by rewrite (IH rest Hrest).
Qed.

Lemma row_cells_default_total (d : table) (r : pyval) (row : record) (cols : list string) :
  d !! r = Some row → (∀ c, c ∈ cols → is_Some (row !! c)) →
  ∀ (pre ws rest : list nat),
    length ws = length cols →
    ∃ cells, row_cells default_format_cell d r cols (length pre) (pre ++ ws ++ rest)
             = Ok cells.
Proof.
  intros Hrow. induction cols as [|c cs IH]; intros Hcols pre ws rest Hlen; simpl;
    [eauto |].
  destruct ws as [|w ws]; [done |]. simpl in Hlen. injection Hlen as Hlen.
  destruct (Hcols c) as [v Hv]; [by left |].
  unfold getitem at 1. rewrite Hrow. cbn [bind].
  unfold getitem at 1. rewrite Hv. cbn [bind].
  simpl. rewrite list_getitem_middle. cbn [bind].
  rewrite default_format_cell_str. cbn [bind].
  destruct (IH (λ c' Hc', Hcols c' (list_elem_of_further _ _ _ Hc'))
               (pre ++ [w]) ws rest Hlen) as [cells Hcells].
  rewrite length_app in Hcells. simpl in Hcells. rewrite Nat.add_1_r in Hcells.
  rewrite <- app_assoc in Hcells. simpl in Hcells. rewrite Hcells. cbn [bind]. eauto.
Qed.

Lemma row_lines_default_total (d : table) (cols : list string) (ws : list nat) (k : nat)
    (padding : string) (rows : list pyval) :
  length ws = length cols →
  Forall (λ r, ∃ s, r = PStr s) rows →
  (∀ r, r ∈ rows → ∃ row, d !! r = Some row ∧ ∀ c, c ∈ cols → is_Some (row !! c)) →
  ∃ body, row_lines default_format_cell d cols (ws ++ [k]) padding rows = Ok body.
Proof.
  intros Hlen. induction 1 as [|r rs [s ->] _ IH]; intros Hrows; simpl; [eauto |].
  unfold row_line. rewrite index_neg1_snoc. cbn [bind].
  rewrite list_getitem_middle. cbn [bind].
  rewrite default_format_cell_str. cbn [bind].
  destruct (Hrows (PStr s)) as (row & Hrow & Hcols); [by left |].
  destruct (row_cells_default_total d (PStr s) row cols Hrow Hcols [] ws [k] Hlen)
    as [cells Hcells].
  simpl in Hcells. rewrite Hcells. cbn [bind].
  destruct IH as [rest ->]; [| cbn [bind]; eauto].
  intros r Hr. apply Hrows. by right.
Qed.

Lemma header_line_default_total (cols : list string) (ws : list nat) (k : nat)
    (padding : string) :
  length ws = length cols →
  ∃ th, header_line default_format_cell cols (ws ++ [k]) padding = Ok th.
Proof.
  intros Hlen. unfold header_line. rewrite index_neg1_snoc. cbn [bind].
  rewrite list_getitem_middle. cbn [bind].
  rewrite default_format_cell_str. cbn [bind].
  pose proof (header_cells_default cols [] ws [k] Hlen) as Hc.
  simpl in Hc. rewrite Hc. cbn [bind]. eauto.
Qed.

(** C9, as stated, fails: in a column whose label is the empty string the
    default formatter flushes the data to the left, as it does for the row
    keys; the table is not the one with all data flushed right. *)
Lemma flush_right_refuted :
  tablify_dict blank_label_table true None None None 1
  = Ok (join nl [spaces 5; "a x  "; "b xyz"]) ∧
  aligned_table blank_label_table [PStr "a"; PStr "b"] [""] (spaces 1)
  = join nl [spaces 5; "a   x"; "b xyz"] ∧
  tablify_dict blank_label_table true None None None 1
  ≠ Ok (aligned_table blank_label_table [PStr "a"; PStr "b"] [""] (spaces 1)).
Proof. split; [| split]; vm_compute; [reflexivity | reflexivity | discriminate]. Qed.

(** C9 (amended): with the default formatter and the header shown, when no
    column label is the empty string, the table is made of a blank corner
    as wide as the longest row key, the labels flushed right, and for each
    row its key flushed left and its data flushed right; the table is
    produced whenever the row keys are strings and the cells exist. A column whose
    label is the empty string is flushed left like the row keys. With the
    longest row key ["1000"] and a column [Opened] whose widest value is
    [12], the header starts with a blank cell four spaces wide. *)
Theorem default_alignment (d : table) (row_order : option (list pyval))
    (col_order : option (list string)) (col_padding : Z) (cols : list string)
    (out : string) :
  (tablify_dict d true None row_order col_order col_padding = Ok out →
   cols_of d (rows_of d row_order) col_order = Ok cols →
   Forall (λ c, c ≠ "") cols →
   out = aligned_table d (rows_of d row_order) cols (spaces (Z.to_nat col_padding))) ∧
  (cols_of d (rows_of d row_order) col_order = Ok cols →
   Forall (λ r, ∃ s, r = PStr s) (rows_of d row_order) →
   (∀ r, r ∈ rows_of d row_order →
         ∃ row, d !! r = Some row ∧ ∀ c, c ∈ cols → is_Some (row !! c)) →
   ∃ out', tablify_dict d true None row_order col_order col_padding = Ok out') ∧
  (∀ text w, default_format_cell (PStr text) w "" = Ok (Some (ljust text w))) ∧
  key_width (rows_of scenario_table None) = 4 ∧
  tablify_dict scenario_table true None None None 1
  = Ok (join nl [spaces 4 +:+ " Opened"; "1000     12"; "7         5"]).
Proof.
  split; [| split; [| split; [| split]]].
  - intros Hout Hcols Hne. unfold tablify_dict, table_lines in Hout.
    rewrite Hcols in Hout. cbn [bind] in Hout.
    apply bind_Ok in Hout as (lines & Hlines & Hout). injection Hout as <-.
    apply bind_Ok in Hlines as (ws & Hws & Hlines).
    apply measure_spec in Hws as [-> _].
    unfold format_cell_of in Hlines.
    rewrite header_line_default in Hlines by done. cbn [bind] in Hlines.
    apply bind_Ok in Hlines as (body & Hbody & Hlines). injection Hlines as <-.
    apply row_lines_default in Hbody as ->; done.
  - intros Hcols Hkeys Hcells. unfold tablify_dict, table_lines, format_cell_of.
    rewrite Hcols. cbn [bind].
    destruct (measure_total d (rows_of d row_order) cols Hcells) as [ws Hws].
    rewrite Hws. cbn [bind]. apply measure_spec in Hws as [-> _].
    destruct (header_line_default_total cols (width_of d (rows_of d row_order) <$> cols)
                (key_width (rows_of d row_order)) (spaces (Z.to_nat col_padding)))
      as [th ->]; [by rewrite length_fmap |].
    cbn [bind].
    destruct (row_lines_default_total d cols (width_of d (rows_of d row_order) <$> cols)
                (key_width (rows_of d row_order)) (spaces (Z.to_nat col_padding))
                (rows_of d row_order)) as [body ->]; [by rewrite length_fmap | done..|].
    cbn [bind]. eauto.
  - intros text w. apply default_format_cell_str.
  - by vm_compute.
  - by vm_compute.
Qed.

Lemma default_alignment_witness :
  ∃ out,
    tablify_dict sample_table true None None None 1 = Ok out ∧
    out = aligned_table sample_table (rows_of sample_table None) ["Closed"; "Opened"]
            (spaces 1).
Proof.
  eexists. split; [vm_compute; reflexivity |].
  apply (proj1 (default_alignment sample_table None None 1 ["Closed"; "Opened"] _)).
  - vm_compute. reflexivity.
  - vm_compute. reflexivity.
  - repeat constructor; discriminate.
Defined.

(** ** The table renderer: one line per row *)

Lemma nl_free_app (a b : string) : nl_free (a +:+ b) ↔ nl_free a ∧ nl_free b.
Proof. unfold nl_free. rewrite list_ascii_app, not_elem_of_app. done. Qed.

Lemma nl_free_empty : nl_free "".
Proof. unfold nl_free. simpl. apply not_elem_of_nil. Qed.

Lemma nl_free_spaces (n : nat) : nl_free (spaces n).
Proof.
  unfold nl_free, spaces. rewrite list_ascii_of_string_of_list_ascii.
  intros [H _]%elem_of_replicate. discriminate.
Qed.

Lemma nl_free_ljust (s : string) (w : nat) : nl_free s → nl_free (ljust s w).
Proof. intros Hs. apply nl_free_app. split; [done | apply nl_free_spaces]. Qed.

Lemma nl_free_rjust (s : string) (w : nat) : nl_free s → nl_free (rjust s w).
Proof. intros Hs. apply nl_free_app. split; [apply nl_free_spaces | done]. Qed.

Create HintDb nl_free.
#[local] Hint Resolve nl_free_empty nl_free_spaces nl_free_ljust nl_free_rjust : nl_free.

Lemma nl_free_join (sep : string) (l : list string) :
  nl_free sep → Forall nl_free l → nl_free (join sep l).
Proof.
  intros Hsep. induction 1 as [|x l Hx Hl IH]; [apply nl_free_empty |].
  destruct l as [|y l]; [done |].
  change (join sep (x :: y :: l)) with (x +:+ sep +:+ join sep (y :: l)).
  apply nl_free_app. split; [done |]. apply nl_free_app. by split.
Qed.

Lemma default_keeps_lines : keeps_lines default_format_cell.
Proof.
  intros [|z|t] size header s Hc Hs; unfold default_format_cell in Hs;
    destruct (truthy header); simpl in Hs; try done; injection Hs as <-.
  - by apply nl_free_rjust.
  - by apply nl_free_ljust.
Qed.

Lemma split_cons (sep c : ascii) (s : string) :
  split sep (String c s)
  = if decide (c = sep) then "" :: split sep s
    else match split sep s with
         | x :: xs => String c x :: xs
         | [] => [String c ""]
         end.
Proof. reflexivity. Qed.

Lemma split_nl_free (s : string) : nl_free s → split newline s = [s].
Proof.
  unfold nl_free. induction s as [|c s IH]; intros Hs; [done |].
  simpl in Hs. apply not_elem_of_cons in Hs as [Hc Hs].
  rewrite split_cons, decide_False by done. by rewrite IH.
Qed.

Lemma split_line (s rest : string) :
  nl_free s → split newline (s +:+ nl +:+ rest) = s :: split newline rest.
Proof.
  unfold nl_free. induction s as [|c s IH]; intros Hs.
  - change ("" +:+ nl +:+ rest) with (String newline rest).
    by rewrite split_cons, decide_True.
  - simpl in Hs. apply not_elem_of_cons in Hs as [Hc Hs].
    rewrite app_cons, split_cons, decide_False by done. by rewrite IH.
Qed.

Lemma split_join (lines : list string) :
  lines ≠ [] → Forall nl_free lines → split newline (join nl lines) = lines.
Proof.
  intros Hne Hall. induction Hall as [|x l Hx Hl IH]; [done |].
  destruct l as [|y l]; [by apply split_nl_free |].
  change (join nl (x :: y :: l)) with (x +:+ nl +:+ join nl (y :: l)).
  rewrite split_line by done. by rewrite IH.
Qed.

Lemma skip_nones_cons (cell : option string) (cells : list (option string)) :
  skip_nones (cell :: cells)
  = match cell with Some s => s :: skip_nones cells | None => skip_nones cells end.
Proof. by destruct cell. Qed.

Lemma Forall_skip_nones_cons (P : string → Prop) (cell : option string)
    (cells : list (option string)) :
  (∀ s, cell = Some s → P s) → Forall P (skip_nones cells) →
  Forall P (skip_nones (cell :: cells)).
Proof.
  intros Hcell Hcells. rewrite skip_nones_cons.
  destruct cell; [constructor; auto | done].
Qed.

(** The lines made by a formatter that keeps lines, from cells without
    line breaks. *)
Section keeps_lines.
Context (f : formatter) (Hf : keeps_lines f).
Context (d : table).

Lemma header_cells_nl_free (cols : list string) :
  Forall nl_free cols →
  ∀ i ws cells, header_cells f cols i ws = Ok cells → Forall nl_free (skip_nones cells).
Proof.
  induction 1 as [|c cs Hc _ IH]; intros i ws cells Hcells; simpl in Hcells.
  - injection Hcells as <-. constructor.
  - unbind Hcells as w Hw. unbind Hcells as cell Hcell. unbind Hcells as rest Hrest.
    injection Hcells as <-.
    apply Forall_skip_nones_cons; [| by eapply IH].
    intros s ->. by apply (Hf (PStr c) w c).
Qed.

Lemma row_cells_nl_free (r : pyval) (cols : list string) :
  (∀ c, c ∈ cols → nl_free (cell_text d r c)) →
  ∀ i ws cells, row_cells f d r cols i ws = Ok cells → Forall nl_free (skip_nones cells).
Proof.
  induction cols as [|c cs IH]; intros Hcols i ws cells Hcells; simpl in Hcells.
  - injection Hcells as <-. constructor.
  - unbind Hcells as row Hrow. apply getitem_Ok in Hrow.
    unbind Hcells as v Hv. apply getitem_Ok in Hv.
    unbind Hcells as w Hw. unbind Hcells as cell Hcell. unbind Hcells as rest Hrest.
    injection Hcells as <-.
    apply Forall_skip_nones_cons.
    + intros s ->. apply (Hf (PStr (str v)) w c); [| done]. simpl.
      rewrite <- (cell_text_lookup d r c row v) by done.
      apply Hcols. by left.
    + eapply IH; [| done]. intros c' Hc'. apply Hcols. by right.
Qed.

Lemma header_line_nl_free (cols : list string) (ws : list nat) (n : nat) (th : string) :
  Forall nl_free cols →
  header_line f cols ws (spaces n) = Ok th → nl_free th.
Proof.
  intros Hcols Hth. unfold header_line in Hth.
  unbind Hth as j Hj. unbind Hth as w Hw.
  unbind Hth as corner Hcorner. unbind Hth as cells Hcells.
  injection Hth as <-.
  apply nl_free_join; [auto with nl_free |].
  apply Forall_skip_nones_cons; [| by eapply header_cells_nl_free].
  intros s ->. apply (Hf (PStr "") w ""); [simpl; auto with nl_free | done].
Qed.

Lemma row_line_nl_free (cols : list string) (ws : list nat) (n : nat) (r : pyval)
    (tr : string) :
  nl_free_val r → (∀ c, c ∈ cols → nl_free (cell_text d r c)) →
  row_line f d cols ws (spaces n) r = Ok tr → nl_free tr.
Proof.
  intros Hr Hcols Htr. unfold row_line in Htr.
  unbind Htr as j Hj. unbind Htr as w Hw.
  unbind Htr as key Hkey. unbind Htr as cells Hcells.
  injection Htr as <-.
  apply nl_free_join; [auto with nl_free |].
  apply Forall_skip_nones_cons; [| by eapply row_cells_nl_free].
  intros s ->. by apply (Hf r w "").
Qed.

Lemma row_lines_nl_free (cols : list string) (ws : list nat) (n : nat)
    (rows : list pyval) (body : list string) :
  Forall nl_free_val rows →
  (∀ r c, r ∈ rows → c ∈ cols → nl_free (cell_text d r c)) →
  row_lines f d cols ws (spaces n) rows = Ok body →
  length body = length rows ∧ Forall nl_free body.
Proof.
  intros Hrows. revert body.
  induction Hrows as [|r rs Hr _ IH]; intros body Hcells Hbody; simpl in Hbody.
  - by injection Hbody as <-.
  - unbind Hbody as tr Htr. unbind Hbody as rest Hrest. injection Hbody as <-.
    destruct (IH rest) as [Hlen Hall]; [| done |].
    { intros r' c Hr' Hc. apply Hcells; [by right | done]. }
    split; [simpl; by rewrite Hlen |].
    constructor; [| done].
    eapply row_line_nl_free; [done | | done].
    intros c Hc. apply Hcells; [by left | done].
Qed.

End keeps_lines.

(** C10, as stated, fails for the table without lines: with no rows and no
    header the result is the empty string, which splits into one piece,
    not into none. *)
Lemma line_count_refuted :
  ∃ out, tablify_dict (∅ : table) false None (Some []) (Some []) 1 = Ok out ∧
         length (split newline out) ≠ length (rows_of (∅ : table) (Some [])).
Proof. exists "". split; [reflexivity |]. simpl. lia. Qed.

(** C10 (amended): when [tablify_dict] returns, no label, row key or cell
    text has a line break, and the formatter adds none, the result splits
    on the line break into one line per row, and one more when the header
    is shown, provided there is at least one line; with no rows and no
    header the result is the empty string. *)
Theorem one_line_per_row (d : table) (show_header : bool)
    (field_formatter : option formatter) (row_order : option (list pyval))
    (col_order : option (list string)) (col_padding : Z) (cols : list string)
    (out : string) :
  tablify_dict d show_header field_formatter row_order col_order col_padding = Ok out →
  cols_of d (rows_of d row_order) col_order = Ok cols →
  keeps_lines (format_cell_of field_formatter) →
  cells_nl_free d (rows_of d row_order) cols →
  (show_header = true ∨ rows_of d row_order ≠ [] →
   length (split newline out)
   = length (rows_of d row_order) + (if show_header then 1 else 0)) ∧
  (show_header = false → rows_of d row_order = [] → out = "").
Proof.
  intros Hout Hcols Hf (Hlabels & Hkeys & Hcells).
  unfold tablify_dict, table_lines in Hout.
  rewrite Hcols in Hout. cbn [bind] in Hout.
  apply bind_Ok in Hout as (lines & Hlines & Hout). injection Hout as <-.
  apply bind_Ok in Hlines as (ws & _ & Hlines).
  apply bind_Ok in Hlines as (head & Hhead & Hlines).
  apply bind_Ok in Hlines as (body & Hbody & Hlines). injection Hlines as <-.
  apply row_lines_nl_free in Hbody as [Hlen Hall]; [| done | done |].
  2:{ intros r c Hr Hc.
      eapply Forall_forall in Hcells; [| exact Hr].
      eapply Forall_forall in Hcells; [| exact Hc]. done. }
  split.
  - intros Hsome. rewrite split_join.
    + rewrite length_app, Hlen. destruct show_header.
      * apply bind_Ok in Hhead as (th & _ & Hhead). injection Hhead as <-. simpl. lia.
      * injection Hhead as <-. simpl. lia.
    + destruct show_header.
      * apply bind_Ok in Hhead as (th & _ & Hhead). by injection Hhead as <-.
      * injection Hhead as <-. simpl. destruct Hsome as [? | Hrows]; [done |].
        intros ->. simpl in Hlen. destruct (rows_of d row_order); done.
    + apply Forall_app. split; [| done]. destruct show_header.
      * apply bind_Ok in Hhead as (th & Hth & Hhead). injection Hhead as <-.
        constructor; [| done]. by eapply header_line_nl_free.
      * injection Hhead as <-. constructor.
  - intros -> Hrows. injection Hhead as <-. rewrite Hrows in Hlen.
    by destruct body.
Qed.

Lemma one_line_per_row_witness :
  ∃ out,
    tablify_dict sample_table true None None None 1 = Ok out ∧
    length (split newline out) = 3.
Proof.
  eexists. split; [vm_compute; reflexivity |].
  refine (proj1 (one_line_per_row sample_table true None None None 1
                   ["Closed"; "Opened"] _ _ _ _ _) _).
  - vm_compute. reflexivity.
  - vm_compute. reflexivity.
  - apply default_keeps_lines.
  - apply (bool_decide_unpack _). vm_compute. exact I.
  - by left.
Defined.

(** ** The ticket summary *)

Lemma type_name_not_Total (s : string) : s +:+ "s" ≠ "Total".
Proof.
  do 6 (destruct s as [|? s]; [intros H; vm_compute in H; discriminate |]).
  rewrite !app_cons. discriminate.
Qed.

Lemma count_Some (ts : table) (category what : string) (z : Z) :
  count ts category what = Some z ↔
  ∃ row, ts !! PStr category = Some row ∧ row !! what = Some (PInt z).
Proof.
  unfold count. split.
  - destruct (ts !! PStr category) as [row|]; simpl; [| done].
    destruct (row !! what) as [[| |]|] eqn:Hw; simpl; try done.
    intros [= ->]. eauto.
  - intros (row & -> & Hw). simpl. by rewrite Hw.
Qed.

Lemma increment_Ok (ts : table) (category what : string) (z : Z) :
  count ts category what = Some z → ∃ ts', increment ts category what = Ok ts'.
Proof.
  intros (row & Hrow & Hw)%count_Some. unfold increment, getitem.
  rewrite Hrow. simpl. rewrite Hw. simpl. eauto.
Qed.

Lemma increment_count (ts ts' : table) (category what : string) :
  increment ts category what = Ok ts' →
  (∀ k, is_Some (ts' !! k) ↔ is_Some (ts !! k)) ∧
  ∀ category' what',
    count ts' category' what'
    = if decide (category' = category ∧ what' = what)
      then Z.succ <$> count ts category' what'
      else count ts category' what'.
Proof.
  unfold increment. intros Hinc.
  apply bind_Ok in Hinc as (row & Hrow & Hinc). apply getitem_Ok in Hrow.
  apply bind_Ok in Hinc as (n & Hn & Hinc). apply getitem_Ok in Hn.
  destruct n as [|z|]; try done. injection Hinc as <-. split.
  - intros k. rewrite lookup_insert. case_decide; [subst; by rewrite Hrow |]. done.
  - intros category' what'. unfold count. rewrite lookup_insert.
    destruct (decide (category' = category)) as [-> | Hne].
    + rewrite decide_True by done. rewrite Hrow. simpl.
      rewrite lookup_insert.
      destruct (decide (what' = what)) as [-> | Hne'].
      * rewrite decide_True by done. rewrite decide_True by done.
        rewrite Hn. simpl. by rewrite Z.add_1_r.
      * rewrite decide_False by done. rewrite decide_False by (by intros [_ ?]). done.
    + rewrite decide_False by congruence. rewrite decide_False by (by intros [? _]). done.
Qed.

Lemma sum_over_ext (f g : string → option Z) (l : list string) :
  (∀ x, x ∈ l → g x = f x) → sum_over g l = sum_over f l.
Proof.
  induction l as [|x l IH]; intros Hfg; [done |]. simpl.
  rewrite Hfg by (by left). rewrite IH; [done |].
  intros y Hy. apply Hfg. by right.
Qed.

Lemma sum_over_bump (f g : string → option Z) (l : list string) (c : string) :
  NoDup l → c ∈ l →
  (∀ x, x ∈ l → g x = if decide (x = c) then Z.succ <$> f x else f x) →
  sum_over g l = Z.succ <$> sum_over f l.
Proof.
  induction 1 as [|x l Hx Hnd IH]; intros Hc Hg.
  - by apply elem_of_nil in Hc.
  - cbn [sum_over foldr]. fold (sum_over f l). fold (sum_over g l).
    rewrite (Hg x) by (by left).
    destruct (decide (x = c)) as [-> | Hne].
    + rewrite (sum_over_ext f g l).
      * destruct (f c) as [n|]; [| done]. simpl.
        destruct (sum_over f l) as [s|]; [| done]. simpl. f_equal. lia.
      * intros y Hy. rewrite Hg by (by right).
        rewrite decide_False; [done |]. intros ->. done.
    + apply elem_of_cons in Hc as [-> | Hc]; [done |].
      rewrite IH; [| done |].
      * destruct (f x) as [n|]; [| done]. simpl.
        destruct (sum_over f l) as [s|]; [| done]. simpl. f_equal. lia.
      * intros y Hy. apply Hg. by right.
Qed.

Lemma elem_of_seven (name : string) :
  name ∈ seven_rows ↔ name ∈ six_categories ∨ name = "Total".
Proof.
  unfold seven_rows. rewrite elem_of_app, list_elem_of_singleton. done.
Qed.

Lemma six_NoDup : NoDup six_categories.
Proof. apply (bool_decide_unpack _). by vm_compute. Qed.

Lemma Total_not_six : "Total" ∉ six_categories.
Proof. apply (bool_decide_unpack _). by vm_compute. Qed.

Lemma summary_inv0 : summary_inv ticket_summary0.
Proof.
  split; [| split].
  - intros k. unfold seven_rows, six_categories. simpl.
    rewrite !elem_of_cons, elem_of_nil. split.
    + unfold ticket_summary0.
      rewrite !lookup_insert_is_Some, lookup_singleton_is_Some.
      intros H. repeat (destruct H as [<- | [_ H]]; [tauto |]). subst. tauto.
    + intros H. repeat (destruct H as [-> | H]; [by eexists |]). done.
  - intros category what Hc Hw.
    unfold seven_rows, six_categories in Hc. simpl in Hc.
    rewrite !elem_of_cons, elem_of_nil in Hc.
    rewrite !elem_of_cons, elem_of_nil in Hw.
    destruct Hw as [-> | [-> | []]];
      destruct Hc as [-> | [-> | [-> | [-> | [-> | [-> | [-> | []]]]]]]];
      by eexists.
  - intros what.
    destruct (decide (what = "Opened")) as [-> | Ho]; [by vm_compute |].
    destruct (decide (what = "Closed")) as [-> | Hc]; [by vm_compute |].
    assert (Hnone : ∀ category, category ∈ seven_rows →
                                 count ticket_summary0 category what = None).
    { intros category Hcat. unfold count.
      assert (ticket_summary0 !! PStr category = Some each_type) as ->.
      { unfold seven_rows, six_categories in Hcat. simpl in Hcat.
        rewrite !elem_of_cons, elem_of_nil in Hcat.
        destruct Hcat as [-> | [-> | [-> | [-> | [-> | [-> | [-> | []]]]]]]];
          by_evaluation. }
      simpl. unfold each_type.
      rewrite lookup_insert_ne by done. by rewrite lookup_singleton_ne. }
    unfold categories_sum. rewrite (Hnone "Total") by (apply elem_of_seven; by right).
    unfold sum_over, six_categories. cbn [foldr].
    rewrite (Hnone "Enhancements"); [done |]. apply elem_of_seven. left. by left.
Qed.

(** The category that line 108 selects is the bucket of the type. *)
Lemma selected_bucket (ts : table) (ty what : string) :
  (∀ k, is_Some (ts !! k) ↔ k ∈ PStr <$> seven_rows) →
  (if decide (is_Some (ts !! PStr (capitalize ty +:+ "s")))
   then increment ts (capitalize ty +:+ "s") what
   else increment ts "Other" what)
  = increment ts (bucket ty) what.
Proof.
  intros Hkeys. unfold bucket.
  assert (Hiff : is_Some (ts !! PStr (capitalize ty +:+ "s"))
                 ↔ capitalize ty +:+ "s" ∈ six_categories).
  { rewrite Hkeys, list_elem_of_fmap. split.
    - intros (name & [= <-] & [H | H]%elem_of_seven); [done |].
      by apply type_name_not_Total in H.
    - intros H. eexists. split; [done |]. apply elem_of_seven. by left. }
  destruct (decide (is_Some _)) as [H | H], (decide (_ ∈ six_categories)) as [H' | H'];
    try done; first [by apply Hiff in H | by apply Hiff in H'].
Qed.

Lemma bucket_six (ty : string) : bucket ty ∈ six_categories.
Proof.
  unfold bucket. case_decide; [done |].
  apply (bool_decide_unpack _). by vm_compute.
Qed.

(** One ticket: the two increments, described by the counts. *)
Lemma count_ticket_counts (what : string) (st st' : tally) (t : record) (ty : string) :
  (∀ k, is_Some (ticket_summary st !! k) ↔ k ∈ PStr <$> seven_rows) →
  t !! "type" = Some (PStr ty) →
  count_ticket what st t = Ok st' →
  (∀ k, is_Some (ticket_summary st' !! k) ↔ is_Some (ticket_summary st !! k)) ∧
  ∀ category what',
    count (ticket_summary st') category what'
    = if decide (what' = what ∧ (category = bucket ty ∨ category = "Total"))
      then Z.succ <$> count (ticket_summary st) category what'
      else count (ticket_summary st) category what'.
Proof.
  intros Hkeys Hty Hct. unfold count_ticket, getitem in Hct.
  rewrite Hty in Hct. cbn [bind] in Hct.
  rewrite (selected_bucket _ ty what Hkeys) in Hct.
  apply bind_Ok in Hct as (ts1 & H1 & Hct).
  apply bind_Ok in Hct as (ts2 & H2 & Hct).
  apply increment_count in H1 as [Hk1 Hc1].
  apply increment_count in H2 as [Hk2 Hc2].
  assert (Hts : ticket_summary st' = ts2).
  { repeat case_decide; by injection Hct as <-. }
  rewrite Hts. split.
  - intros k. by rewrite Hk2, Hk1.
  - intros category what'. rewrite Hc2, Hc1.
    pose proof (bucket_six ty) as Hb. pose proof Total_not_six as Hn.
    destruct (decide (what' = what)) as [-> | Hw].
    + destruct (decide (category = "Total")) as [-> | Ht].
      * rewrite decide_True by done.
        rewrite decide_False by (intros [E _]; by rewrite <- E in Hb).
        rewrite decide_True by auto. done.
      * rewrite decide_False by (by intros [? _]).
        destruct (decide (category = bucket ty)) as [-> | Hbk].
        -- rewrite decide_True by done. rewrite decide_True by auto. done.
        -- rewrite decide_False by (by intros [? _]).
           rewrite decide_False by (intros [_ [? | ?]]; done). done.
    + rewrite decide_False by (by intros [_ ?]).
      rewrite decide_False by (by intros [_ ?]).
      rewrite decide_False by (by intros [? _]). done.
Qed.

Lemma count_ticket_type (what : string) (st st' : tally) (t : record) :
  count_ticket what st t = Ok st' → ∃ ty, t !! "type" = Some (PStr ty).
Proof.
  unfold count_ticket, getitem. intros H.
  destruct (t !! "type") as [[| |ty]|]; try done. eauto.
Qed.

Lemma count_ticket_inv (what : string) (st st' : tally) (t : record) :
  summary_inv (ticket_summary st) →
  count_ticket what st t = Ok st' →
  summary_inv (ticket_summary st').
Proof.
  intros (Hkeys & Hsome & Hsum) Hct.
  destruct (count_ticket_type _ _ _ _ Hct) as [ty Hty].
  destruct (count_ticket_counts what st st' t ty Hkeys Hty Hct) as [Hk Hc].
  split; [| split].
  - intros k. by rewrite Hk.
  - intros category what' Hcat Hw. rewrite Hc.
    case_decide; [apply fmap_is_Some |]; by apply Hsome.
  - intros what'. unfold categories_sum. rewrite (Hc "Total").
    destruct (decide (what' = what)) as [-> | Hne].
    + rewrite decide_True by auto. rewrite <- Hsum.
      apply (sum_over_bump _ _ _ (bucket ty)); [apply six_NoDup | apply bucket_six |].
      intros x Hx. rewrite Hc.
      destruct (decide (x = bucket ty)) as [-> | Hxb].
      * by rewrite decide_True by auto.
      * rewrite decide_False; [done |].
        intros [_ [? | ->]]; [done |]. by apply Total_not_six in Hx.
    + rewrite decide_False by (by intros [? _]). rewrite <- Hsum.
      apply sum_over_ext. intros x Hx. rewrite Hc.
      by rewrite decide_False by (by intros [? _]).
Qed.

Lemma count_ticket_total (what : string) (st : tally) (t : record) (ty : string) :
  summary_inv (ticket_summary st) →
  what ∈ ["Opened"; "Closed"] →
  t !! "type" = Some (PStr ty) →
  ∃ st', count_ticket what st t = Ok st'.
Proof.
  intros (Hkeys & Hsome & _) Hw Hty. unfold count_ticket, getitem.
  rewrite Hty. cbn [bind]. rewrite (selected_bucket _ ty what Hkeys).
  destruct (Hsome (bucket ty) what) as [z Hz]; [| done |].
  { apply elem_of_seven. left. apply bucket_six. }
  destruct (increment_Ok _ _ _ _ Hz) as [ts1 H1]. rewrite H1. cbn [bind].
  destruct (Hsome "Total" what) as [n Hn]; [| done |].
  { apply elem_of_seven. by right. }
  apply increment_count in H1 as [_ Hc1].
  assert (Hn1 : count ts1 "Total" what = Some n).
  { rewrite Hc1, decide_False; [done |].
    intros [E _]. pose proof (bucket_six ty) as Hb. rewrite <- E in Hb.
    by apply Total_not_six in Hb. }
  destruct (increment_Ok _ _ _ _ Hn1) as [ts2 H2]. rewrite H2. cbn [bind].
  repeat case_decide; eauto.
Qed.

Lemma count_tickets_inv (what : string) (tickets : list record) :
  ∀ st st', summary_inv (ticket_summary st) →
            count_tickets what st tickets = Ok st' →
            summary_inv (ticket_summary st').
Proof.
  induction tickets as [|t ts IH]; intros st st' Hinv Hct; simpl in Hct.
  - by injection Hct as <-.
  - apply bind_Ok in Hct as (st1 & H1 & Hct).
    eapply IH; [| done]. by eapply count_ticket_inv.
Qed.

Lemma count_results_inv (results : list (dl_entry (string * list record))) :
  ∀ st st', summary_inv (ticket_summary st) →
            count_results st results = Ok st' →
            summary_inv (ticket_summary st').
Proof.
  induction results as [|[[what tickets]|f] rest IH]; intros st st' Hinv Hcr;
    simpl in Hcr.
  - by injection Hcr as <-.
  - apply bind_Ok in Hcr as (st1 & H1 & Hcr).
    eapply IH; [| done]. by eapply count_tickets_inv.
  - by eapply IH.
Qed.

Lemma count_tickets_total (what : string) (tickets : list record) :
  what ∈ ["Opened"; "Closed"] →
  Forall (λ t : record, ∃ ty, t !! "type" = Some (PStr ty)) tickets →
  ∀ st, summary_inv (ticket_summary st) → ∃ st', count_tickets what st tickets = Ok st'.
Proof.
  intros Hw. induction 1 as [|t ts [ty Hty] _ IH]; intros st Hinv; simpl; [eauto |].
  destruct (count_ticket_total what st t ty Hinv Hw Hty) as [st1 H1].
  rewrite H1. cbn [bind]. apply IH. by eapply count_ticket_inv.
Qed.

Lemma count_results_total (results : list (dl_entry (string * list record))) :
  Forall labelled results →
  ∀ st, summary_inv (ticket_summary st) → ∃ st', count_results st results = Ok st'.
Proof.
  induction 1 as [|[[what tickets]|f] rest Hl _ IH]; intros st Hinv; simpl; [eauto | |].
  - destruct Hl as [Hw Htickets].
    destruct (count_tickets_total what tickets) with (st := st) as [st1 H1]; [| done..|].
    { rewrite !elem_of_cons. tauto. }
    rewrite H1. cbn [bind]. apply IH. by eapply count_tickets_inv.
  - by apply IH.
Qed.

(** C2: the ticket summary that the loop of [summarize_trac_tickets]
    builds from any list of fetch results has, under [Opened] and under
    [Closed], a [Total] equal to the sum of the counts of the six
    categories; and the loop does return a summary on the results that
    [get_trac_tickets] produces. *)
Theorem total_is_sum (results : list (dl_entry (string * list record))) :
  (∀ st what,
     count_results tally0 results = Ok st → what ∈ ["Opened"; "Closed"] →
     ∃ total, count (ticket_summary st) "Total" what = Some total ∧
              categories_sum (ticket_summary st) what = Some total) ∧
  (Forall labelled results → ∃ st, count_results tally0 results = Ok st).
Proof.
  split.
  - intros st what Hcr Hw.
    apply count_results_inv in Hcr as (_ & Hsome & Hsum); [| apply summary_inv0].
    destruct (Hsome "Total" what) as [total Htotal]; [| done |].
    { apply elem_of_seven. by right. }
    exists total. split; [done |]. by rewrite Hsum.
  - intros Hl. apply count_results_total; [done | apply summary_inv0].
Qed.

Lemma total_is_sum_witness :
  ∃ st total,
    count_results tally0 three_tickets = Ok st ∧
    count (ticket_summary st) "Total" "Opened" = Some total ∧
    categories_sum (ticket_summary st) "Opened" = Some total.
Proof.
  destruct (total_is_sum three_tickets) as [Hsum Htotal].
  destruct Htotal as [st Hst].
  { repeat constructor; by eexists. }
  destruct (Hsum st "Opened" Hst) as (total & H1 & H2).
  { by left. }
  exists st, total. split; [exact Hst |]. split; [exact H1 | exact H2].
Defined.

(** C7: three opened tickets of types [defect], [defect] and [task] give
    [Defects.Opened = 2], [Tasks.Opened = 1], [Total.Opened = 3] and zero
    everywhere else. In general a ticket of type [ty] adds one, under the
    label of its fetch, to the bucket [ty.capitalize() + 's'] when that is
    one of the six categories and to [Other] when not, and one to [Total];
    no other count changes, and the step does not raise. *)
Theorem ticket_buckets :
  on_result (λ st, counts_of (ticket_summary st)) (count_results tally0 three_tickets)
  = Ok [("Enhancements", Some 0, Some 0); ("Defects", Some 2, Some 0);
        ("Tasks", Some 1, Some 0); ("Regressions", Some 0, Some 0);
        ("Undecideds", Some 0, Some 0); ("Other", Some 0, Some 0);
        ("Total", Some 3, Some 0)]%Z ∧
  (∀ pre what st t ty st',
     count_results tally0 pre = Ok st →
     t !! "type" = Some (PStr ty) →
     count_ticket what st t = Ok st' →
     ∀ category what',
       count (ticket_summary st') category what'
       = if decide (what' = what ∧ (category = bucket ty ∨ category = "Total"))
         then Z.succ <$> count (ticket_summary st) category what'
         else count (ticket_summary st) category what') ∧
  (∀ pre what st t ty,
     count_results tally0 pre = Ok st →
     what ∈ ["Opened"; "Closed"] →
     t !! "type" = Some (PStr ty) →
     ∃ st', count_ticket what st t = Ok st').
Proof.
  split; [| split].
  - vm_compute. reflexivity.
  - intros pre what st t ty st' Hpre Hty Hct.
    apply count_results_inv in Hpre as (Hkeys & _); [| apply summary_inv0].
    by destruct (count_ticket_counts what st st' t ty Hkeys Hty Hct).
  - intros pre what st t ty Hpre Hw Hty.
    apply (count_ticket_total what st t ty); [| done..].
    by apply (count_results_inv pre tally0 st summary_inv0).
Qed.

Lemma ticket_buckets_witness :
  ∃ st',
    count_ticket "Closed" tally0 {[ "type" := PStr "ENHANCEMENT" ]} = Ok st' ∧
    count (ticket_summary st') "Enhancements" "Closed" = Some 1%Z ∧
    count (ticket_summary st') "Total" "Closed" = Some 1%Z ∧
    count (ticket_summary st') "Other" "Closed" = Some 0%Z.
Proof.
  destruct (count_ticket_total "Closed" tally0 {[ "type" := PStr "ENHANCEMENT" ]}
              "ENHANCEMENT" summary_inv0) as [st' Hct].
  { rewrite !elem_of_cons. tauto. }
  { reflexivity. }
  exists st'. split; [exact Hct |].
  pose proof (proj1 (proj2 ticket_buckets) [] "Closed" tally0
                {[ "type" := PStr "ENHANCEMENT" ]} "ENHANCEMENT" st'
                eq_refl eq_refl Hct) as H.
  rewrite (H "Enhancements" "Closed"), (H "Total" "Closed"), (H "Other" "Closed").
  repeat split; by_evaluation.
Defined.

(** ** The pull-request classification *)

Lemma dict_of_list_snoc {V} (l : list V) (x : V) :
  dict_of_list (l ++ [x]) = append_item (dict_of_list l) x.
Proof. unfold dict_of_list. by rewrite foldl_snoc. Qed.

Lemma dict_of_list_facts {V} (l : list V) :
  size (dict_of_list l) = length l ∧
  (∀ i, dict_of_list l !! int_key i = l !! i) ∧
  (∀ k, is_Some (dict_of_list l !! k) → ∃ i, k = int_key i ∧ i < length l).
Proof.
  induction l as [|x l (Hsize & Hlook & Hkeys)] using rev_ind.
  - split; [done |]. split; [done |]. intros k [v Hv]. done.
  - rewrite dict_of_list_snoc. unfold append_item. rewrite Hsize.
    fold (int_key (length l)).
    assert (Hfresh : dict_of_list l !! int_key (length l) = None).
    { rewrite Hlook. by apply lookup_ge_None. }
    split; [| split].
    + rewrite map_size_insert_None by done. rewrite length_app, Hsize. simpl. lia.
    + intros i. rewrite lookup_insert. case_decide as Hi.
      * assert (i = length l) as -> by (unfold int_key in Hi; injection Hi; lia).
        by rewrite list_lookup_middle.
      * rewrite Hlook. destruct (decide (i < length l)).
        -- by rewrite lookup_app_l.
        -- rewrite !lookup_ge_None_2; [done | | lia].
           rewrite length_app. simpl.
           assert (i ≠ length l) by (intros ->; done). lia.
    + intros k. rewrite lookup_insert_is_Some. rewrite length_app. simpl.
      intros [<- | [_ Hk]].
      * exists (length l). split; [done | lia].
      * destruct (Hkeys k Hk) as (i & -> & Hi). exists i. split; [done | lia].
Qed.

(** The window of the report is fixed throughout. *)
Section window.
Context (start_day end_day : date).

Lemma classify_spec (state when : string) (pr : json_record) (pr_dict out : json_table) :
  classify start_day end_day state when pr pr_dict = Ok out →
  out = if bool_decide (pr !! "state" = Some (JStr (unicode state)))
           && in_window start_day end_day (pr !! when)
        then append_item pr_dict pr else pr_dict.
Proof.
  unfold classify. intros H.
  apply bind_Ok in H as (st & Hst & H). apply getitem_Ok in Hst. rewrite Hst.
  destruct (decide (st = JStr (unicode state))) as [-> | Hne].
  - rewrite bool_decide_eq_true_2 by done. cbn [andb].
    apply bind_Ok in H as (w & Hw & H). apply getitem_Ok in Hw. rewrite Hw.
    destruct w as [|z|u]; [by injection H as <- | done |].
    apply bind_Ok in H as (happened & Hh & H). unfold in_window. rewrite Hh.
    rewrite <- negb_orb.
    destruct (date_ltb _ _ || date_ltb _ _); by injection H as <-.
  - rewrite bool_decide_eq_false_2 by congruence. by injection H as <-.
Qed.

Lemma classify_total (state when : string) (pr : json_record) (pr_dict : json_table)
    (st : jval) :
  pr !! "state" = Some st →
  (st = JStr (unicode state) → field_ok (pr !! when)) →
  ∃ out, classify start_day end_day state when pr pr_dict = Ok out.
Proof.
  intros Hst Hfield. unfold classify, getitem. rewrite Hst. cbn [bind].
  destruct (decide (st = JStr (unicode state))) as [E | Hne]; [| eauto].
  destruct (Hfield E) as [-> | (u & happened & -> & Hh)]; cbn [bind]; [eauto |].
  rewrite Hh. cbn [bind]. destruct (date_ltb _ _ || date_ltb _ _); eauto.
Qed.

Lemma dict_of_list_filter {V} (keep : V → bool) (l : list V) (pr : V) :
  (if keep pr then append_item (dict_of_list l) pr else dict_of_list l)
  = dict_of_list (l ++ List.filter keep [pr]).
Proof.
  simpl. destruct (keep pr); [by rewrite dict_of_list_snoc | by rewrite app_nil_r].
Qed.

Lemma classify_all_spec (body : list json_record) :
  ∀ (l1 l2 : list json_record) (prs : json_table * json_table),
    classify_all start_day end_day body (dict_of_list l1, dict_of_list l2) = Ok prs →
    prs = (dict_of_list (l1 ++ List.filter (is_opened start_day end_day) body),
           dict_of_list (l2 ++ List.filter (is_completed start_day end_day) body)).
Proof.
  induction body as [|pr rest IH]; intros l1 l2 prs H; simpl in H.
  - injection H as <-. simpl. by rewrite !app_nil_r.
  - apply bind_Ok in H as (o & Ho & H). apply bind_Ok in H as (c & Hc & H).
    apply classify_spec in Ho, Hc. simpl in Ho, Hc.
    fold (is_opened start_day end_day pr) in Ho.
    fold (is_completed start_day end_day pr) in Hc.
    rewrite dict_of_list_filter in Ho. rewrite dict_of_list_filter in Hc. subst o c.
    apply IH in H as ->.
    change (pr :: rest) with ([pr] ++ rest).
    by rewrite !List.filter_app, !app_assoc.
Qed.

Lemma classify_all_total (body : list json_record) :
  Forall pr_ok body →
  ∀ prs, ∃ out, classify_all start_day end_day body prs = Ok out.
Proof.
  induction 1 as [|pr rest (st & Hst & Ho & Hc) _ IH]; intros prs; simpl; [eauto |].
  destruct (classify_total "open" "created_at" pr prs.1 st Hst Ho)
    as [o ->].
  destruct (classify_total "closed" "closed_at" pr prs.2 st Hst Hc)
    as [c ->].
  cbn [bind]. apply IH.
Qed.

Lemma opened_or_completed (pr : json_record) :
  is_opened start_day end_day pr && is_completed start_day end_day pr = false.
Proof.
  unfold is_opened, is_completed.
  destruct (pr !! "state") as [st|]; [| done].
  destruct (decide (st = JStr (unicode "open"))) as [-> | Hne].
  - rewrite (bool_decide_eq_false_2
               (Some (JStr (unicode "open")) = Some (JStr (unicode "closed"))))
      by discriminate.
    cbn [andb]. apply andb_false_r.
  - by rewrite bool_decide_eq_false_2 by congruence.
Qed.

End window.

(** C5: the loop of [summarize_github_prs] puts into the [Opened] dictionary
    exactly the records with state ["open"] and a [created_at] that is not
    null and dated within [start_day, end_day], and into the [Completed]
    one exactly those with state ["closed"] and such a [closed_at]: the
    [i]-th such record of the response is stored under the key [i], and
    the dictionary has no other entry. No record satisfies both predicates,
    so a record whose date is outside the window is in neither. The loop
    returns on every response whose records carry the fields it reads.
    A record with state ["open"] and [created_at] 2024-01-10T00:00:00Z is
    stored in [Opened] under the window 2024-01-08 to 2024-01-14, and
    stored nowhere when [created_at] is 2024-01-01T00:00:00Z. *)
Theorem pr_classification (start_day end_day : date) (body : list json_record) :
  (∀ prs,
     classify_all start_day end_day body (∅, ∅) = Ok prs →
     let opened := List.filter (is_opened start_day end_day) body in
     let completed := List.filter (is_completed start_day end_day) body in
     (∀ i, prs.1 !! int_key i = opened !! i) ∧ size prs.1 = length opened ∧
     (∀ i, prs.2 !! int_key i = completed !! i) ∧ size prs.2 = length completed) ∧
  (Forall pr_ok body → ∃ prs, classify_all start_day end_day body (∅, ∅) = Ok prs) ∧
  (∀ pr, is_opened start_day end_day pr && is_completed start_day end_day pr = false) ∧
  (∀ pr : json_record,
     pr !! "state" = Some (JStr (unicode "open")) →
     (pr !! "created_at" = Some (JStr (unicode "2024-01-10T00:00:00Z")) →
      classify_all (Date 2024 1 8) (Date 2024 1 14) [pr] (∅, ∅)
      = Ok ({[ PInt 0 := pr ]}, ∅)) ∧
     (pr !! "created_at" = Some (JStr (unicode "2024-01-01T00:00:00Z")) →
      classify_all (Date 2024 1 8) (Date 2024 1 14) [pr] (∅, ∅) = Ok (∅, ∅))).
Proof.
  split; [| split; [| split]].
  - intros prs H. apply (classify_all_spec start_day end_day body [] []) in H as ->.
    cbn [fst snd app].
    destruct (dict_of_list_facts (List.filter (is_opened start_day end_day) body))
      as (Hsize1 & Hlook1 & _).
    destruct (dict_of_list_facts (List.filter (is_completed start_day end_day) body))
      as (Hsize2 & Hlook2 & _).
    done.
  - intros Hok. by apply classify_all_total.
  - apply opened_or_completed.
  - intros pr Hst. split; intros Hat; simpl; unfold classify, getitem;
      rewrite Hst; cbn [bind]; rewrite decide_True by done; rewrite Hat; cbn [bind].
    + change (datetime_strptime (JStr (unicode "2024-01-10T00:00:00Z")))
        with (Ok (Datetime (Date 2024 1 10) 0 0 0)).
      cbn [bind]. rewrite decide_False by discriminate. reflexivity.
    + change (datetime_strptime (JStr (unicode "2024-01-01T00:00:00Z")))
        with (Ok (Datetime (Date 2024 1 1) 0 0 0)).
      cbn [bind]. rewrite decide_False by discriminate. reflexivity.
Qed.

Lemma sample_prs_classified :
  classify_all (Date 2024 1 8) (Date 2024 1 14) sample_prs (∅, ∅)
  = Ok (dict_of_list [pr_recent; pr_newer], dict_of_list [pr_merged]).
Proof. by_evaluation. Qed.

Lemma pr_classification_witness :
  ∃ prs,
    classify_all (Date 2024 1 8) (Date 2024 1 14) sample_prs (∅, ∅) = Ok prs ∧
    prs.1 !! PInt 0 = Some pr_recent ∧ prs.1 !! PInt 1 = Some pr_newer ∧
    size prs.1 = 2 ∧ prs.2 !! PInt 0 = Some pr_merged ∧ size prs.2 = 1.
Proof.
  destruct (pr_classification (Date 2024 1 8) (Date 2024 1 14) sample_prs)
    as (Hspec & _).
  eexists. split; [exact sample_prs_classified |].
  destruct (Hspec _ sample_prs_classified) as (H1 & Hs1 & H2 & Hs2).
  split; [exact (H1 0) |]. split; [exact (H1 1) |]. split; [exact Hs1 |].
  split; [exact (H2 0) | exact Hs2].
Defined.

(** ** The order of the pull-request tables *)

Lemma keys_dict_of_list {V} (l : list V) :
  keys (dict_of_list l) ≡ₚ int_key <$> seq 0 (length l).
Proof.
  destruct (dict_of_list_facts l) as (_ & Hlook & Hkeys).
  apply NoDup_Permutation.
  - apply NoDup_fst_map_to_list.
  - apply NoDup_fmap_2; [| apply NoDup_seq].
    intros i j H. unfold int_key in H. injection H. lia.
  - intros k. rewrite elem_of_keys, list_elem_of_fmap. split.
    + intros (i & -> & Hi)%Hkeys. exists i. split; [done |].
      apply elem_of_seq. lia.
    + intros (i & -> & Hi%elem_of_seq). rewrite Hlook.
      apply lookup_lt_is_Some. lia.
Qed.

Lemma insert_by_int_key (x : nat) (l : list nat) :
  insert_by descending (int_key x) (int_key <$> l) = int_key <$> insert_by downwards x l.
Proof.
  induction l as [|y l IH]; [done |].
  rewrite fmap_cons. cbn [insert_by].
  assert (descending (int_key x) (int_key y) = downwards x y) as ->.
  { unfold descending, downwards, int_key, cmp. apply Nat2Z.inj_compare. }
  destruct (downwards x y); try done. by rewrite IH, fmap_cons.
Qed.

Lemma sorted_int_key (l : list nat) :
  sorted descending (int_key <$> l) = int_key <$> sorted downwards l.
Proof.
  induction l as [|x l IH]; [done |].
  rewrite fmap_cons. cbn [sorted foldr].
  fold (sorted descending (int_key <$> l)). fold (sorted downwards l).
  by rewrite IH, insert_by_int_key.
Qed.

Lemma insert_by_Sorted (x : nat) (l : list nat) :
  Sorted ge l → Sorted ge (insert_by downwards x l).
Proof.
  induction 1 as [|y l Hl IH Hhd]; [by repeat constructor |].
  cbn [insert_by]. unfold downwards at 1.
  destruct (Nat.compare_spec y x) as [-> | Hlt | Hgt].
  - constructor; [by constructor |]. constructor. lia.
  - constructor; [by constructor |]. constructor. lia.
  - constructor; [done |].
    destruct l as [|z l]; cbn [insert_by]; [constructor; lia |].
    destruct (downwards x z); constructor; try lia.
    all: by inversion Hhd.
Qed.

Lemma sorted_Sorted (l : list nat) : Sorted ge (sorted downwards l).
Proof.
  induction l as [|x l IH]; [constructor |]. by apply insert_by_Sorted.
Qed.

Lemma countdown_Sorted (n : nat) : Sorted ge (rev (seq 0 n)).
Proof.
  induction n as [|n IH]; [constructor |].
  rewrite seq_S, rev_app_distr. simpl. constructor; [done |].
  destruct n as [|n]; [constructor |].
  rewrite seq_S, rev_app_distr. simpl. constructor. lia.
Qed.

Lemma sorted_countdown (l : list nat) (n : nat) :
  l ≡ₚ seq 0 n → sorted downwards l = rev (seq 0 n).
Proof.
  intros Hperm.
  assert (Transitive ge) by (intros x y z; lia).
  assert (AntiSymm (=) ge) by (intros x y; lia).
  apply (Sorted_unique ge); [apply sorted_Sorted | apply countdown_Sorted |].
  rewrite sorted_Permutation, Hperm. apply Permutation_rev.
Qed.

Lemma descending_keys {V} (l : list V) :
  sorted descending (keys (dict_of_list l)) = int_key <$> rev (seq 0 (length l)).
Proof.
  pose proof (keys_dict_of_list l) as Hperm.
  change (int_key <$> seq 0 (length l)) with (map int_key (seq 0 (length l))) in Hperm.
  apply Permutation_map_inv in Hperm as (l' & Hl' & Hperm).
  rewrite Hl'. change (map int_key l') with (int_key <$> l').
  rewrite sorted_int_key. f_equal. apply sorted_countdown. by symmetry.
Qed.

Lemma bug_list_formatter_key (r : pyval) (w : nat) : bug_list_formatter r w "" = Ok None.
Proof. reflexivity. Qed.

Lemma bug_list_formatter_cell (text : string) (w : nat) (c : string) :
  c ≠ "" → bug_list_formatter (PStr text) w c = Ok (Some (ljust text w)).
Proof. intros Hc. unfold bug_list_formatter. by rewrite truthy_nonempty. Qed.

Lemma rows_of_dict_of_list {V} (l : list V) :
  Forall2 (λ r pr, dict_of_list l !! r = Some pr)
    (int_key <$> rev (seq 0 (length l))) (rev l).
Proof.
  apply Forall2_fmap_l. rewrite !rev_alt. apply Forall2_reverse.
  destruct (dict_of_list_facts l) as (_ & Hlook & _).
  apply Forall2_same_length_lookup_2; [by rewrite length_seq |].
  intros i x pr [-> _]%lookup_seq Hpr. simpl. by rewrite Hlook.
Qed.

(** * Further properties *)

(** ** Parsing the tracker response *)

Lemma ticket_of_row_Ok (id summary type : string) (rest : list string) :
  ticket_of_row (id :: summary :: type :: rest) = Ok (ticket id summary type).
Proof. reflexivity. Qed.

Lemma ticket_of_row_short (t : list string) :
  length t < 3 → ticket_of_row t = Raise IndexError.
Proof. destruct t as [|a [|b [|c t]]]; simpl; intros; try done; lia. Qed.

Lemma long_row (t : list string) :
  3 ≤ length t → ∃ id summary type rest, t = id :: summary :: type :: rest.
Proof. destruct t as [|a [|b [|c t]]]; simpl; intros; try lia. eauto. Qed.

Lemma tickets_of_rows_Ok (rows : list (list string)) :
  Forall (λ t : list string, 3 ≤ length t) rows →
  ∃ tickets,
    tickets_of_rows rows = Ok tickets ∧
    Forall2 (λ t x, ∃ id summary type rest,
                      t = id :: summary :: type :: rest ∧ x = ticket id summary type)
            rows tickets.
Proof.
  induction 1 as [|t rows Ht _ (tickets & IH & Hall)]; simpl.
  - exists []. split; [done | constructor].
  - destruct (long_row t Ht) as (id & s & ty & rest & ->).
    rewrite ticket_of_row_Ok. cbn [bind]. rewrite IH. cbn [bind].
    eexists. split; [done |]. constructor; [| done]. by exists id, s, ty, rest.
Qed.

Lemma tickets_of_rows_short (rows : list (list string)) :
  Exists (λ t : list string, length t < 3) rows →
  tickets_of_rows rows = Raise IndexError.
Proof.
  induction rows as [|t rows IH]; intros Hex; [by apply Exists_nil in Hex |].
  simpl. destruct (decide (length t < 3)) as [Hshort | Hlong].
  - by rewrite ticket_of_row_short.
  - apply Exists_cons in Hex as [? | Hex]; [done |].
    destruct (long_row t) as (id & s & ty & rest & ->); [lia |].
    rewrite ticket_of_row_Ok. cbn [bind]. by rewrite IH.
Qed.

Lemma format_trac_tickets_Ok (what : string) (body : list (list string)) :
  well_formed_body body ↔ ∃ tickets, format_trac_tickets what body = Ok (what, tickets).
Proof.
  split.
  - intros (header & rows & -> & Hrows). simpl.
    destruct (tickets_of_rows_Ok rows Hrows) as (tickets & -> & _). cbn [bind]. eauto.
  - intros [tickets H]. destruct body as [|header rows]; [done |].
    exists header, rows. split; [done |].
    apply Forall_forall. intros t Ht.
    destruct (decide (3 ≤ length t)) as [? | Hshort]; [done |].
    simpl in H. rewrite tickets_of_rows_short in H; [done |].
    apply Exists_exists. exists t. split; [done | lia].
Qed.

(** X1: [format_trac_tickets] skips the first row, whatever it holds, and
    turns every other row into a ticket made of its first three fields and
    the URL of its id, in the order of the response, under the label it was
    given; further fields are ignored. It raises [StopIteration] on a
    response without rows and [IndexError] when a row after the first has
    fewer than three fields. *)
Theorem format_trac_tickets_rows (what : string) (header : list string)
    (rows : list (list string)) :
  format_trac_tickets what [] = Raise StopIteration ∧
  (Forall (λ t : list string, 3 ≤ length t) rows →
   ∃ tickets,
     format_trac_tickets what (header :: rows) = Ok (what, tickets) ∧
     Forall2 (λ t x, ∃ id summary type rest,
                       t = id :: summary :: type :: rest ∧ x = ticket id summary type)
             rows tickets) ∧
  (Exists (λ t : list string, length t < 3) rows →
   format_trac_tickets what (header :: rows) = Raise IndexError).
Proof.
  split; [done |]. split.
  - intros Hrows. simpl.
    destruct (tickets_of_rows_Ok rows Hrows) as (tickets & -> & Hall). cbn [bind]. eauto.
  - intros Hex. simpl. by rewrite tickets_of_rows_short.
Qed.

Lemma format_trac_tickets_rows_witness :
  format_trac_tickets "Closed" tracker_response
  = Ok ("Closed", [ticket "3301" "Crash on reconfig" "defect"]) ∧
  format_trac_tickets "Closed" [["id"; "summary"]; ["3301"; "Crash on reconfig"]]
  = Raise IndexError.
Proof.
  split.
  - destruct (proj1 (proj2 (format_trac_tickets_rows "Closed"
                 ["id"; "summary"; "type"; "status"]
                 [["3301"; "Crash on reconfig"; "defect"; "new"]])))
      as (tickets & H & Hall).
    { repeat constructor. }
    unfold tracker_response. rewrite H. do 2 f_equal.
    apply Forall2_cons_inv_l in Hall as (x & l & (? & ? & ? & ? & [= <- <- <- <-] & ->) & Hl & ->).
    by apply Forall2_nil_inv_l in Hl as ->.
  - apply (proj2 (proj2 (format_trac_tickets_rows "Closed" ["id"; "summary"]
                           [["3301"; "Crash on reconfig"]]))).
    apply Exists_cons_hd. simpl. lia.
Defined.

(** ** The table renderer: what it raises *)

Lemma cell_Some {V} (d : gmap pyval (gmap string V)) (r : pyval) (c : string) (v : V) :
  cell d r c = Some v ↔ ∃ row, d !! r = Some row ∧ row !! c = Some v.
Proof.
  unfold cell. destruct (d !! r) as [row|]; simpl.
  - split; [eauto |]. by intros (row' & [= <-] & H).
  - split; [done |]. by intros (row' & ? & _).
Qed.

Lemma cell_lookups {V} (d : gmap pyval (gmap string V)) (r : pyval) (c : string)
    {A} (k : V → res A) :
  (row <- getitem d r;; v <- getitem row c;; k v)
  = match cell d r c with
    | Some v => k v
    | None => Raise KeyError
    end.
Proof.
  unfold cell, getitem. destruct (d !! r) as [row|]; simpl; [| done].
  by destruct (row !! c).
Qed.

Lemma cell_text_cell (d : table) (r : pyval) (c : string) (v : pyval) :
  cell d r c = Some v → cell_text d r c = str v.
Proof. intros (row & Hr & Hc)%cell_Some. by apply (cell_text_lookup d r c row v). Qed.

Lemma measure_cols_cells (d : table) (r : pyval) (cols : list string) :
  ∀ (pre ws : list nat) (k : nat),
    length ws = length cols →
    measure_cols d r cols (length pre) (pre ++ ws ++ [k])
    = if decide (Forall (λ c, is_Some (cell d r c)) cols)
      then Ok (pre ++ zip_with (λ c w, max w (len (cell_text d r c))) cols ws ++ [k])
      else Raise KeyError.
Proof.
  induction cols as [|c cs IH]; intros pre ws k Hlen.
  - destruct ws; [| done]. by rewrite decide_True.
  - destruct ws as [|w ws]; [done |]. simpl in Hlen. injection Hlen as Hlen.
    cbn [measure_cols app]. rewrite list_getitem_middle. cbn [bind].
    rewrite cell_lookups. destruct (cell d r c) as [v|] eqn:Hv.
    + cbn [str_of pyval_printable bind]. rewrite list_setitem_middle. cbn [bind].
      specialize (IH (pre ++ [max w (len (str v))]) ws k Hlen).
      rewrite length_app in IH. simpl in IH. rewrite Nat.add_1_r in IH.
      rewrite <- app_assoc in IH. simpl in IH. rewrite IH.
      destruct (decide (Forall (λ c', is_Some (cell d r c')) cs)) as [Hcs | Hcs].
      * rewrite decide_True by (constructor; [by rewrite Hv | done]).
        rewrite <- app_assoc. simpl. by rewrite (cell_text_cell d r c v).
      * rewrite decide_False; [done |]. by intros [_ ?]%Forall_cons.
    + rewrite decide_False; [done |].
      intros [[v Hv'] _]%Forall_cons. congruence.
Qed.

Lemma measure_rows_cells (d : table) (cols : list string) (rows : list pyval) :
  ∀ (ws : list nat) (k : nat),
    length ws = length cols →
    (cells_exist d rows cols → ∃ ws', measure_rows d rows cols (ws ++ [k]) = Ok ws') ∧
    (¬ cells_exist d rows cols → measure_rows d rows cols (ws ++ [k]) = Raise KeyError).
Proof.
  induction rows as [|r rs IH]; intros ws k Hlen.
  - split; [simpl; eauto |]. intros H. destruct H. intros r c Hr. by apply elem_of_nil in Hr.
  - cbn [measure_rows]. rewrite index_neg1_snoc. cbn [bind].
    rewrite list_getitem_middle. cbn [bind].
    rewrite list_setitem_middle. cbn [bind].
    pose proof (measure_cols_cells d r cols [] ws (max k (len (str r))) Hlen) as Hc.
    simpl in Hc. rewrite Hc. clear Hc.
    destruct (decide (Forall (λ c, is_Some (cell d r c)) cols)) as [Hr | Hr]; cbn [bind].
    + destruct (IH (zip_with (λ c w, max w (len (cell_text d r c))) cols ws)
                   (max k (len (str r)))) as [IH1 IH2].
      { rewrite length_zip_with. lia. }
      split.
      * intros Hall. apply IH1. intros r' c Hr' Hc. apply Hall; [by right | done].
      * intros Hno. apply IH2. intros Hrs. apply Hno.
        intros r' c [-> | Hr']%elem_of_cons Hc; [| by apply Hrs].
        by eapply Forall_forall in Hr.
    + split; [| done]. intros Hall. destruct Hr.
      apply Forall_forall. intros c Hc. apply Hall; [by left | done].
Qed.

Lemma measure_cells (d : table) (rows : list pyval) (cols : list string) :
  (cells_exist d rows cols → ∃ ws, measure d rows cols = Ok ws) ∧
  (¬ cells_exist d rows cols → measure d rows cols = Raise KeyError).
Proof. unfold measure. apply measure_rows_cells. by rewrite length_fmap. Qed.

Lemma measure_Ok_cells (d : table) (rows : list pyval) (cols : list string) (ws : list nat) :
  measure d rows cols = Ok ws → cells_exist d rows cols.
Proof.
  intros Hm r c Hr Hc.
  apply measure_spec in Hm as [_ Hall].
  destruct (Hall r c Hr Hc) as (row & v & Hrow & Hv).
  exists v. apply cell_Some. eauto.
Qed.



Lemma row_cells_default_cells (d : table) (r : pyval) (cols : list string) :
  (∀ c, c ∈ cols → is_Some (cell d r c)) →
  ∀ (pre ws rest : list nat),
    length ws = length cols →
    row_cells default_format_cell d r cols (length pre) (pre ++ ws ++ rest)
    = Ok (zip_with (λ c w, default_cell c (cell_text d r c) w) cols ws).
Proof.
  induction cols as [|c cs IH]; intros Hcols pre ws rest Hlen.
  - by destruct ws.
  - destruct ws as [|w ws]; [done |]. simpl in Hlen. injection Hlen as Hlen.
    cbn [row_cells app]. rewrite cell_lookups.
    destruct (Hcols c) as [v Hv]; [by left |]. rewrite Hv.
    cbn [str_of pyval_printable bind]. rewrite list_getitem_middle. cbn [bind].
    rewrite default_format_cell_str. cbn [bind].
    specialize (IH (λ c' Hc', Hcols c' (list_elem_of_further _ _ _ Hc'))
                   (pre ++ [w]) ws rest Hlen).
    rewrite length_app in IH. simpl in IH. rewrite Nat.add_1_r in IH.
    rewrite <- app_assoc in IH. simpl in IH. rewrite IH. cbn [bind zip_with].
    by rewrite (cell_text_cell d r c v).
Qed.

Lemma row_line_default_cells (d : table) (cols : list string) (ws : list nat) (k : nat)
    (padding : string) (s : string) :
  length ws = length cols →
  (∀ c, c ∈ cols → is_Some (cell d (PStr s) c)) →
  row_line default_format_cell d cols (ws ++ [k]) padding (PStr s)
  = Ok (join padding
          (skip_nones (Some (ljust s k)
                       :: zip_with (λ c w, default_cell c (cell_text d (PStr s) c) w)
                            cols ws))).
Proof.
  intros Hlen Hcols. unfold row_line. rewrite index_neg1_snoc. cbn [bind].
  rewrite list_getitem_middle. cbn [bind].
  rewrite default_format_cell_str. cbn [bind truthy].
  pose proof (row_cells_default_cells d (PStr s) cols Hcols [] ws [k] Hlen) as Hc.
  simpl in Hc. by rewrite Hc.
Qed.

Lemma row_line_default_key (d : table) (cols : list string) (ws : list nat) (k : nat)
    (padding : string) (r : pyval) :
  (∀ s, r ≠ PStr s) →
  row_line default_format_cell d cols (ws ++ [k]) padding r = Raise AttributeError.
Proof.
  intros Hr. unfold row_line. rewrite index_neg1_snoc. cbn [bind].
  rewrite list_getitem_middle. cbn [bind].
  destruct r as [|z|s]; [done | done |]. by destruct (Hr s).
Qed.




(** ** The table renderer: aligned lines *)

Lemma Ok_inj {A} (a b : A) : Ok a = Ok b → a = b.
Proof. by intros [= ->]. Qed.

Lemma len_join (sep x : string) (xs : list string) :
  len (join sep (x :: xs)) = len x + sum_list ((λ y, len sep + len y) <$> xs).
Proof.
  revert x. induction xs as [|y ys IH]; intros x; [simpl; lia |].
  change (join sep (x :: y :: ys)) with (x +:+ sep +:+ join sep (y :: ys)).
  rewrite !len_app, IH, fmap_cons. simpl. lia.
Qed.

Lemma len_default_cells (p : nat) (text : string → string) (width : string → nat)
    (cols : list string) :
  (∀ c, c ∈ cols → len (text c) ≤ width c) →
  sum_list ((λ y, p + len y)
            <$> skip_nones (zip_with (λ c w, default_cell c (text c) w) cols (width <$> cols)))
  = sum_list ((λ c, p + width c) <$> cols).
Proof.
  induction cols as [|c cs IH]; intros Hle; [done |].
  rewrite !fmap_cons. cbn [zip_with]. unfold default_cell at 1.
  change (skip_nones (Some ?x :: ?l)) with (x :: skip_nones l).
  rewrite fmap_cons. cbn [sum_list sum_list_with].
  rewrite IH by (intros c' Hc'; apply Hle; by right).
  assert (len (text c) ≤ width c) by (apply Hle; by left).
  destruct (truthy c); [rewrite len_rjust | rewrite len_ljust]; simpl; lia.
Qed.

Lemma header_line_default_len (d : table) (rows : list pyval) (cols : list string)
    (n : nat) (th : string) :
  header_line default_format_cell cols
    ((width_of d rows <$> cols) ++ [key_width rows]) (spaces n) = Ok th →
  len th = line_width d rows cols n.
Proof.
  unfold header_line. rewrite index_neg1_snoc. cbn [bind].
  rewrite list_getitem_middle. cbn [bind].
  rewrite default_format_cell_str. cbn [bind truthy].
  pose proof (header_cells_default cols [] (width_of d rows <$> cols) [key_width rows]) as Hc.
  simpl in Hc. rewrite Hc by (by rewrite length_fmap). cbn [bind].
  intros <-%Ok_inj.
  change (skip_nones (Some ?x :: ?l)) with (x :: skip_nones l).
  rewrite len_join, len_spaces, ljust_empty, len_spaces.
  rewrite (len_default_cells n (λ c, c) (width_of d rows)); [done |].
  intros c _. apply foldl_max_ge_init.
Qed.

Lemma row_lines_default_len (d : table) (rows : list pyval) (cols : list string)
    (n : nat) (rs : list pyval) (body : list string) :
  rs ⊆ rows →
  cells_exist d rs cols →
  row_lines default_format_cell d cols
    ((width_of d rows <$> cols) ++ [key_width rows]) (spaces n) rs = Ok body →
  Forall (λ line, len line = line_width d rows cols n) body.
Proof.
  revert body. induction rs as [|r rs IH]; intros body Hsub Hcells Hbody.
  - simpl in Hbody. injection Hbody as <-. constructor.
  - cbn [row_lines] in Hbody. destruct r as [|z|s].
    + by rewrite row_line_default_key in Hbody.
    + by rewrite row_line_default_key in Hbody.
    + rewrite row_line_default_cells in Hbody; [| by rewrite length_fmap |].
      2:{ intros c Hc. apply Hcells; [by left | done]. }
      cbn [bind] in Hbody. unbind Hbody as rest Hrest. apply Ok_inj in Hbody as <-.
      assert (Hin : PStr s ∈ rows) by (apply Hsub; by left).
      constructor.
      * change (skip_nones (Some ?x :: ?l)) with (x :: skip_nones l).
        rewrite len_join, len_spaces, len_ljust.
        rewrite (len_default_cells n (cell_text d (PStr s)) (width_of d rows)).
        -- unfold line_width.
           pose proof (foldl_max_ge_elem (λ r, len (str r)) rows 0 (PStr s) Hin) as Hk.
           simpl in Hk. fold (key_width rows) in Hk. lia.
        -- intros c _.
           apply (foldl_max_ge_elem (λ r, len (cell_text d r c)) rows (len c) _ Hin).
      * apply IH; [| | done].
        -- intros r Hr. apply Hsub. by right.
        -- intros r c Hr Hc. apply Hcells; [by right | done].
Qed.

(** X4: with the default formatter every line of the table, the header
    included, has the same length: the width of the row-key column plus,
    for each column, the padding and the width of the column. The columns
    therefore line up, whatever the texts and labels are. *)
Theorem lines_same_length (d : table) (show_header : bool)
    (row_order : option (list pyval)) (col_order : option (list string))
    (col_padding : Z) (cols : list string) (lines : list string) :
  table_lines d show_header None row_order col_order col_padding = Ok lines →
  cols_of d (rows_of d row_order) col_order = Ok cols →
  Forall (λ line, len line
                  = line_width d (rows_of d row_order) cols (Z.to_nat col_padding))
         lines.
Proof.
  intros Hlines Hcols. unfold table_lines, format_cell_of in Hlines.
  rewrite Hcols in Hlines. cbn [bind] in Hlines.
  unbind Hlines as ws Hws.
  pose proof (measure_Ok_cells _ _ _ _ Hws) as Hcells.
  apply measure_spec in Hws as [-> _].
  unbind Hlines as head Hhead. unbind Hlines as body Hbody. injection Hlines as <-.
  apply Forall_app. split.
  - destruct show_header.
    + unbind Hhead as th Hth. injection Hhead as <-.
      constructor; [| done]. by apply header_line_default_len in Hth.
    + injection Hhead as <-. constructor.
  - by apply (row_lines_default_len d (rows_of d row_order) cols _ (rows_of d row_order)).
Qed.

Lemma lines_same_length_witness :
  ∃ lines,
    table_lines sample_table true None None None 1 = Ok lines ∧
    Forall (λ line, len line = 18) lines.
Proof.
  assert (H : table_lines sample_table true None None None 1
              = Ok ["     Closed Opened"; "1000      3     12"; "7       100      5"])
    by by_evaluation.
  eexists. split; [exact H |].
  apply (lines_same_length sample_table true None None 1 ["Closed"; "Opened"] _ H).
  by_evaluation.
Defined.

(** ** The table renderer: what the widths depend on *)

Lemma foldl_max_Permutation {A} (f : A → nat) (l l' : list A) :
  l ≡ₚ l' → ∀ w, foldl (λ w x, max w (f x)) w l = foldl (λ w x, max w (f x)) w l'.
Proof.
  induction 1 as [|x l l' _ IH|x y l|l1 l2 l3 _ IH1 _ IH2]; intros w; simpl.
  - done.
  - apply IH.
  - f_equal. lia.
  - by rewrite IH1.
Qed.

(** X5: the widths do not depend on the order of the rows: if the width
    loop succeeds on a list of rows, it gives the same widths on every
    rearrangement of that list. *)
Theorem widths_ignore_row_order (d : table) (rows rows' : list pyval)
    (cols : list string) (ws : list nat) :
  rows ≡ₚ rows' →
  measure d rows cols = Ok ws →
  measure d rows' cols = Ok ws.
Proof.
  intros Hperm Hws.
  pose proof (measure_Ok_cells _ _ _ _ Hws) as Hcells.
  destruct (proj1 (measure_cells d rows' cols)) as [ws' Hws'].
  { intros r c Hr Hc. apply Hcells; [by rewrite Hperm | done]. }
  rewrite Hws'. f_equal.
  apply measure_spec in Hws as [-> _]. apply measure_spec in Hws' as [-> _].
  f_equal.
  - apply list_fmap_ext. intros _ c _. unfold width_of.
    symmetry. by apply (foldl_max_Permutation (λ r, len (cell_text d r c))).
  - f_equal. unfold key_width. symmetry.
    by apply (foldl_max_Permutation (λ r, len (str r))).
Qed.

Lemma widths_ignore_row_order_witness :
  measure sample_table [PStr "7"; PStr "1000"] ["Closed"; "Opened"] = Ok [6; 6; 4].
Proof.
  apply (widths_ignore_row_order sample_table [PStr "1000"; PStr "7"]).
  - apply Permutation_swap.
  - by_evaluation.
Defined.

Section frame.
Context `{Printable V, Printable V'} (f : formatter)
  (d : gmap pyval (gmap string V)) (d' : gmap pyval (gmap string V')).

Lemma measure_cols_frame (r : pyval) (cols : list string) :
  (∀ c, c ∈ cols → str_of <$> cell d r c = str_of <$> cell d' r c) →
  ∀ i ws, measure_cols d r cols i ws = measure_cols d' r cols i ws.
Proof.
  induction cols as [|c cs IH]; intros Hcols i ws; [done |].
  cbn [measure_cols].
  destruct (list_getitem ws i) as [w|]; [| done]. cbn [bind].
  rewrite !cell_lookups. pose proof (Hcols c (list_elem_of_here _ _)) as Hc.
  destruct (cell d r c) as [v|], (cell d' r c) as [v'|]; try done.
  injection Hc as ->.
  destruct (str_of v') as [text|]; [| done]. cbn [bind].
  destruct (list_setitem ws i _) as [ws1|]; [| done]. cbn [bind].
  apply IH. intros c' Hc'. apply Hcols. by right.
Qed.

Lemma measure_rows_frame (rows : list pyval) (cols : list string) :
  (∀ r c, r ∈ rows → c ∈ cols → str_of <$> cell d r c = str_of <$> cell d' r c) →
  ∀ ws, measure_rows d rows cols ws = measure_rows d' rows cols ws.
Proof.
  induction rows as [|r rs IH]; intros Hcells ws; [done |].
  cbn [measure_rows].
  destruct (index_neg1 ws) as [j|]; [| done]. cbn [bind].
  destruct (list_getitem ws j) as [w|]; [| done]. cbn [bind].
  destruct (list_setitem ws j _) as [ws1|]; [| done]. cbn [bind].
  rewrite (measure_cols_frame r cols) by (intros c Hc; apply Hcells; [by left | done]).
  destruct (measure_cols d' r cols 0 ws1) as [ws2|]; [| done]. cbn [bind].
  apply IH. intros r' c Hr' Hc. apply Hcells; [by right | done].
Qed.

Lemma row_cells_frame (r : pyval) (cols : list string) :
  (∀ c, c ∈ cols → str_of <$> cell d r c = str_of <$> cell d' r c) →
  ∀ i ws, row_cells f d r cols i ws = row_cells f d' r cols i ws.
Proof.
  induction cols as [|c cs IH]; intros Hcols i ws; [done |].
  cbn [row_cells]. rewrite !cell_lookups.
  pose proof (Hcols c (list_elem_of_here _ _)) as Hc.
  destruct (cell d r c) as [v|], (cell d' r c) as [v'|]; try done.
  injection Hc as ->.
  destruct (str_of v') as [text|]; [| done]. cbn [bind].
  destruct (list_getitem ws i) as [w|]; [| done]. cbn [bind].
  destruct (f (PStr text) w c) as [x|]; [| done]. cbn [bind].
  rewrite IH; [done |]. intros c' Hc'. apply Hcols. by right.
Qed.

Lemma row_lines_frame (rows : list pyval) (cols : list string) (ws : list nat)
    (padding : string) :
  (∀ r c, r ∈ rows → c ∈ cols → str_of <$> cell d r c = str_of <$> cell d' r c) →
  row_lines f d cols ws padding rows = row_lines f d' cols ws padding rows.
Proof.
  induction rows as [|r rs IH]; intros Hcells; [done |].
  cbn [row_lines]. unfold row_line.
  rewrite (row_cells_frame r cols) by (intros c Hc; apply Hcells; [by left | done]).
  rewrite IH; [done |]. intros r' c Hr' Hc. apply Hcells; [by right | done].
Qed.

End frame.

(** Two tables, of any cells, on whose listed cells [str] gives the same
    give the same result. *)
Lemma tablify_dict_same_texts `{Printable V, Printable V'}
    (d : gmap pyval (gmap string V)) (d' : gmap pyval (gmap string V'))
    (show_header : bool) (field_formatter : option formatter)
    (rows : list pyval) (cols : list string) (col_padding : Z) :
  (∀ r c, r ∈ rows → c ∈ cols → str_of <$> cell d r c = str_of <$> cell d' r c) →
  tablify_dict d show_header field_formatter (Some rows) (Some cols) col_padding
  = tablify_dict d' show_header field_formatter (Some rows) (Some cols) col_padding.
Proof.
  intros Hcells. unfold tablify_dict, table_lines, rows_of, cols_of, measure.
  cbn [bind]. rewrite (measure_rows_frame d d' rows cols Hcells).
  destruct (measure_rows d' rows cols _) as [ws|]; [| done]. cbn [bind].
  by rewrite (row_lines_frame _ d d' rows cols ws _ Hcells).
Qed.

(** X6: with the rows and the columns given, [tablify_dict] reads nothing
    but the cells they name: two mappings that agree on those cells (they
    may differ in other rows, in other columns, or in having a listed row
    at all when no cell of it is there) give the same result, be it a table
    or an exception, for every formatter, header flag and padding. *)
Theorem tablify_dict_frame (d d' : table) (show_header : bool)
    (field_formatter : option formatter) (rows : list pyval) (cols : list string)
    (col_padding : Z) :
  (∀ r c, r ∈ rows → c ∈ cols → cell d r c = cell d' r c) →
  tablify_dict d show_header field_formatter (Some rows) (Some cols) col_padding
  = tablify_dict d' show_header field_formatter (Some rows) (Some cols) col_padding.
Proof.
  intros Hcells. apply tablify_dict_same_texts.
  intros r c Hr Hc. by rewrite Hcells.
Qed.

Lemma tablify_dict_frame_witness :
  tablify_dict sample_table true None (Some [PStr "7"]) (Some ["Opened"]) 1
  = tablify_dict {[ PStr "7" := {[ "Opened" := PInt 5 ]} ]} true None
      (Some [PStr "7"]) (Some ["Opened"]) 1.
Proof.
  apply tablify_dict_frame. intros r c Hr Hc.
  apply list_elem_of_singleton in Hr as ->. apply list_elem_of_singleton in Hc as ->.
  by_evaluation.
Defined.

(** ** Itemized lists *)

Lemma insert_by_int_key_up (x : nat) (l : list nat) :
  insert_by cmp (int_key x) (int_key <$> l) = int_key <$> insert_by upwards x l.
Proof.
  induction l as [|y l IH]; [done |].
  rewrite fmap_cons. cbn [insert_by].
  assert (cmp (int_key x) (int_key y) = upwards x y) as ->.
  { unfold upwards, int_key, cmp. apply Nat2Z.inj_compare. }
  destruct (upwards x y); try done. by rewrite IH, fmap_cons.
Qed.

Lemma sorted_int_key_up (l : list nat) :
  sorted cmp (int_key <$> l) = int_key <$> sorted upwards l.
Proof.
  induction l as [|x l IH]; [done |].
  rewrite fmap_cons. cbn [sorted foldr].
  fold (sorted cmp (int_key <$> l)). fold (sorted upwards l).
  by rewrite IH, insert_by_int_key_up.
Qed.

Lemma insert_by_Sorted_up (x : nat) (l : list nat) :
  Sorted le l → Sorted le (insert_by upwards x l).
Proof.
  induction 1 as [|y l Hl IH Hhd]; [by repeat constructor |].
  cbn [insert_by]. unfold upwards at 1.
  destruct (Nat.compare_spec x y) as [-> | Hlt | Hgt].
  - constructor; [by constructor |]. constructor. lia.
  - constructor; [by constructor |]. constructor. lia.
  - constructor; [done |].
    destruct l as [|z l]; cbn [insert_by]; [constructor; lia |].
    destruct (upwards x z); constructor; try lia.
    all: by inversion Hhd.
Qed.

Lemma sorted_Sorted_up (l : list nat) : Sorted le (sorted upwards l).
Proof.
  induction l as [|x l IH]; [constructor |]. by apply insert_by_Sorted_up.
Qed.

Lemma seq_Sorted (j n : nat) : Sorted le (seq j n).
Proof.
  revert j. induction n as [|n IH]; intros j; [constructor |].
  simpl. constructor; [apply IH |]. destruct n; constructor. lia.
Qed.

Lemma ascending_keys (l : list record) :
  sorted cmp (keys (dict_of_list l)) = int_key <$> seq 0 (length l).
Proof.
  pose proof (keys_dict_of_list l) as Hperm.
  change (int_key <$> seq 0 (length l)) with (map int_key (seq 0 (length l))) in Hperm.
  apply Permutation_map_inv in Hperm as (l' & Hl' & Hperm).
  rewrite Hl'. change (map int_key l') with (int_key <$> l').
  rewrite sorted_int_key_up. f_equal.
  assert (Transitive le) by (intros x y z; lia).
  assert (AntiSymm (=) le) by (intros x y; lia).
  apply (Sorted_unique le); [apply sorted_Sorted_up | apply seq_Sorted |].
  by rewrite sorted_Permutation.
Qed.

Lemma keys_of_dict_of_list (l : list record) :
  Forall2 (λ r t, dict_of_list l !! r = Some t) (int_key <$> seq 0 (length l)) l.
Proof.
  apply Forall2_fmap_l.
  destruct (dict_of_list_facts l) as (_ & Hlook & _).
  apply Forall2_same_length_lookup_2; [by rewrite length_seq |].
  intros i x t [-> _]%lookup_seq Ht. simpl. by rewrite Hlook.
Qed.

Lemma row_cells_bug_list (d : table) (r : pyval) (cols : list string) :
  Forall (λ c, c ≠ "") cols →
  (∀ c, c ∈ cols → is_Some (cell d r c)) →
  ∀ (pre ws rest : list nat),
    length ws = length cols →
    row_cells bug_list_formatter d r cols (length pre) (pre ++ ws ++ rest)
    = Ok (zip_with (λ c w, Some (ljust (cell_text d r c) w)) cols ws).
Proof.
  induction 1 as [|c cs Hc _ IH]; intros Hcols pre ws rest Hlen.
  - by destruct ws.
  - destruct ws as [|w ws]; [done |]. simpl in Hlen. injection Hlen as Hlen.
    cbn [row_cells app]. rewrite cell_lookups.
    destruct (Hcols c) as [v Hv]; [by left |]. rewrite Hv.
    cbn [str_of pyval_printable bind]. rewrite list_getitem_middle. cbn [bind].
    rewrite bug_list_formatter_cell by done. cbn [bind].
    specialize (IH (λ c' Hc', Hcols c' (list_elem_of_further _ _ _ Hc'))
                   (pre ++ [w]) ws rest Hlen).
    rewrite length_app in IH. simpl in IH. rewrite Nat.add_1_r in IH.
    rewrite <- app_assoc in IH. simpl in IH. rewrite IH. cbn [bind zip_with].
    by rewrite (cell_text_cell d r c v).
Qed.

Lemma skip_nones_ljust (text : string → string) (width : string → nat) (cols : list string) :
  skip_nones (zip_with (λ c w, Some (ljust (text c) w)) cols (width <$> cols))
  = (λ c, ljust (text c) (width c)) <$> cols.
Proof.
  induction cols as [|c cs IH]; [done |].
  rewrite !fmap_cons. cbn [zip_with].
  change (skip_nones (Some ?x :: ?l)) with (x :: skip_nones l). by rewrite IH.
Qed.

Lemma row_lines_bug_list (d : table) (rows : list pyval) (cols : list string)
    (padding : string) (rs : list pyval) :
  Forall (λ c, c ≠ "") cols →
  cells_exist d rs cols →
  row_lines bug_list_formatter d cols
    ((width_of d rows <$> cols) ++ [key_width rows]) padding rs
  = Ok ((λ r, join padding ((λ c, ljust (cell_text d r c) (width_of d rows c)) <$> cols))
        <$> rs).
Proof.
  intros Hne. induction rs as [|r rs IH]; intros Hcells; [done |].
  cbn [row_lines]. unfold row_line at 1. rewrite index_neg1_snoc. cbn [bind].
  rewrite list_getitem_middle. cbn [bind].
  rewrite bug_list_formatter_key. cbn [bind].
  pose proof (row_cells_bug_list d r cols Hne) as Hc.
  specialize (Hc (λ c Hc', Hcells r c (list_elem_of_here _ _) Hc')
                 [] (width_of d rows <$> cols) [key_width rows]).
  simpl in Hc. rewrite Hc by (by rewrite length_fmap). cbn [bind].
  rewrite IH by (intros r' c Hr' Hc'; apply Hcells; [by right | done]).
  cbn [bind]. rewrite fmap_cons. do 3 f_equal.
  change (skip_nones (None :: ?l)) with (skip_nones l).
  apply skip_nones_ljust.
Qed.

Lemma foldl_max_Forall2 {A B} (f : A → nat) (g : B → nat) (l : list A) (k : list B) :
  Forall2 (λ x y, f x = g y) l k →
  ∀ w, foldl (λ w x, max w (f x)) w l = foldl (λ w y, max w (g y)) w k.
Proof. induction 1 as [|x y l k Hxy _ IH]; intros w; simpl; [done |]. by rewrite Hxy, IH. Qed.

Lemma fmap_Forall2 {A B C} (f : A → C) (g : B → C) (l : list A) (k : list B) :
  Forall2 (λ x y, f x = g y) l k → f <$> l = g <$> k.
Proof. induction 1 as [|x y l k Hxy _ IH]; [done |]. by rewrite !fmap_cons, Hxy, IH. Qed.

Lemma cell_text_field (d : table) (r : pyval) (t : record) (c : string) :
  d !! r = Some t → cell_text d r c = field_text t c.
Proof. intros Hr. unfold cell_text, field_text. by rewrite Hr. Qed.

(** The table of line 130, for a dictionary built by [d[len(d)] = x]. *)
Lemma itemized_table (l : list record) (cols : list string) (col_padding : Z) :
  Forall (λ c, c ≠ "") cols →
  Forall (λ t : record, Forall (λ c, is_Some (t !! c)) cols) l →
  tablify_dict (dict_of_list l) false (Some bug_list_formatter) None (Some cols) col_padding
  = Ok (itemized l cols (spaces (Z.to_nat col_padding))).
Proof.
  intros Hne Hfields.
  pose proof (keys_of_dict_of_list l) as Hkeys.
  unfold tablify_dict, table_lines, rows_of, cols_of, format_cell_of. cbn [bind].
  rewrite ascending_keys.
  assert (Hcells : cells_exist (dict_of_list l) (int_key <$> seq 0 (length l)) cols).
  { intros r c Hr Hc. apply list_elem_of_lookup in Hr as [i Hi].
    destruct (Forall2_lookup_l _ _ _ _ _ Hkeys Hi) as (t & Ht & Hd).
    apply list_elem_of_lookup_2 in Ht. eapply Forall_forall in Hfields; [| exact Ht].
    eapply Forall_forall in Hfields as [v Hv]; [| exact Hc].
    exists v. apply cell_Some. eauto. }
  destruct (proj1 (measure_cells _ _ cols) Hcells) as [ws Hws].
  rewrite Hws. cbn [bind]. apply measure_spec in Hws as [-> _].
  rewrite row_lines_bug_list by done. cbn [bind app].
  unfold itemized. do 2 f_equal.
  apply fmap_Forall2. eapply Forall2_impl; [exact Hkeys |].
  intros r t Hr. simpl. f_equal.
  apply list_fmap_ext. intros _ c _.
  rewrite (cell_text_field _ r t c Hr). f_equal.
  unfold width_of, field_width.
  apply foldl_max_Forall2. eapply Forall2_impl; [exact Hkeys |].
  intros r' t' Hr'. simpl. by rewrite (cell_text_field _ r' t' c Hr').
Qed.

(** X7: the itemized tables of [summarize_trac_tickets] (no header, no row
    order, the list formatter) show a dictionary built by [d[len(d)] = x]
    as one line per record in insertion order, the insertion keys left
    out, each field flushed left to the widest of its column and of the
    column's label, the fields joined by the padding. This holds for any
    columns with non-empty labels that all the records have, the empty
    dictionary included, which gives the empty string. *)
Theorem itemized_in_insertion_order (l : list record) (cols : list string)
    (col_padding : Z) :
  Forall (λ c, c ≠ "") cols →
  Forall (λ t : record, Forall (λ c, is_Some (t !! c)) cols) l →
  sorted cmp (keys (dict_of_list l)) = int_key <$> seq 0 (length l) ∧
  tablify_dict (dict_of_list l) false (Some bug_list_formatter) None (Some cols) col_padding
  = Ok (itemized l cols (spaces (Z.to_nat col_padding))).
Proof.
  intros Hne Hfields. split; [apply ascending_keys | by apply itemized_table].
Qed.

Lemma itemized_in_insertion_order_witness :
  tablify_dict (dict_of_list [ticket "3301" "Crash on reconfig" "defect";
                              ticket "3305" "Wrong exit code" "defect"])
    false (Some bug_list_formatter) None (Some ["id"; "type"; "summary"; "url"]) 2
  = Ok (join nl
          ["3301  defect  Crash on reconfig  http://trac.buildbot.net/ticket/3301";
           "3305  defect  Wrong exit code    http://trac.buildbot.net/ticket/3305"]).
Proof.
  rewrite (proj2 (itemized_in_insertion_order
                    [ticket "3301" "Crash on reconfig" "defect";
                     ticket "3305" "Wrong exit code" "defect"]
                    ["id"; "type"; "summary"; "url"] 2
                    ltac:(repeat constructor; discriminate)
                    ltac:(by_evaluation))).
  by_evaluation.
Defined.

(** ** Ticket types and buckets *)

Lemma lower_upper_char (c : ascii) : lower_char (upper_char c) = lower_char c.
Proof. destruct c as [[] [] [] [] [] [] [] []]; reflexivity. Qed.

Lemma upper_lower_char (c : ascii) : upper_char (lower_char c) = upper_char c.
Proof. destruct c as [[] [] [] [] [] [] [] []]; reflexivity. Qed.

Lemma lower_lower_char (c : ascii) : lower_char (lower_char c) = lower_char c.
Proof. destruct c as [[] [] [] [] [] [] [] []]; reflexivity. Qed.

Lemma lower_lower (s : string) : lower (lower s) = lower s.
Proof. induction s as [|c s IH]; [done |]. simpl. by rewrite lower_lower_char, IH. Qed.

Lemma lower_capitalize (s : string) : lower (capitalize s) = lower s.
Proof. destruct s as [|c s]; [done |]. simpl. by rewrite lower_upper_char, lower_lower. Qed.

Lemma capitalize_lower (s : string) : capitalize (lower s) = capitalize s.
Proof. destruct s as [|c s]; [done |]. simpl. by rewrite upper_lower_char, lower_lower. Qed.

Lemma app_inj_r (s t u : string) : s +:+ u = t +:+ u → s = t.
Proof.
  intros H. apply (f_equal list_ascii_of_string) in H.
  rewrite !list_ascii_app in H. apply app_inv_tail in H.
  by rewrite <- (string_of_list_ascii_of_string s), H, string_of_list_ascii_of_string.
Qed.

Lemma type_name_lower (ty singular : string) :
  capitalize ty +:+ "s" = singular +:+ "s" → lower ty = lower singular.
Proof.
  intros H. apply app_inj_r in H. apply (f_equal lower) in H.
  by rewrite lower_capitalize in H.
Qed.

Lemma bucket_lower (ty : string) : bucket (lower ty) = bucket ty.
Proof. unfold bucket. by rewrite capitalize_lower. Qed.

Lemma bucket_by_lower (ty : string) : bucket ty = bucket_of_lower (lower ty).
Proof.
  unfold bucket_of_lower.
  repeat case_decide;
    try (rewrite <- bucket_lower;
         match goal with H : lower ty = _ |- _ => rewrite H end; reflexivity).
  unfold bucket. case_decide as Hin; [| done].
  unfold six_categories in Hin. rewrite !elem_of_cons, elem_of_nil in Hin.
  destruct Hin as [Hn | [Hn | [Hn | [Hn | [Hn | [Hn | []]]]]]]; [.. | done].
  - by apply (type_name_lower ty "Enhancement") in Hn.
  - by apply (type_name_lower ty "Defect") in Hn.
  - by apply (type_name_lower ty "Task") in Hn.
  - by apply (type_name_lower ty "Regression") in Hn.
  - by apply (type_name_lower ty "Undecided") in Hn.
Qed.

Lemma count_ticket_summary (what : string) (st st' : tally) (t : record) (ty : string) :
  summary_inv (ticket_summary st) →
  t !! "type" = Some (PStr ty) →
  count_ticket what st t = Ok st' →
  (summary1 <- increment (ticket_summary st) (bucket ty) what;;
   increment summary1 "Total" what) = Ok (ticket_summary st').
Proof.
  intros (Hkeys & _) Hty H. unfold count_ticket, getitem in H. rewrite Hty in H.
  cbn [bind] in H. rewrite (selected_bucket _ ty what Hkeys) in H.
  destruct (increment (ticket_summary st) (bucket ty) what) as [summary1|e]; [| done].
  cbn [bind] in H |- *.
  destruct (increment summary1 "Total" what) as [summary2|e]; [| done].
  cbn [bind] in H. by repeat case_decide; injection H as <-.
Qed.

(** X8: what a ticket adds to the summary does not depend on the case of
    the letters of its type. One step of the counting loop adds one, under
    the label of the fetch, to [Total] and to the bucket read off the type
    put in lower case: [Enhancements], [Defects], [Tasks], [Regressions]
    and [Undecideds] for [enhancement], [defect], [task], [regression] and
    [undecided], and [Other] for every other type, the plural forms and
    the empty string included. Two tickets whose types differ only in case
    leave the same summary. *)
Theorem bucket_ignores_case (what : string) (st st' : tally) (t : record) (ty : string) :
  summary_inv (ticket_summary st) →
  t !! "type" = Some (PStr ty) →
  count_ticket what st t = Ok st' →
  (∀ category what',
     count (ticket_summary st') category what'
     = if decide (what' = what ∧ (category = bucket_of_lower (lower ty) ∨ category = "Total"))
       then Z.succ <$> count (ticket_summary st) category what'
       else count (ticket_summary st) category what') ∧
  (∀ (t' : record) ty' st'',
     t' !! "type" = Some (PStr ty') → lower ty = lower ty' →
     count_ticket what st t' = Ok st'' →
     ticket_summary st'' = ticket_summary st').
Proof.
  intros Hinv Hty H. split.
  - rewrite <- bucket_by_lower.
    by apply (count_ticket_counts what st st' t ty (proj1 Hinv)).
  - intros t' ty' st'' Hty' Hlower H'.
    apply (count_ticket_summary _ _ _ _ _ Hinv Hty) in H.
    apply (count_ticket_summary _ _ _ _ _ Hinv Hty') in H'.
    rewrite (bucket_by_lower ty'), <- Hlower, <- bucket_by_lower in H'. congruence.
Qed.

Lemma bucket_ignores_case_witness :
  ∃ st', count_ticket "Opened" tally0 (ticket "3301" "Crash on reconfig" "DEFECT") = Ok st' ∧
         count (ticket_summary st') "Defects" "Opened" = Some 1%Z.
Proof.
  destruct (count_ticket_total "Opened" tally0 (ticket "3301" "Crash on reconfig" "DEFECT")
              "DEFECT" summary_inv0) as [st' H]; [by left | done |].
  exists st'. split; [done |].
  by rewrite (proj1 (bucket_ignores_case "Opened" tally0 st'
                       (ticket "3301" "Crash on reconfig" "DEFECT") "DEFECT"
                       summary_inv0 eq_refl H) "Defects" "Opened").
Defined.

(** ** The counts and the itemized tickets *)

Lemma count_ticket_lists (what : string) (st st' : tally) (t : record) :
  count_ticket what st t = Ok st' →
  opened st' = (if decide (what = "Opened") then append_item (opened st) t else opened st) ∧
  closed st' = (if decide (what = "Closed") then append_item (closed st) t else closed st).
Proof.
  unfold count_ticket. intros H.
  unbind H as type Htype. destruct type as [| |ty]; try done.
  unbind H as ts1 H1. unbind H as ts2 H2.
  destruct (decide (what = "Opened")) as [-> | Ho].
  - rewrite decide_False by done. by injection H as <-.
  - destruct (decide (what = "Closed")); by injection H as <-.
Qed.

Lemma tally_agrees0 : tally_agrees tally0 [] [].
Proof. split; [apply summary_inv0 |]. repeat split; by_evaluation. Qed.

Lemma count_ticket_agrees (what : string) (st st' : tally) (t : record)
    (lo lc : list record) :
  tally_agrees st lo lc →
  count_ticket what st t = Ok st' →
  tally_agrees st' (lo ++ if decide (what = "Opened") then [t] else [])
                   (lc ++ if decide (what = "Closed") then [t] else []).
Proof.
  intros (Hinv & Ho & Hc & Hno & Hnc) Hct.
  pose proof (count_ticket_inv _ _ _ _ Hinv Hct) as Hinv'.
  destruct (count_ticket_type _ _ _ _ Hct) as [ty Hty].
  destruct (count_ticket_counts what st st' t ty (proj1 Hinv) Hty Hct) as [_ Hcount].
  destruct (count_ticket_lists _ _ _ _ Hct) as [Ho' Hc'].
  split; [done |]. split; [| split; [| split]].
  - rewrite Ho', Ho.
    destruct (decide (what = "Opened")); [by rewrite dict_of_list_snoc | by rewrite app_nil_r].
  - rewrite Hc', Hc.
    destruct (decide (what = "Closed")); [by rewrite dict_of_list_snoc | by rewrite app_nil_r].
  - rewrite Hcount, Hno. destruct (decide (what = "Opened")) as [-> | Hne].
    + rewrite decide_True by auto. simpl. f_equal. rewrite length_app. simpl. lia.
    + rewrite decide_False by (intros [E _]; congruence). by rewrite app_nil_r.
  - rewrite Hcount, Hnc. destruct (decide (what = "Closed")) as [-> | Hne].
    + rewrite decide_True by auto. simpl. f_equal. rewrite length_app. simpl. lia.
    + rewrite decide_False by (intros [E _]; congruence). by rewrite app_nil_r.
Qed.

Lemma count_tickets_agrees (what : string) (tickets : list record) :
  ∀ st st' lo lc,
    tally_agrees st lo lc →
    count_tickets what st tickets = Ok st' →
    tally_agrees st' (lo ++ if decide (what = "Opened") then tickets else [])
                     (lc ++ if decide (what = "Closed") then tickets else []).
Proof.
  induction tickets as [|t ts IH]; intros st st' lo lc Hst Hct; simpl in Hct.
  - injection Hct as <-. by repeat case_decide; rewrite !app_nil_r.
  - unbind Hct as st1 H1.
    pose proof (count_ticket_agrees _ _ _ _ _ _ Hst H1) as Hst1.
    pose proof (IH _ _ _ _ Hst1 Hct) as Hst'.
    repeat case_decide; rewrite <- ?app_assoc in Hst'; simpl in Hst';
      rewrite ?app_nil_r in *; done.
Qed.

Lemma count_results_agrees (results : list (dl_entry (string * list record))) :
  ∀ st st' lo lc,
    tally_agrees st lo lc →
    count_results st results = Ok st' →
    tally_agrees st' (lo ++ tickets_labelled "Opened" results)
                     (lc ++ tickets_labelled "Closed" results).
Proof.
  induction results as [|[[what tickets]|f] rest IH]; intros st st' lo lc Hst Hcr;
    simpl in Hcr.
  - injection Hcr as <-. simpl. by rewrite !app_nil_r.
  - unbind Hcr as st1 H1.
    pose proof (count_tickets_agrees _ _ _ _ _ _ Hst H1) as Hst1.
    pose proof (IH _ _ _ _ Hst1 Hcr) as Hst'.
    cbn [tickets_labelled]. by rewrite !app_assoc.
  - cbn [tickets_labelled]. by eapply IH.
Qed.

(** X9: when the counting loop of [summarize_trac_tickets] returns, the
    dictionary [opened] holds, under the keys 0, 1, 2, ..., the tickets of
    the fetches labelled [Opened] in the order of the results, [closed]
    those of the fetches labelled [Closed], and [Total.Opened] and
    [Total.Closed] are the numbers of entries of these dictionaries: the
    totals of the summary table count the lines of the two itemized
    lists. *)
Theorem totals_count_itemized (results : list (dl_entry (string * list record)))
    (st : tally) :
  count_results tally0 results = Ok st →
  opened st = dict_of_list (tickets_labelled "Opened" results) ∧
  closed st = dict_of_list (tickets_labelled "Closed" results) ∧
  count (ticket_summary st) "Total" "Opened" = Some (Z.of_nat (size (opened st))) ∧
  count (ticket_summary st) "Total" "Closed" = Some (Z.of_nat (size (closed st))).
Proof.
  intros H.
  destruct (count_results_agrees results tally0 st [] [] tally_agrees0 H)
    as (_ & Ho & Hc & Hno & Hnc).
  simpl in *. rewrite Ho, Hc.
  rewrite !(proj1 (dict_of_list_facts _)). done.
Qed.

Lemma totals_count_itemized_witness :
  ∃ st,
    count_results tally0 three_tickets = Ok st ∧
    count (ticket_summary st) "Total" "Opened" = Some (Z.of_nat (size (opened st))) ∧
    size (opened st) = 3.
Proof.
  destruct (count_results_total three_tickets) with (st := tally0) as [st Hst].
  { repeat constructor; by eexists. }
  { apply summary_inv0. }
  exists st. split; [done |].
  destruct (totals_count_itemized three_tickets st Hst) as (Ho & _ & Hno & _).
  split; [done |]. rewrite Ho. by_evaluation.
Defined.

(** ** The tracker pipeline as a whole *)

Lemma row_lines_default_Ok (d : table) (cols : list string) (ws : list nat) (k : nat)
    (padding : string) (rows : list pyval) :
  length ws = length cols →
  Forall (λ r, ∃ s, r = PStr s) rows →
  cells_exist d rows cols →
  ∃ body, row_lines default_format_cell d cols (ws ++ [k]) padding rows = Ok body.
Proof.
  intros Hlen. induction 1 as [|r rs [s ->] _ IH]; intros Hcells; [by exists [] |].
  cbn [row_lines]. rewrite row_line_default_cells; [| done |].
  2:{ intros c Hc. apply Hcells; [by left | done]. }
  cbn [bind]. destruct IH as [rest ->]; [| cbn [bind]; eauto].
  intros r c Hr Hc. apply Hcells; [by right | done].
Qed.

Lemma tablify_dict_default_Ok (d : table) (show_header : bool) (rows : list pyval)
    (cols : list string) (col_padding : Z) :
  Forall (λ r, ∃ s, r = PStr s) rows →
  cells_exist d rows cols →
  ∃ out, tablify_dict d show_header None (Some rows) (Some cols) col_padding = Ok out.
Proof.
  intros Hkeys Hcells.
  unfold tablify_dict, table_lines, format_cell_of, rows_of, cols_of. cbn [bind].
  destruct (proj1 (measure_cells d rows cols) Hcells) as [ws Hws].
  rewrite Hws. cbn [bind]. apply measure_spec in Hws as [-> _].
  destruct (row_lines_default_Ok d cols (width_of d rows <$> cols) (key_width rows)
              (spaces (Z.to_nat col_padding)) rows) as [body Hbody];
    [by rewrite length_fmap | done | done |].
  destruct show_header.
  - destruct (header_line_default_total cols (width_of d rows <$> cols) (key_width rows)
                (spaces (Z.to_nat col_padding))) as [th ->]; [by rewrite length_fmap |].
    cbn [bind]. rewrite Hbody. cbn [bind]. eauto.
  - cbn [bind]. rewrite Hbody. cbn [bind]. eauto.
Qed.

Lemma summary_table_Ok (ts : table) :
  summary_inv ts →
  ∃ out,
    tablify_dict ts true None
      (Some (PStr <$> ["Enhancements"; "Defects"; "Regressions"; "Tasks";
                       "Undecideds"; "Other"; "Total"]))
      (Some ["Opened"; "Closed"]) 2 = Ok out.
Proof.
  intros (_ & Hsome & _). apply tablify_dict_default_Ok.
  - repeat constructor; by eexists.
  - intros r c Hr Hc.
    apply list_elem_of_fmap in Hr as (category & -> & Hcat).
    destruct (Hsome category c) as [z Hz]; [| done |].
    { unfold seven_rows, six_categories. simpl.
      rewrite !elem_of_cons, elem_of_nil in Hcat |- *. tauto. }
    apply count_Some in Hz as (row & Hrow & Hz).
    exists (PInt z). apply cell_Some. eauto.
Qed.

Lemma ticket_like_columns (t : record) :
  ticket_like t → Forall (λ c, is_Some (t !! c)) ["id"; "type"; "summary"; "url"].
Proof. intros (id & s & ty & ->). repeat constructor; by eexists. Qed.

Lemma ticket_like_type (t : record) : ticket_like t → ∃ ty, t !! "type" = Some (PStr ty).
Proof. intros (id & s & ty & ->). by exists ty. Qed.

Lemma fetched_labelled (results : list (dl_entry (string * list record))) :
  Forall fetched results → Forall labelled results.
Proof.
  intros H. eapply Forall_impl; [exact H |].
  intros [[what tickets]|f]; [| done]. intros [Hw Ht].
  split; [done |]. eapply Forall_impl; [exact Ht |]. apply ticket_like_type.
Qed.

Lemma tickets_labelled_like (what : string)
    (results : list (dl_entry (string * list record))) :
  Forall fetched results → Forall ticket_like (tickets_labelled what results).
Proof.
  induction 1 as [|[[label tickets]|f] rest He _ IH]; simpl; [done | | done].
  apply Forall_app. split; [| done]. case_decide; [apply He | done].
Qed.

Lemma summarize_trac_tickets_Ok (results : list (dl_entry (string * list record))) :
  Forall fetched results →
  ∃ st summary_table,
    count_results tally0 results = Ok st ∧
    tablify_dict (ticket_summary st) true None
      (Some (PStr <$> ["Enhancements"; "Defects"; "Regressions"; "Tasks";
                       "Undecideds"; "Other"; "Total"]))
      (Some ["Opened"; "Closed"]) 2 = Ok summary_table ∧
    summarize_trac_tickets results
    = Ok ("trac",
          join (nl +:+ nl)
            [join nl ["Ticket Summary"; repeat_char "-" 14; summary_table];
             join nl ["New/Reopened Tickets"; repeat_char "-" 20;
                      itemized (tickets_labelled "Opened" results)
                        ["id"; "type"; "summary"; "url"] (spaces 2)];
             join nl ["Closed Tickets"; repeat_char "-" 14;
                      itemized (tickets_labelled "Closed" results)
                        ["id"; "type"; "summary"; "url"] (spaces 2)]]).
Proof.
  intros Hres.
  destruct (count_results_total results (fetched_labelled _ Hres) tally0 summary_inv0)
    as [st Hst].
  destruct (count_results_agrees results tally0 st [] [] tally_agrees0 Hst)
    as (Hinv & Ho & Hc & _).
  simpl in Ho, Hc.
  destruct (summary_table_Ok _ Hinv) as [out Hout].
  exists st, out. split; [done |]. split; [done |].
  unfold summarize_trac_tickets. rewrite Hst. cbn [bind]. rewrite Hout. cbn [bind].
  rewrite Ho, Hc.
  rewrite !itemized_table.
  - reflexivity.
  - repeat constructor; discriminate.
  - eapply Forall_impl; [by apply tickets_labelled_like |]. apply ticket_like_columns.
  - repeat constructor; discriminate.
  - eapply Forall_impl; [by apply tickets_labelled_like |]. apply ticket_like_columns.
Qed.

Lemma format_trac_tickets_fetched (what : string) (body : list (list string))
    (x : string * list record) :
  what = "Opened" ∨ what = "Closed" →
  format_trac_tickets what body = Ok x →
  fetched (Succeeded x).
Proof.
  intros Hw H. destruct body as [|header rows]; [done |]. simpl in H.
  unbind H as tickets Ht. injection H as <-. split; [done |].
  clear Hw. revert tickets Ht. induction rows as [|t rows IH]; intros tickets Ht.
  - simpl in Ht. by injection Ht as <-.
  - simpl in Ht. unbind Ht as x Hx. unbind Ht as xs Hxs. injection Ht as <-.
    constructor; [| by apply IH].
    destruct t as [|id [|s [|ty t]]]; try done.
    rewrite ticket_of_row_Ok in Hx. injection Hx as <-. by exists id, s, ty.
Qed.

Lemma format_trac_tickets_label (what : string) (body : list (list string))
    (x : string * list record) :
  format_trac_tickets what body = Ok x → x.1 = what.
Proof.
  destruct body as [|header rows]; [done |]. simpl.
  destruct (tickets_of_rows rows); [| done]. by intros [= <-].
Qed.

Lemma get_trac_tickets_Success (a b : list (list string)) (ta tb : list record) :
  format_trac_tickets "Opened" a = Ok ("Opened", ta) →
  format_trac_tickets "Closed" b = Ok ("Closed", tb) →
  ∃ summary_table,
    get_trac_tickets (Success a) (Success b)
    = Success ("trac",
        join (nl +:+ nl)
          [join nl ["Ticket Summary"; repeat_char "-" 14; summary_table];
           join nl ["New/Reopened Tickets"; repeat_char "-" 20;
                    itemized ta ["id"; "type"; "summary"; "url"] (spaces 2)];
           join nl ["Closed Tickets"; repeat_char "-" 14;
                    itemized tb ["id"; "type"; "summary"; "url"] (spaces 2)]]).
Proof.
  intros Ha Hb.
  destruct (summarize_trac_tickets_Ok [Succeeded ("Opened", ta); Succeeded ("Closed", tb)])
    as (st & out & _ & _ & Hsum).
  { constructor; [| constructor; [| constructor]].
    - by apply (format_trac_tickets_fetched "Opened" a); [left |].
    - by apply (format_trac_tickets_fetched "Closed" b); [right |]. }
  exists out. unfold get_trac_tickets. cbn [addCallback]. rewrite Ha, Hb.
  cbn [DeferredList existsb failed orb andb fmap list_fmap entry_of addCallback].
  rewrite Hsum. cbn [tickets_labelled]. rewrite !decide_True by done.
  rewrite !decide_False by done. by rewrite !app_nil_r.
Qed.

Lemma get_trac_tickets_well_formed (a b : list (list string)) :
  well_formed_body a → well_formed_body b →
  ∃ text, get_trac_tickets (Success a) (Success b) = Success ("trac", text).
Proof.
  intros [ta Ha]%(format_trac_tickets_Ok "Opened") [tb Hb]%(format_trac_tickets_Ok "Closed").
  destruct (get_trac_tickets_Success a b ta tb Ha Hb) as [out Hout]. eauto.
Qed.

Lemma get_trac_tickets_Success_inv
    (new_response closed_response : outcome (list (list string))) (v : string * string) :
  get_trac_tickets new_response closed_response = Success v →
  ∃ a b, new_response = Success a ∧ closed_response = Success b ∧
         well_formed_body a ∧ well_formed_body b.
Proof.
  intros Hv. unfold get_trac_tickets in Hv.
  destruct new_response as [a|f], closed_response as [b|g]; cbn [addCallback] in Hv.
  - exists a, b. split; [done |]. split; [done |].
    destruct (format_trac_tickets "Opened" a) as [[wa ta]|ea] eqn:Ha; [| done].
    destruct (format_trac_tickets "Closed" b) as [[wb tb]|eb] eqn:Hb; [| done].
    pose proof (format_trac_tickets_label _ _ _ Ha) as Hwa.
    pose proof (format_trac_tickets_label _ _ _ Hb) as Hwb.
    simpl in Hwa, Hwb. subst wa wb. split.
    + apply (format_trac_tickets_Ok "Opened"). eauto.
    + apply (format_trac_tickets_Ok "Closed"). eauto.
  - by destruct (format_trac_tickets "Opened" a).
  - done.
  - done.
Qed.

Lemma get_trac_tickets_Failure
    (new_response closed_response : outcome (list (list string))) (f : failure) :
  get_trac_tickets new_response closed_response = Failure f → f = FirstError.
Proof.
  intros Hf. unfold get_trac_tickets in Hf.
  destruct new_response as [a|f1], closed_response as [b|f2]; cbn [addCallback] in Hf.
  - destruct (format_trac_tickets "Opened" a) as [[wa ta]|ea] eqn:Ha.
    + destruct (format_trac_tickets "Closed" b) as [[wb tb]|eb] eqn:Hb.
      * pose proof (format_trac_tickets_label _ _ _ Ha) as Hwa.
        pose proof (format_trac_tickets_label _ _ _ Hb) as Hwb.
        simpl in Hwa, Hwb. subst wa wb.
        destruct (get_trac_tickets_Success a b ta tb Ha Hb) as [out Hout].
        unfold get_trac_tickets in Hout. cbn [addCallback] in Hout.
        rewrite Ha, Hb in Hout. congruence.
      * by injection Hf as <-.
    + destruct (format_trac_tickets "Closed" b); by injection Hf as <-.
  - destruct (format_trac_tickets "Opened" a); by injection Hf as <-.
  - destruct (format_trac_tickets "Closed" b); by injection Hf as <-.
  - by injection Hf as <-.
Qed.

(** X10: the tracker pipeline succeeds exactly when both requests succeed
    and both responses have a header row followed by rows of at least
    three fields; its result is then labelled [trac] and made of the
    summary table and the two itemized lists, the tickets of the first
    request under [New/Reopened Tickets] and those of the second under
    [Closed Tickets]. In every other case the pipeline fails, and the
    failure is a [FirstError], never the failure of the request itself. *)
Theorem get_trac_tickets_outcome (new_response closed_response : outcome (list (list string))) :
  (∀ a b, new_response = Success a → closed_response = Success b →
     well_formed_body a → well_formed_body b →
     ∃ ta tb summary_table,
       format_trac_tickets "Opened" a = Ok ("Opened", ta) ∧
       format_trac_tickets "Closed" b = Ok ("Closed", tb) ∧
       get_trac_tickets new_response closed_response
       = Success ("trac",
           join (nl +:+ nl)
             [join nl ["Ticket Summary"; repeat_char "-" 14; summary_table];
              join nl ["New/Reopened Tickets"; repeat_char "-" 20;
                       itemized ta ["id"; "type"; "summary"; "url"] (spaces 2)];
              join nl ["Closed Tickets"; repeat_char "-" 14;
                       itemized tb ["id"; "type"; "summary"; "url"] (spaces 2)]])) ∧
  (∀ v, get_trac_tickets new_response closed_response = Success v →
     ∃ a b, new_response = Success a ∧ closed_response = Success b ∧
            well_formed_body a ∧ well_formed_body b) ∧
  (∀ f, get_trac_tickets new_response closed_response = Failure f → f = FirstError).
Proof.
  split; [| split].
  - intros a b -> -> [ta Ha]%(format_trac_tickets_Ok "Opened")
      [tb Hb]%(format_trac_tickets_Ok "Closed").
    destruct (get_trac_tickets_Success a b ta tb Ha Hb) as [out Hout]. by exists ta, tb, out.
  - apply get_trac_tickets_Success_inv.
  - apply get_trac_tickets_Failure.
Qed.

Lemma get_trac_tickets_outcome_witness :
  ∃ text,
    get_trac_tickets (Success tracker_response) (Success tracker_response)
    = Success ("trac", text).
Proof.
  destruct (proj1 (get_trac_tickets_outcome (Success tracker_response)
                     (Success tracker_response))
              tracker_response tracker_response eq_refl eq_refl)
    as (ta & tb & out & _ & _ & H).
  - eexists _, _. split; [reflexivity |]. repeat constructor.
  - eexists _, _. split; [reflexivity |]. repeat constructor.
  - eexists. exact H.
Defined.

(** ** Pull requests that cannot be classified *)

Lemma classify_Ok_field (start_day end_day : date) (state when : string)
    (pr : json_record) (pr_dict out : json_table) :
  classify start_day end_day state when pr pr_dict = Ok out →
  ∃ st, pr !! "state" = Some st ∧ (st = JStr (unicode state) → field_ok (pr !! when)).
Proof.
  unfold classify. intros H. unbind H as st Hst. apply getitem_Ok in Hst.
  exists st. split; [done |]. intros ->. rewrite decide_True in H by done.
  unbind H as w Hw. apply getitem_Ok in Hw. rewrite Hw.
  destruct w as [|z|u]; [by left | done |].
  unbind H as happened Hh. right. by exists u, happened.
Qed.

Lemma strptime_Raise (text : string) (e : exc) : strptime text = Raise e → e = ValueError.
Proof.
  unfold strptime. destruct (match_gh_time text) as [[[[[[Y m] d] H] M] Sec]|].
  - destruct (_ && _ && _)%bool; [done | by intros [= <-]].
  - by intros [= <-].
Qed.

Lemma datetime_strptime_Raise (v : jval) (e : exc) :
  datetime_strptime v = Raise e →
  e = TypeError ∨ e = ValueError ∨ e = UnicodeEncodeError.
Proof.
  unfold datetime_strptime, c_string.
  destruct v as [|z|u]; cbn [bind]; [intros [= <-]; auto | intros [= <-]; auto |].
  unfold encode. destruct (forallb _ u); cbn [bind].
  - case_bool_decide; cbn [bind]; [intros [= <-]; auto |].
    intros ->%strptime_Raise. auto.
  - intros [= <-]. auto.
Qed.

Lemma classify_Raise (start_day end_day : date) (state when : string) (pr : json_record)
    (pr_dict : json_table) (e : exc) :
  classify start_day end_day state when pr pr_dict = Raise e →
  e = KeyError ∨ e = TypeError ∨ e = ValueError ∨ e = UnicodeEncodeError.
Proof.
  unfold classify, getitem. destruct (pr !! "state") as [st|]; cbn [bind].
  - destruct (decide (st = JStr (unicode state))); [| done].
    destruct (pr !! when) as [w|]; cbn [bind]; [| intros [= <-]; auto].
    destruct w as [|z|u]; [done | |].
    all: destruct (datetime_strptime _) as [happened|x] eqn:Hh; cbn [bind];
      [by destruct (_ || _) |].
    all: intros [= <-]; apply datetime_strptime_Raise in Hh; tauto.
  - intros [= <-]. auto.
Qed.

Lemma classify_all_Ok_ok (start_day end_day : date) (body : list json_record) :
  ∀ prs out, classify_all start_day end_day body prs = Ok out → Forall pr_ok body.
Proof.
  induction body as [|pr rest IH]; intros prs out H; [constructor |].
  simpl in H. unbind H as o Ho. unbind H as c Hc.
  constructor; [| by eapply IH].
  apply classify_Ok_field in Ho as (st & Hst & Hopen).
  apply classify_Ok_field in Hc as (st' & Hst' & Hclosed).
  exists st. split; [done |]. split; [done |].
  intros ->. apply Hclosed. congruence.
Qed.

(** X11: the classification loop of [summarize_github_prs] returns exactly
    on the responses in which every record has a [state] and, when the
    state is ["open"] (or ["closed"]), a [created_at] (or [closed_at]) that
    is null or a timestamp that [strptime] accepts. The date field of the
    other state is not read, and a record in any other state is passed
    over whatever else it holds. One record that fails this makes the whole
    loop raise, with [KeyError], [TypeError], [ValueError] or, for a date
    with a character outside ASCII, [UnicodeEncodeError], whatever the
    records before it were. *)
Theorem classify_all_returns (start_day end_day : date) (body : list json_record)
    (prs : json_table * json_table) :
  ((∃ out, classify_all start_day end_day body prs = Ok out) ↔ Forall pr_ok body) ∧
  (∀ e, classify_all start_day end_day body prs = Raise e →
        e = KeyError ∨ e = TypeError ∨ e = ValueError ∨ e = UnicodeEncodeError) ∧
  (∀ pr : json_record,
     pr !! "state" = Some (JStr (unicode "open")) → field_ok (pr !! "created_at") →
     ∃ out, classify_all start_day end_day [pr] prs = Ok out) ∧
  (∀ (pr : json_record) st,
     pr !! "state" = Some st →
     st ≠ JStr (unicode "open") → st ≠ JStr (unicode "closed") →
     classify_all start_day end_day [pr] prs = Ok prs).
Proof.
  split; [| split; [| split]].
  - split.
    + intros [out H]. by eapply classify_all_Ok_ok.
    + intros Hok. by apply classify_all_total.
  - revert prs. induction body as [|pr rest IH]; intros prs e H; [done |].
    simpl in H.
    destruct (classify _ _ "open" _ _ _) as [o|x] eqn:Ho; cbn [bind] in H.
    + destruct (classify _ _ "closed" _ _ _) as [c|x] eqn:Hc; cbn [bind] in H.
      * by eapply IH.
      * injection H as <-. by eapply classify_Raise.
    + injection H as <-. by eapply classify_Raise.
  - intros pr Hst Hfield. apply classify_all_total. constructor; [| constructor].
    exists (JStr (unicode "open")). split; [done |]. split; [done | discriminate].
  - intros pr st Hst Hopen Hclosed. simpl. unfold classify, getitem.
    rewrite Hst. cbn [bind]. rewrite !decide_False by done. cbn [bind].
    by destruct prs.
Qed.

Lemma classify_all_returns_witness :
  Forall pr_ok sample_prs ∧
  classify_all (Date 2024 1 8) (Date 2024 1 14)
    [{[ "state" := JStr (unicode "draft") ]}] (∅, ∅) = Ok (∅, ∅).
Proof.
  split.
  - apply (proj1 (proj1 (classify_all_returns (Date 2024 1 8) (Date 2024 1 14)
                           sample_prs (∅, ∅)))).
    eexists. exact sample_prs_classified.
  - by apply (proj2 (proj2 (proj2 (classify_all_returns
                 (Date 2024 1 8) (Date 2024 1 14) [] (∅, ∅))))
                {[ "state" := JStr (unicode "draft") ]} (JStr (unicode "draft"))).
Defined.

(** ** The pull-request tables *)

(** A table drawn with the list formatter, for rows given in any order. *)
Lemma listed_table (d : table) (rows : list pyval) (ts : list record)
    (cols : list string) (col_padding : Z) :
  Forall (λ c, c ≠ "") cols →
  Forall2 (λ r t, d !! r = Some t) rows ts →
  Forall (λ t : record, Forall (λ c, is_Some (t !! c)) cols) ts →
  tablify_dict d false (Some bug_list_formatter) (Some rows) (Some cols) col_padding
  = Ok (itemized ts cols (spaces (Z.to_nat col_padding))).
Proof.
  intros Hne Hkeys Hfields.
  unfold tablify_dict, table_lines, rows_of, cols_of, format_cell_of. cbn [bind].
  assert (Hcells : cells_exist d rows cols).
  { intros r c Hr Hc. apply list_elem_of_lookup in Hr as [i Hi].
    destruct (Forall2_lookup_l _ _ _ _ _ Hkeys Hi) as (t & Ht & Hd).
    apply list_elem_of_lookup_2 in Ht. eapply Forall_forall in Hfields; [| exact Ht].
    eapply Forall_forall in Hfields as [v Hv]; [| exact Hc].
    exists v. apply cell_Some. eauto. }
  destruct (proj1 (measure_cells _ _ cols) Hcells) as [ws Hws].
  rewrite Hws. cbn [bind]. apply measure_spec in Hws as [-> _].
  rewrite row_lines_bug_list by done. cbn [bind app].
  unfold itemized. do 2 f_equal.
  apply fmap_Forall2. eapply Forall2_impl; [exact Hkeys |].
  intros r t Hr. simpl. f_equal.
  apply list_fmap_ext. intros _ c _.
  rewrite (cell_text_field _ r t c Hr). f_equal.
  unfold width_of, field_width.
  apply foldl_max_Forall2. eapply Forall2_impl; [exact Hkeys |].
  intros r' t' Hr'. simpl. by rewrite (cell_text_field _ r' t' c Hr').
Qed.

(** The width loop returns only when [str] accepts every listed cell. *)
Lemma measure_cols_printable `{Printable V} (d : gmap pyval (gmap string V)) (r : pyval)
    (cols : list string) :
  ∀ i ws ws', measure_cols d r cols i ws = Ok ws' →
  ∀ c, c ∈ cols → ∃ v text, cell d r c = Some v ∧ str_of v = Ok text.
Proof.
  induction cols as [|c cs IH]; intros i ws ws' Hm c' Hc';
    [by apply elem_of_nil in Hc' |].
  cbn [measure_cols] in Hm. unbind Hm as w Hw. rewrite cell_lookups in Hm.
  destruct (cell d r c) as [v|] eqn:Hv; [| done].
  unbind Hm as text Htext. unbind Hm as ws1 Hws1.
  apply elem_of_cons in Hc' as [-> | Hc']; [eauto | by eapply IH].
Qed.

Lemma measure_rows_printable `{Printable V} (d : gmap pyval (gmap string V))
    (cols : list string) (rows : list pyval) :
  ∀ ws ws', measure_rows d rows cols ws = Ok ws' →
  ∀ r c, r ∈ rows → c ∈ cols → ∃ v text, cell d r c = Some v ∧ str_of v = Ok text.
Proof.
  induction rows as [|r rs IH]; intros ws ws' Hm r' c Hr' Hc;
    [by apply elem_of_nil in Hr' |].
  cbn [measure_rows] in Hm. unbind Hm as j Hj. unbind Hm as w Hw.
  unbind Hm as ws1 Hws1. unbind Hm as ws2 Hws2.
  apply elem_of_cons in Hr' as [-> | Hr'].
  - by eapply measure_cols_printable.
  - by eapply IH.
Qed.

Lemma texts_lookup (pr : json_record) (c : string) :
  texts pr !! c = PStr <$> printed pr c.
Proof.
  unfold texts, printed. rewrite lookup_omap.
  destruct (pr !! c) as [v|]; simpl; [| done]. by destruct (str_of v).
Qed.

Lemma field_text_texts (pr : json_record) (c : string) :
  field_text (texts pr) c = pr_text pr c.
Proof. unfold field_text, pr_text. rewrite texts_lookup. by destruct (printed pr c). Qed.

Lemma itemized_texts (l : list json_record) :
  itemized (texts <$> l) pr_columns (spaces 2) = pr_listing l.
Proof.
  unfold itemized, pr_listing. f_equal. rewrite <- list_fmap_compose.
  apply list_fmap_ext. intros _ pr _. unfold compose. f_equal.
  apply list_fmap_ext. intros _ c _. rewrite field_text_texts. f_equal.
  unfold field_width, pr_width. rewrite foldl_fmap.
  apply foldl_max_Forall2. apply Forall_Forall2_diag, Forall_forall.
  intros pr' _. by rewrite field_text_texts.
Qed.

Lemma printed_Some (pr : json_record) (c text : string) :
  printed pr c = Some text ↔ ∃ v, pr !! c = Some v ∧ str_of v = Ok text.
Proof.
  unfold printed. destruct (pr !! c) as [v|]; simpl.
  - destruct (str_of v) as [s|e] eqn:Hs; split.
    + intros [= <-]. eauto.
    + intros (v' & [= <-] & H). congruence.
    + done.
    + intros (v' & [= <-] & H). congruence.
  - split; [done |]. by intros (v' & ? & _).
Qed.

Lemma has_columns_printed (pr : json_record) :
  has_columns pr ↔ Forall (λ c, is_Some (printed pr c)) pr_columns.
Proof.
  unfold has_columns, pr_columns. rewrite !Forall_cons, Forall_nil. tauto.
Qed.

(** On the listed cells, [str] gives the same for the records and for
    their texts. *)
Lemma pr_cells_texts (l : list json_record) (i : nat) (c : string) :
  Forall has_columns l → i < length l → c ∈ pr_columns →
  str_of <$> cell (dict_of_list l) (int_key i) c
  = str_of <$> cell (dict_of_list (texts <$> l)) (int_key i) c.
Proof.
  intros Hcols Hi Hc.
  destruct (dict_of_list_facts l) as (_ & Hlook & _).
  destruct (dict_of_list_facts (texts <$> l)) as (_ & Hlook' & _).
  unfold cell. rewrite Hlook, Hlook', list_lookup_fmap.
  destruct (lookup_lt_is_Some_2 l i Hi) as [pr Hpr]. rewrite Hpr. simpl.
  apply list_elem_of_lookup_2 in Hpr. rewrite Forall_forall in Hcols.
  apply Hcols, has_columns_printed in Hpr. rewrite Forall_forall in Hpr.
  destruct (Hpr c Hc) as [text Htext].
  rewrite texts_lookup, Htext.
  apply printed_Some in Htext as (v & -> & Hv). simpl. by rewrite Hv.
Qed.

Lemma pr_table_listed (l : list json_record) :
  Forall has_columns l → pr_table (dict_of_list l) = Ok (pr_listing (rev l)).
Proof.
  intros Hcols. unfold pr_table. rewrite descending_keys.
  rewrite (tablify_dict_same_texts _ (dict_of_list (texts <$> l))).
  - rewrite <- itemized_texts.
    change (texts <$> rev l) with (map texts (rev l)). rewrite (map_rev texts l).
    change (map texts l) with (texts <$> l).
    apply (listed_table _ _ (rev (texts <$> l)) pr_columns 2).
    + repeat constructor; discriminate.
    + pose proof (rows_of_dict_of_list (texts <$> l)) as Hrows.
      by rewrite length_fmap in Hrows.
    + apply Forall_forall. intros t Ht. rewrite rev_alt in Ht.
      change (t ∈ reverse (texts <$> l)) in Ht.
      apply (proj1 (elem_of_reverse _ _)) in Ht.
      apply list_elem_of_fmap in Ht as (pr & -> & Hpr).
      rewrite Forall_forall in Hcols. apply Hcols, has_columns_printed in Hpr.
      eapply Forall_impl; [exact Hpr |]. intros c [text Htext].
      rewrite texts_lookup, Htext. by eexists.
  - intros r c Hr Hc. apply list_elem_of_fmap in Hr as (i & -> & Hi).
    apply pr_cells_texts; [done | | done].
    rewrite rev_alt in Hi. change (i ∈ reverse (seq 0 (length l))) in Hi.
    apply (proj1 (elem_of_reverse _ _)), elem_of_seq in Hi. lia.
Qed.

Lemma pr_table_Ok_columns (l : list json_record) (out : string) :
  pr_table (dict_of_list l) = Ok out → Forall has_columns l.
Proof.
  unfold pr_table, tablify_dict, table_lines, rows_of, cols_of. cbn [bind].
  rewrite descending_keys. intros H.
  unbind H as lines Hlines. unbind Hlines as ws Hws.
  apply Forall_forall. intros pr Hpr. apply has_columns_printed.
  apply Forall_forall. intros c Hc.
  apply list_elem_of_lookup in Hpr as [i Hi].
  destruct (measure_rows_printable _ _ _ _ _ Hws (int_key i) c) as (v & text & Hv & Htext);
    [| done |].
  - apply list_elem_of_fmap. exists i. split; [done |].
    rewrite rev_alt. apply elem_of_reverse_2, elem_of_seq.
    apply lookup_lt_Some in Hi. lia.
  - apply cell_Some in Hv as (row & Hrow & Hv).
    destruct (dict_of_list_facts l) as (_ & Hlook & _).
    rewrite Hlook, Hi in Hrow. injection Hrow as <-.
    exists text. apply printed_Some. eauto.
Qed.

Lemma pr_line_listing (l : list json_record) (pr : json_record) :
  has_columns pr →
  pr_line (pr_width l "number", pr_width l "title", pr_width l "html_url") pr
  = Some (join (spaces 2) ((λ c, ljust (pr_text pr c) (pr_width l c)) <$> pr_columns)).
Proof.
  intros ([n Hn] & [t Ht] & [u Hu]). unfold pr_line, pr_text, pr_columns.
  cbn [fmap list_fmap]. rewrite Hn, Ht, Hu. reflexivity.
Qed.

Lemma dict_of_list_rendered (l : list json_record) :
  rendered_in_order (dict_of_list l) (rev l).
Proof.
  assert (Hiff : (∃ out, pr_table (dict_of_list l) = Ok out) ↔ Forall has_columns (rev l)).
  { rewrite rev_alt. change (rev_append l []) with (reverse l). rewrite Forall_reverse.
    split; [intros [out H]; by eapply pr_table_Ok_columns |].
    intros Hcols. eexists. by apply pr_table_listed. }
  split; [| done].
  intros out H. pose proof (proj1 Hiff (ex_intro _ out H)) as Hcols.
  rewrite pr_table_listed in H by by eapply pr_table_Ok_columns.
  apply Ok_inj in H as <-.
  eexists (_, _, _), _. split; [reflexivity |].
  apply Forall2_fmap_r, Forall_Forall2_diag.
  eapply Forall_impl; [exact Hcols |]. intros pr Hpr. by apply pr_line_listing.
Qed.

(** C6: the tables of opened and of completed pull requests list the
    matching records in the reverse of the order in which they came in the
    response: the rows are the insertion keys sorted downwards, and each
    line renders the record stored under its key. The tables are produced
    exactly when [str] accepts the three columns of the matching records:
    a column that is missing, or a title with a character outside ASCII,
    makes the call raise. *)
Theorem tables_in_reverse_order (start_day end_day : date) (body : list json_record)
    (prs : json_table * json_table) :
  classify_all start_day end_day body (∅, ∅) = Ok prs →
  let opened := List.filter (is_opened start_day end_day) body in
  let completed := List.filter (is_completed start_day end_day) body in
  sorted descending (keys prs.1) = int_key <$> rev (seq 0 (length opened)) ∧
  sorted descending (keys prs.2) = int_key <$> rev (seq 0 (length completed)) ∧
  (∀ i, prs.1 !! int_key i = opened !! i) ∧
  (∀ i, prs.2 !! int_key i = completed !! i) ∧
  rendered_in_order prs.1 (rev opened) ∧
  rendered_in_order prs.2 (rev completed).
Proof.
  intros H. apply (classify_all_spec start_day end_day body [] []) in H as ->.
  cbn [fst snd app]. split; [apply descending_keys |]. split; [apply descending_keys |].
  split; [intros i; apply dict_of_list_facts |].
  split; [intros i; apply dict_of_list_facts |].
  split; apply dict_of_list_rendered.
Qed.

Lemma tables_in_reverse_order_witness :
  ∃ prs,
    classify_all (Date 2024 1 8) (Date 2024 1 14) sample_prs (∅, ∅) = Ok prs ∧
    sorted descending (keys prs.1) = [PInt 1; PInt 0] ∧
    rendered_in_order prs.1 [pr_newer; pr_recent].
Proof.
  eexists. split; [exact sample_prs_classified |].
  destruct (tables_in_reverse_order _ _ _ _ sample_prs_classified)
    as (H1 & _ & _ & _ & H5 & _).
  split; [exact H1 | exact H5].
Defined.

(** ** The pull-request pipeline as a whole *)

Lemma summarize_github_prs_Ok (start_day end_day : date) (what : string)
    (body : list json_record) :
  Forall pr_ok body →
  Forall has_columns (List.filter (is_opened start_day end_day) body) →
  Forall has_columns (List.filter (is_completed start_day end_day) body) →
  summarize_github_prs start_day end_day what body
  = Ok ("github",
        join (nl +:+ nl)
          [join nl ["Opened Pull Requests"; repeat_char "-" 20;
                    pr_listing (rev (List.filter (is_opened start_day end_day) body))];
           join nl ["Completed Pull Requests"; repeat_char "-" 23;
                    pr_listing (rev (List.filter (is_completed start_day end_day) body))]]).
Proof.
  intros Hok Ho Hc. unfold summarize_github_prs.
  destruct (classify_all_total start_day end_day body Hok (∅, ∅)) as [prs Hprs].
  rewrite Hprs. cbn [bind].
  apply (classify_all_spec start_day end_day body [] []) in Hprs as ->.
  cbn [fst snd app]. unfold overview.
  rewrite !pr_table_listed by done. reflexivity.
Qed.

Lemma summarize_github_prs_Ok_inv (start_day end_day : date) (what : string)
    (body : list json_record) (v : string * string) :
  summarize_github_prs start_day end_day what body = Ok v →
  Forall pr_ok body ∧
  Forall has_columns (List.filter (is_opened start_day end_day) body) ∧
  Forall has_columns (List.filter (is_completed start_day end_day) body).
Proof.
  unfold summarize_github_prs. intros H. unbind H as prs Hprs.
  split; [by eapply classify_all_Ok_ok |].
  apply (classify_all_spec start_day end_day body [] []) in Hprs as ->.
  cbn [fst snd app] in H. unbind H as o1 Ho1. unbind H as o2 Ho2.
  unfold overview in Ho1, Ho2. unbind Ho1 as t1 Ht1. unbind Ho2 as t2 Ht2.
  split; by eapply pr_table_Ok_columns.
Qed.

(** X12: the pull-request pipeline succeeds exactly when the request
    succeeds, every record of the response can be classified, and the
    records that fall in the window have a [number], a [title] and an
    [html_url] that [str] accepts, which excludes a string with a
    character outside ASCII; records outside the window need none of
    them. Its result is then labelled [github] and holds, under the two
    underlined titles, the opened and the completed records, last received
    first, one per line, each field flushed left. A failure of the request
    is passed on as it is. *)
Theorem get_github_prs_outcome (start_day end_day : date)
    (response : outcome (list json_record)) :
  (∀ body, response = Success body →
     Forall pr_ok body →
     Forall has_columns (List.filter (is_opened start_day end_day) body) →
     Forall has_columns (List.filter (is_completed start_day end_day) body) →
     get_github_prs start_day end_day response
     = Success ("github",
         join (nl +:+ nl)
           [join nl ["Opened Pull Requests"; repeat_char "-" 20;
                     pr_listing (rev (List.filter (is_opened start_day end_day) body))];
            join nl ["Completed Pull Requests"; repeat_char "-" 23;
                     pr_listing
                       (rev (List.filter (is_completed start_day end_day) body))]])) ∧
  (∀ v, get_github_prs start_day end_day response = Success v →
     ∃ body, response = Success body ∧ Forall pr_ok body ∧
       Forall has_columns (List.filter (is_opened start_day end_day) body) ∧
       Forall has_columns (List.filter (is_completed start_day end_day) body)) ∧
  (∀ f, response = Failure f → get_github_prs start_day end_day response = Failure f).
Proof.
  split; [| split].
  - intros body -> Hok Ho Hc. unfold get_github_prs. cbn [addCallback].
    by rewrite summarize_github_prs_Ok.
  - intros v H. destruct response as [body|f]; [| done].
    exists body. split; [done |].
    unfold get_github_prs in H. cbn [addCallback] in H.
    destruct (summarize_github_prs _ _ _ body) as [x|e] eqn:Hsum; [| done].
    by eapply summarize_github_prs_Ok_inv.
  - by intros f ->.
Qed.

Lemma sample_prs_ok : Forall pr_ok sample_prs.
Proof.
  eapply (classify_all_Ok_ok (Date 2024 1 8) (Date 2024 1 14) _ (∅, ∅)).
  exact sample_prs_classified.
Qed.

Lemma get_github_prs_outcome_witness :
  get_github_prs (Date 2024 1 8) (Date 2024 1 14) (Success sample_prs)
  = Success ("github",
      join nl
        ["Opened Pull Requests";
         "--------------------";
         "11      Newer          https://github.com/buildbot/buildbot/pull/11";
         "7       Fix the build  https://github.com/buildbot/buildbot/pull/7 ";
         "";
         "Completed Pull Requests";
         "-----------------------";
         "5       Old work  https://github.com/buildbot/buildbot/pull/5"])
  ∧ ¬ ∃ v, get_github_prs (Date 2024 1 8) (Date 2024 1 14) (Success [pr_cafe]) = Success v.
Proof.
  split.
  - rewrite (proj1 (get_github_prs_outcome (Date 2024 1 8) (Date 2024 1 14)
                      (Success sample_prs)) sample_prs eq_refl).
    + do 2 f_equal; by_evaluation.
    + exact sample_prs_ok.
    + repeat constructor; by eexists.
    + repeat constructor; by eexists.
  - intros [v Hv].
    apply (proj1 (proj2 (get_github_prs_outcome (Date 2024 1 8) (Date 2024 1 14)
                           (Success [pr_cafe])))) in Hv
      as (body & [= <-] & _ & Hopened & _).
    apply Forall_inv in Hopened as (_ & [title Htitle] & _). discriminate.
Defined.

(** ** The report as a whole *)

Lemma collect_parts_lookup (part : string) (results : list (dl_entry (string * string))) :
  ∀ message_parts,
    collect_parts results message_parts !! part
    = match part_of part results with
      | Some msg => Some msg
      | None => message_parts !! part
      end.
Proof.
  induction results as [|[[p msg]|f] rest IH]; intros message_parts; simpl; [done | |].
  - rewrite IH. destruct (part_of part rest); [done |].
    rewrite lookup_insert. by destruct (decide (p = part)).
  - rewrite IH. by destruct (part_of part rest).
Qed.

Lemma message_Ok (message_parts : gmap string string) (trac github : string) :
  message_parts !! "trac" = Some trac → message_parts !! "github" = Some github →
  message message_parts = message {[ "trac" := trac; "github" := github ]}.
Proof. intros Ht Hg. unfold message, getitem. by rewrite Ht, Hg. Qed.

Lemma message_total (trac github : string) :
  ∃ text, message {[ "trac" := trac; "github" := github ]} = Ok text.
Proof. eexists. reflexivity. Qed.

Lemma message_KeyError (message_parts : gmap string string) :
  message_parts !! "trac" = None ∨ message_parts !! "github" = None →
  message message_parts = Raise KeyError.
Proof.
  unfold message, getitem. intros [-> | Hg]; [done |].
  rewrite Hg. by destruct (message_parts !! "trac").
Qed.

(** X13: [summary] takes, for each of the two sections, the message of the
    last successful result labelled with its name, skipping failed results
    and ignoring other labels. With both found it prints one text, built
    from the two messages, and changes nothing else; with one of them
    missing it raises [KeyError] and prints nothing. *)
Theorem summary_uses_last_parts (results : list (dl_entry (string * string))) (w : world) :
  (∀ trac github,
     part_of "trac" results = Some trac → part_of "github" results = Some github →
     ∃ text, message {[ "trac" := trac; "github" := github ]} = Ok text ∧
             summary results w
             = (Ok tt, World (stdout w ++ [text]) (errlog w) (reactor_stopped w))) ∧
  (part_of "trac" results = None ∨ part_of "github" results = None →
   summary results w = (Raise KeyError, w)).
Proof.
  split.
  - intros trac github Ht Hg.
    destruct (message_total trac github) as [text Htext]. exists text. split; [done |].
    unfold summary. rewrite (message_Ok _ trac github), Htext; [done | |].
    + by rewrite collect_parts_lookup, Ht.
    + by rewrite collect_parts_lookup, Hg.
  - intros H. unfold summary. rewrite message_KeyError; [done |].
    rewrite !collect_parts_lookup. by destruct H as [-> | ->]; [left | right].
Qed.

Lemma summary_uses_last_parts_witness :
  summary [Succeeded ("trac", "old"); Failed FirstError; Succeeded ("github", "prs");
           Succeeded ("trac", "new")] world0
  = print ("Trac Tickets" +:+ nl +:+ "============" +:+ nl +:+ "new" +:+ nl
           +:+ nl +:+ nl
           +:+ "GitHub Pull Requests" +:+ nl +:+ "====================" +:+ nl +:+ "prs")
      world0.
Proof.
  destruct (proj1 (summary_uses_last_parts
                     [Succeeded ("trac", "old"); Failed FirstError;
                      Succeeded ("github", "prs"); Succeeded ("trac", "new")] world0)
              "new" "prs" eq_refl eq_refl) as (text & Htext & ->).
  injection Htext as <-. reflexivity.
Defined.

Lemma main_both (a b : string * string) :
  main (Success a) (Success b)
  = match message (collect_parts [Succeeded a; Succeeded b] ∅) with
    | Ok text => World [text] [] true
    | Raise e => World [] [Raised e] true
    end.
Proof.
  unfold main. cbn [DeferredList existsb failed orb andb fmap list_fmap entry_of].
  unfold addCallback_io, addErrback_io. cbn [fst snd]. unfold summary.
  by destruct (message _).
Qed.

Lemma main_one_failed (trac github : outcome (string * string)) :
  failed trac || failed github = true → main trac github = World [] [FirstError] true.
Proof.
  intros H. unfold main. rewrite DeferredList_one_failed; [done |].
  simpl. by rewrite orb_false_r.
Qed.

(** X14: however the two pipelines end, [main] stops the reactor, and it
    either prints one report and logs nothing or prints nothing and logs
    one failure. When both pipelines succeed but no result is labelled
    [trac], or none [github], the failure logged is the [KeyError] that
    [summary] raised. *)
Theorem main_stops_reactor (trac github : outcome (string * string)) :
  reactor_stopped (main trac github) = true ∧
  ((∃ text, main trac github = World [text] [] true) ∨
   (∃ f, main trac github = World [] [f] true)) ∧
  (∀ a b, trac = Success a → github = Success b →
     part_of "trac" [Succeeded a; Succeeded b] = None
     ∨ part_of "github" [Succeeded a; Succeeded b] = None →
     main trac github = World [] [Raised KeyError] true).
Proof.
  assert (Hshape : (∃ text, main trac github = World [text] [] true) ∨
                   (∃ f, main trac github = World [] [f] true)).
  { destruct trac as [a|f], github as [b|g].
    - rewrite main_both. destruct (message _); eauto.
    - right. exists FirstError. by apply main_one_failed.
    - right. exists FirstError. by apply main_one_failed.
    - right. exists FirstError. by apply main_one_failed. }
  split; [| split; [done |]].
  - by destruct Hshape as [[text ->] | [f ->]].
  - intros a b -> -> H. rewrite main_both, message_KeyError; [done |].
    rewrite !collect_parts_lookup. by destruct H as [-> | ->]; [left | right].
Qed.

Lemma main_stops_reactor_witness :
  main (Success ("trac", "tickets")) (Success ("trac", "more tickets"))
  = World [] [Raised KeyError] true.
Proof.
  apply (proj2 (proj2 (main_stops_reactor (Success ("trac", "tickets"))
                         (Success ("trac", "more tickets"))))
           ("trac", "tickets") ("trac", "more tickets") eq_refl eq_refl).
  by right.
Defined.

(** X15: the whole program, from the three responses. It prints a report
    exactly when the three requests succeed, the two tracker responses
    have a header row followed by rows of at least three fields, every
    pull-request record can be classified and those in the window have
    three columns that [str] accepts; the report is then the only thing
    printed, it is built from the results of the two pipelines, and nothing
    is logged. In every other case, a pull request in the window with a
    title outside ASCII included, nothing is printed and one [FirstError]
    is logged. Either way the reactor is stopped. *)
Theorem run_outcome (start_day end_day : date)
    (new_response closed_response : outcome (list (list string)))
    (github_response : outcome (list json_record)) :
  let w := run start_day end_day new_response closed_response github_response in
  (∀ a b body,
     new_response = Success a → closed_response = Success b →
     github_response = Success body →
     well_formed_body a → well_formed_body b → Forall pr_ok body →
     Forall has_columns (List.filter (is_opened start_day end_day) body) →
     Forall has_columns (List.filter (is_completed start_day end_day) body) →
     ∃ trac github text,
       get_trac_tickets new_response closed_response = Success ("trac", trac) ∧
       get_github_prs start_day end_day github_response = Success ("github", github) ∧
       message {[ "trac" := trac; "github" := github ]} = Ok text ∧
       w = World [text] [] true) ∧
  (stdout w ≠ [] →
     ∃ a b body,
       new_response = Success a ∧ closed_response = Success b ∧
       github_response = Success body ∧
       well_formed_body a ∧ well_formed_body b ∧ Forall pr_ok body ∧
       Forall has_columns (List.filter (is_opened start_day end_day) body) ∧
       Forall has_columns (List.filter (is_completed start_day end_day) body)) ∧
  (stdout w = [] → w = World [] [FirstError] true).
Proof.
  intros w. subst w. unfold run. split; [| split].
  - intros a b body -> -> -> Ha Hb Hok Ho Hc.
    destruct (get_trac_tickets_well_formed a b Ha Hb) as [trac Htrac].
    unfold get_github_prs. cbn [addCallback].
    rewrite (summarize_github_prs_Ok _ _ _ body Hok Ho Hc), Htrac.
    eexists _, _, _. split; [done |]. split; [done |]. split; reflexivity.
  - intros Hout.
    destruct (get_trac_tickets new_response closed_response) as [x|f] eqn:Htrac.
    + destruct (get_github_prs start_day end_day github_response) as [y|g] eqn:Hgh.
      * apply get_trac_tickets_Success_inv in Htrac as (a & b & -> & -> & Ha & Hb).
        destruct github_response as [body|g]; [| done].
        unfold get_github_prs in Hgh. cbn [addCallback] in Hgh.
        destruct (summarize_github_prs _ _ _ body) as [v|e] eqn:Hsum; [| done].
        apply summarize_github_prs_Ok_inv in Hsum as (Hok & Ho & Hc).
        by exists a, b, body.
      * by rewrite main_one_failed in Hout.
    + by rewrite main_one_failed in Hout.
  - intros Hout.
    destruct (get_trac_tickets new_response closed_response) as [x|f] eqn:Htrac.
    + destruct (get_github_prs start_day end_day github_response) as [y|g] eqn:Hgh.
      * pose proof Htrac as Hinv.
        apply get_trac_tickets_Success_inv in Hinv as (a & b & -> & -> & Ha & Hb).
        destruct (get_trac_tickets_well_formed a b Ha Hb) as [trac Htrac'].
        rewrite Htrac in Htrac'. injection Htrac' as ->.
        destruct github_response as [body|g]; [| done].
        unfold get_github_prs in Hgh. cbn [addCallback] in Hgh.
        destruct (summarize_github_prs _ _ _ body) as [v|e] eqn:Hsum; [| done].
        injection Hgh as <-.
        pose proof Hsum as Hinv.
        apply summarize_github_prs_Ok_inv in Hinv as (Hok & Ho & Hc).
        rewrite (summarize_github_prs_Ok _ _ _ body Hok Ho Hc) in Hsum.
        injection Hsum as <-. done.
      * by apply main_one_failed.
    + by apply main_one_failed.
Qed.

Lemma run_outcome_witness :
  (∃ text,
     run (Date 2024 1 8) (Date 2024 1 14)
       (Success tracker_response) (Success tracker_response) (Success sample_prs)
     = World [text] [] true) ∧
  run (Date 2024 1 8) (Date 2024 1 14)
    (Success tracker_response) (Success tracker_response) (Success [pr_cafe])
  = World [] [FirstError] true.
Proof.
  split.
  - destruct (proj1 (run_outcome (Date 2024 1 8) (Date 2024 1 14)
                       (Success tracker_response) (Success tracker_response)
                       (Success sample_prs))
                tracker_response tracker_response sample_prs eq_refl eq_refl eq_refl)
      as (trac & github & text & _ & _ & _ & H).
    + eexists _, _. split; [reflexivity |]. repeat constructor.
    + eexists _, _. split; [reflexivity |]. repeat constructor.
    + exact sample_prs_ok.
    + repeat constructor; by eexists.
    + repeat constructor; by eexists.
    + by exists text.
  - apply (proj2 (proj2 (run_outcome (Date 2024 1 8) (Date 2024 1 14)
                           (Success tracker_response) (Success tracker_response)
                           (Success [pr_cafe])))).
    by_evaluation.
Defined.
